(** * WSClient: the reconnecting JSON-RPC WebSocket client

    A shallow embedding of [rpc/jsonrpc/client/ws_client.go].

    The Go struct [WSClient] becomes a record, its buffered channels become
    bounded queues, and each goroutine ([writeRoutine], [readRoutine],
    [reconnectRoutine]) becomes a labelled transition function over a
    program point: one transition per blocking operation ([select], channel
    send, [wg.Wait]).  Results of the outside world (dial, socket reads and
    writes, the clock, the random jitter) are carried by the labels.
    Callers act on the system through [Send], [Call] and [Stop]; a system
    is [reachable] when it follows one successful [Start] by any sequence
    of such transitions.

    Logging, the pong handler and the latency timer are omitted: they
    touch none of the state modelled here. *)

From Stdlib Require Import ZArith String List Bool Lia.
Import ListNotations.
Local Open Scope Z_scope.

(** ** Machine integers *)

Module GoInt.

(** [int] and [int64] ([time.Duration]) on a 64-bit platform: two's
    complement with wrap-around. *)
Definition min_int : Z := - 2 ^ 63.
Definition max_int : Z := 2 ^ 63 - 1.
Definition wrap_int (z : Z) : Z := (z + 2 ^ 63) mod 2 ^ 64 - 2 ^ 63.

(** [uint] on a 64-bit platform. *)
Definition max_uint : Z := 2 ^ 64 - 1.
Definition wrap_uint (z : Z) : Z := z mod 2 ^ 64.

(** [x << k] at type int64 with an unsigned count [k]: counts of 64 and
    more shift every bit out. *)
Definition shl_int (x k : Z) : Z := wrap_int (Z.shiftl x k).

Definition in_int (z : Z) : Prop := min_int <= z <= max_int.
Definition in_uint (z : Z) : Prop := 0 <= z <= max_uint.

End GoInt.
Import GoInt.

(** ** Time *)

(** [time.Time] as nanoseconds on a clock, [time.Duration] as int64
    nanoseconds. *)
Definition Time := Z.
Definition Duration := Z.
Definition Second : Duration := 1000000000.

(** [t.Add(d)] *)
Definition time_add (t : Time) (d : Duration) : Time := t + d.

(** ** Errors *)

(** The error values that flow through the client.  [CloseError] is
    gorilla's [*websocket.CloseError]; [IOError] stands for every other
    error a socket operation or the dialer returns (timeouts, resets, use of
    a closed connection). *)
Inductive error : Type :=
| CloseError (code : Z) (text : string)
| IOError (msg : string)
| ErrMarshal
| ErrCanceled
| ErrDeadlineExceeded
| ErrClientRunning
| ErrClientNotRunning
| ErrMaxReconnect (cause : error).

Definition CloseNormalClosure : Z := 1000.
Definition CloseAbnormalClosure : Z := 1006.

(** [websocket.IsUnexpectedCloseError(err, expectedCodes...)], as gorilla
    documents it: true exactly when [err] is a [*CloseError] whose code is
    not one of the expected codes. *)
Definition IsUnexpectedCloseError (err : error) (expectedCodes : list Z) : bool :=
  match err with
  | CloseError code _ => negb (existsb (Z.eqb code) expectedCodes)
  | _ => false
  end.

(** ** Contexts *)

(** The state of a [context.Context] as its holder observes it. *)
Inductive Context : Type :=
| CtxLive
| CtxCanceled
| CtxDeadlineExceeded.

(** [<-ctx.Done()] is ready *)
Definition ctx_Done (ctx : Context) : bool :=
  match ctx with CtxLive => false | _ => true end.

(** [ctx.Err()] *)
Definition ctx_Err (ctx : Context) : option error :=
  match ctx with
  | CtxLive => None
  | CtxCanceled => Some ErrCanceled
  | CtxDeadlineExceeded => Some ErrDeadlineExceeded
  end.

(** ** Channels *)

(** The outcome of an operation that may park the goroutine or panic. *)
Inductive op (A : Type) : Type :=
| Ok (a : A)
| Block
| Panic.
Arguments Ok {A} a.
Arguments Block {A}.
Arguments Panic {A}.

Definition op_bind {A B} (m : op A) (k : A -> op B) : op B :=
  match m with
  | Ok a => k a
  | Block => Block
  | Panic => Panic
  end.

Module Chan.

(** A channel value: the nil channel, or a made channel with its
    capacity, its buffered elements (oldest first) and its closed flag. *)
Inductive chan (A : Type) : Type :=
| Nil
| Made (capacity : nat) (buf : list A) (closed : bool).
Arguments Nil {A}.
Arguments Made {A} capacity buf closed.

(** [make(chan A, n)] *)
Definition make {A} (n : nat) : chan A := Made n [] false.

Definition buffered {A} (ch : chan A) : list A :=
  match ch with Nil => [] | Made _ buf _ => buf end.

Definition cap {A} (ch : chan A) : nat :=
  match ch with Nil => 0%nat | Made n _ _ => n end.

Definition is_closed {A} (ch : chan A) : bool :=
  match ch with Nil => false | Made _ _ cl => cl end.

(** [ch <- v] into the buffer; a rendezvous with a parked receiver is a
    transition of its own.  Nil and full channels block, closed ones
    panic. *)
Definition send {A} (v : A) (ch : chan A) : op (chan A) :=
  match ch with
  | Nil => Block
  | Made n buf true => Panic
  | Made n buf false =>
      if (length buf <? n)%nat then Ok (Made n (buf ++ [v]) false) else Block
  end.

(** [v, ok := <-ch]: the oldest buffered element; on a closed and drained
    channel the receive is ready and yields no element. *)
Definition recv {A} (ch : chan A) : op (option A * chan A) :=
  match ch with
  | Nil => Block
  | Made n (v :: buf) cl => Ok (Some v, Made n buf cl)
  | Made n [] true => Ok (None, ch)
  | Made n [] false => Block
  end.

(** whether [<-ch] is ready in a [select] *)
Definition recv_ready {A} (ch : chan A) : bool :=
  match recv ch with Ok _ => true | _ => false end.

(** [close(ch)] *)
Definition close {A} (ch : chan A) : op (chan A) :=
  match ch with
  | Nil => Panic
  | Made n buf true => Panic
  | Made n buf false => Ok (Made n buf true)
  end.

End Chan.
Import Chan(chan).

(** ** JSON-RPC values *)

(** A parameter value handed to [json.Marshal]; [JUnsupported] stands for a
    Go value the encoder rejects (a channel, a function). *)
Inductive jsonval : Type :=
| JString (s : string)
| JInt (z : Z)
| JUnsupported.

Definition Params := list (string * jsonval).

(** [rpctypes.RPCRequest] with an integer identifier. *)
Record RPCRequest : Type := {
  req_ID : Z;
  req_Method : string;
  req_Params : Params;
}.

(** The identifier of a response as decoded from the wire. *)
Inductive jsonrpcid : Type :=
| NoID
| IntID (z : Z)
| StringID (s : string).

Record RPCResponse : Type := {
  resp_ID : jsonrpcid;
  resp_Result : string;
}.

Definition encodable (v : jsonval) : bool :=
  match v with JUnsupported => false | _ => true end.

(** Modelled from the spec: [rpctypes.MapToRequest] is not part of the
    sources at hand; it is the "serialize primitive" that builds a request
    value from an identifier, a method name and parameters, and fails when
    the parameters cannot be encoded. *)
Definition MapToRequest (id : Z) (method : string) (params : Params)
  : RPCRequest + error :=
  if forallb (fun kv => encodable (snd kv)) params
  then inl {| req_ID := id; req_Method := method; req_Params := params |}
  else inr ErrMarshal.

(** Modelled from the spec: [validateResponseID] is not part of the sources
    at hand; "a well-formed response with an identifier that fails
    validation (e.g., wrong type/format)" is skipped, so only integer
    identifiers pass. *)
Definition validateResponseID (id : jsonrpcid) : option error :=
  match id with
  | IntID _ => None
  | _ => Some (IOError "invalid response ID")
  end.

(** ** The connection *)

(** What the client puts on the wire: [WriteJSON(request)], a ping control
    frame, a close control frame with its code. *)
Inductive frame : Type :=
| JSONFrame (request : RPCRequest)
| PingFrame
| CloseFrame (code : Z).

(** A [*websocket.Conn] as the client sees it: the dial that produced it,
    its deadlines, the frames the socket accepted (oldest first, each with
    the write deadline in force when it was written) and whether [Close] was
    called. *)
Record Conn : Type := {
  conn_id : nat;
  writeDeadline : option Time;
  readDeadline : option Time;
  written : list (frame * option Time);
  conn_closed : bool;
}.

(** the connection a successful [dialer.Dial] returns *)
Definition new_conn (id : nat) : Conn :=
  {| conn_id := id; writeDeadline := None; readDeadline := None;
     written := []; conn_closed := false |}.

(** [conn.SetWriteDeadline(t)] *)
Definition SetWriteDeadline (t : Time) (k : Conn) : Conn :=
  {| conn_id := conn_id k; writeDeadline := Some t;
     readDeadline := readDeadline k; written := written k;
     conn_closed := conn_closed k |}.

(** [conn.SetReadDeadline(t)] *)
Definition SetReadDeadline (t : Time) (k : Conn) : Conn :=
  {| conn_id := conn_id k; writeDeadline := writeDeadline k;
     readDeadline := Some t; written := written k;
     conn_closed := conn_closed k |}.

(** [conn.WriteJSON] / [conn.WriteMessage] with the result [res] the socket
    gives: a frame is on the wire only when the write returned no error. *)
Definition conn_write (f : frame) (res : option error) (k : Conn) : Conn :=
  match res with
  | None =>
      {| conn_id := conn_id k; writeDeadline := writeDeadline k;
         readDeadline := readDeadline k;
         written := written k ++ [(f, writeDeadline k)];
         conn_closed := conn_closed k |}
  | Some _ => k
  end.

(** [conn.Close()] *)
Definition conn_Close (k : Conn) : Conn :=
  {| conn_id := conn_id k; writeDeadline := writeDeadline k;
     readDeadline := readDeadline k; written := written k;
     conn_closed := true |}.

(** The frames alone, without their deadlines. *)
Definition frames (k : Conn) : list frame := map fst (written k).

(** ** The client *)

(** [WSOptions] *)
Record WSOptions : Type := {
  MaxReconnectAttempts : Z;
  ReadWait : Duration;
  WriteWait : Duration;
  PingPeriod : Duration;
  SkipMetrics : bool;
}.

(** [DefaultWSOptions()] *)
Definition DefaultWSOptions : WSOptions :=
  {| MaxReconnectAttempts := 10;
     WriteWait := 10 * Second;
     ReadWait := 0;
     PingPeriod := 0;
     SkipMetrics := false |}.

(** [WSClient].  [isRunning] is the embedded [RunState]; [onReconnect]
    records whether a callback is set; [wg] is the counter of the
    [sync.WaitGroup]; the mutex [mtx] has no field: every critical section
    of the source is one uninterrupted update below. *)
Record WSClient : Type := {
  isRunning : bool;
  conn : option Conn;
  Address : string;
  Endpoint : string;
  ResponsesCh : chan RPCResponse;
  onReconnect : bool;
  send : chan RPCRequest;
  backlog : chan RPCRequest;
  reconnectAfter : chan error;
  readRoutineQuit : chan unit;
  maxReconnectAttempts : Z;
  protocol : string;
  wg : nat;
  sentLastPingAt : Time;
  reconnecting : bool;
  nextReqID : Z;
  writeWait : Duration;
  readWait : Duration;
  pingPeriod : Duration;
  skipMetrics : bool;
}.

Definition set_isRunning (v : bool) (c : WSClient) : WSClient :=
  {| isRunning := v; conn := conn c; Address := Address c;
     Endpoint := Endpoint c; ResponsesCh := ResponsesCh c;
     onReconnect := onReconnect c; send := send c; backlog := backlog c;
     reconnectAfter := reconnectAfter c;
     readRoutineQuit := readRoutineQuit c;
     maxReconnectAttempts := maxReconnectAttempts c; protocol := protocol c;
     wg := wg c; sentLastPingAt := sentLastPingAt c;
     reconnecting := reconnecting c; nextReqID := nextReqID c;
     writeWait := writeWait c; readWait := readWait c;
     pingPeriod := pingPeriod c; skipMetrics := skipMetrics c |}.

Definition set_conn (v : option Conn) (c : WSClient) : WSClient :=
  {| isRunning := isRunning c; conn := v; Address := Address c;
     Endpoint := Endpoint c; ResponsesCh := ResponsesCh c;
     onReconnect := onReconnect c; send := send c; backlog := backlog c;
     reconnectAfter := reconnectAfter c;
     readRoutineQuit := readRoutineQuit c;
     maxReconnectAttempts := maxReconnectAttempts c; protocol := protocol c;
     wg := wg c; sentLastPingAt := sentLastPingAt c;
     reconnecting := reconnecting c; nextReqID := nextReqID c;
     writeWait := writeWait c; readWait := readWait c;
     pingPeriod := pingPeriod c; skipMetrics := skipMetrics c |}.

Definition set_ResponsesCh (v : chan RPCResponse) (c : WSClient) : WSClient :=
  {| isRunning := isRunning c; conn := conn c; Address := Address c;
     Endpoint := Endpoint c; ResponsesCh := v;
     onReconnect := onReconnect c; send := send c; backlog := backlog c;
     reconnectAfter := reconnectAfter c;
     readRoutineQuit := readRoutineQuit c;
     maxReconnectAttempts := maxReconnectAttempts c; protocol := protocol c;
     wg := wg c; sentLastPingAt := sentLastPingAt c;
     reconnecting := reconnecting c; nextReqID := nextReqID c;
     writeWait := writeWait c; readWait := readWait c;
     pingPeriod := pingPeriod c; skipMetrics := skipMetrics c |}.

Definition set_send (v : chan RPCRequest) (c : WSClient) : WSClient :=
  {| isRunning := isRunning c; conn := conn c; Address := Address c;
     Endpoint := Endpoint c; ResponsesCh := ResponsesCh c;
     onReconnect := onReconnect c; send := v; backlog := backlog c;
     reconnectAfter := reconnectAfter c;
     readRoutineQuit := readRoutineQuit c;
     maxReconnectAttempts := maxReconnectAttempts c; protocol := protocol c;
     wg := wg c; sentLastPingAt := sentLastPingAt c;
     reconnecting := reconnecting c; nextReqID := nextReqID c;
     writeWait := writeWait c; readWait := readWait c;
     pingPeriod := pingPeriod c; skipMetrics := skipMetrics c |}.

Definition set_backlog (v : chan RPCRequest) (c : WSClient) : WSClient :=
  {| isRunning := isRunning c; conn := conn c; Address := Address c;
     Endpoint := Endpoint c; ResponsesCh := ResponsesCh c;
     onReconnect := onReconnect c; send := send c; backlog := v;
     reconnectAfter := reconnectAfter c;
     readRoutineQuit := readRoutineQuit c;
     maxReconnectAttempts := maxReconnectAttempts c; protocol := protocol c;
     wg := wg c; sentLastPingAt := sentLastPingAt c;
     reconnecting := reconnecting c; nextReqID := nextReqID c;
     writeWait := writeWait c; readWait := readWait c;
     pingPeriod := pingPeriod c; skipMetrics := skipMetrics c |}.

Definition set_reconnectAfter (v : chan error) (c : WSClient) : WSClient :=
  {| isRunning := isRunning c; conn := conn c; Address := Address c;
     Endpoint := Endpoint c; ResponsesCh := ResponsesCh c;
     onReconnect := onReconnect c; send := send c; backlog := backlog c;
     reconnectAfter := v;
     readRoutineQuit := readRoutineQuit c;
     maxReconnectAttempts := maxReconnectAttempts c; protocol := protocol c;
     wg := wg c; sentLastPingAt := sentLastPingAt c;
     reconnecting := reconnecting c; nextReqID := nextReqID c;
     writeWait := writeWait c; readWait := readWait c;
     pingPeriod := pingPeriod c; skipMetrics := skipMetrics c |}.

Definition set_readRoutineQuit (v : chan unit) (c : WSClient) : WSClient :=
  {| isRunning := isRunning c; conn := conn c; Address := Address c;
     Endpoint := Endpoint c; ResponsesCh := ResponsesCh c;
     onReconnect := onReconnect c; send := send c; backlog := backlog c;
     reconnectAfter := reconnectAfter c;
     readRoutineQuit := v;
     maxReconnectAttempts := maxReconnectAttempts c; protocol := protocol c;
     wg := wg c; sentLastPingAt := sentLastPingAt c;
     reconnecting := reconnecting c; nextReqID := nextReqID c;
     writeWait := writeWait c; readWait := readWait c;
     pingPeriod := pingPeriod c; skipMetrics := skipMetrics c |}.

Definition set_wg (v : nat) (c : WSClient) : WSClient :=
  {| isRunning := isRunning c; conn := conn c; Address := Address c;
     Endpoint := Endpoint c; ResponsesCh := ResponsesCh c;
     onReconnect := onReconnect c; send := send c; backlog := backlog c;
     reconnectAfter := reconnectAfter c;
     readRoutineQuit := readRoutineQuit c;
     maxReconnectAttempts := maxReconnectAttempts c; protocol := protocol c;
     wg := v; sentLastPingAt := sentLastPingAt c;
     reconnecting := reconnecting c; nextReqID := nextReqID c;
     writeWait := writeWait c; readWait := readWait c;
     pingPeriod := pingPeriod c; skipMetrics := skipMetrics c |}.

Definition set_sentLastPingAt (v : Time) (c : WSClient) : WSClient :=
  {| isRunning := isRunning c; conn := conn c; Address := Address c;
     Endpoint := Endpoint c; ResponsesCh := ResponsesCh c;
     onReconnect := onReconnect c; send := send c; backlog := backlog c;
     reconnectAfter := reconnectAfter c;
     readRoutineQuit := readRoutineQuit c;
     maxReconnectAttempts := maxReconnectAttempts c; protocol := protocol c;
     wg := wg c; sentLastPingAt := v;
     reconnecting := reconnecting c; nextReqID := nextReqID c;
     writeWait := writeWait c; readWait := readWait c;
     pingPeriod := pingPeriod c; skipMetrics := skipMetrics c |}.

Definition set_reconnecting (v : bool) (c : WSClient) : WSClient :=
  {| isRunning := isRunning c; conn := conn c; Address := Address c;
     Endpoint := Endpoint c; ResponsesCh := ResponsesCh c;
     onReconnect := onReconnect c; send := send c; backlog := backlog c;
     reconnectAfter := reconnectAfter c;
     readRoutineQuit := readRoutineQuit c;
     maxReconnectAttempts := maxReconnectAttempts c; protocol := protocol c;
     wg := wg c; sentLastPingAt := sentLastPingAt c;
     reconnecting := v; nextReqID := nextReqID c;
     writeWait := writeWait c; readWait := readWait c;
     pingPeriod := pingPeriod c; skipMetrics := skipMetrics c |}.

Definition set_nextReqID (v : Z) (c : WSClient) : WSClient :=
  {| isRunning := isRunning c; conn := conn c; Address := Address c;
     Endpoint := Endpoint c; ResponsesCh := ResponsesCh c;
     onReconnect := onReconnect c; send := send c; backlog := backlog c;
     reconnectAfter := reconnectAfter c;
     readRoutineQuit := readRoutineQuit c;
     maxReconnectAttempts := maxReconnectAttempts c; protocol := protocol c;
     wg := wg c; sentLastPingAt := sentLastPingAt c;
     reconnecting := reconnecting c; nextReqID := v;
     writeWait := writeWait c; readWait := readWait c;
     pingPeriod := pingPeriod c; skipMetrics := skipMetrics c |}.

Definition set_onReconnect (v : bool) (c : WSClient) : WSClient :=
  {| isRunning := isRunning c; conn := conn c; Address := Address c;
     Endpoint := Endpoint c; ResponsesCh := ResponsesCh c;
     onReconnect := v; send := send c; backlog := backlog c;
     reconnectAfter := reconnectAfter c;
     readRoutineQuit := readRoutineQuit c;
     maxReconnectAttempts := maxReconnectAttempts c; protocol := protocol c;
     wg := wg c; sentLastPingAt := sentLastPingAt c;
     reconnecting := reconnecting c; nextReqID := nextReqID c;
     writeWait := writeWait c; readWait := readWait c;
     pingPeriod := pingPeriod c; skipMetrics := skipMetrics c |}.

Definition protoWS : string := "ws".
Definition protoWSS : string := "wss".

(** What [newParsedURL] yields for a valid remote address: the scheme and
    the host with path.  The parser itself is outside the sources at hand;
    its result, and that of [makeHTTPDialer], are arguments of the
    constructor. *)
Record parsedURL : Type := {
  Scheme : string;
  TrimmedHostWithPath : string;
}.

(** [NewWSWithOptions(remoteAddr, endpoint, opts)].  The fields the
    composite literal leaves out take Go's zero values: nil channels, nil
    connection, counter 0. *)
Definition NewWSWithOptions (parsed : parsedURL + error)
    (dialFn : option error) (endpoint : string) (opts : WSOptions)
  : WSClient + error :=
  match parsed with
  | inr err => inr err
  | inl u =>
      let scheme := if String.eqb (Scheme u) protoWSS then protoWSS else protoWS in
      match dialFn with
      | Some err => inr err
      | None =>
          inl {| isRunning := false;
                 conn := None;
                 Address := TrimmedHostWithPath u;
                 Endpoint := endpoint;
                 ResponsesCh := Chan.Nil;
                 onReconnect := false;
                 send := Chan.Nil;
                 backlog := Chan.Nil;
                 reconnectAfter := Chan.Nil;
                 readRoutineQuit := Chan.Nil;
                 maxReconnectAttempts := MaxReconnectAttempts opts;
                 protocol := scheme;
                 wg := 0%nat;
                 sentLastPingAt := 0;
                 reconnecting := false;
                 nextReqID := 0;
                 writeWait := WriteWait opts;
                 readWait := ReadWait opts;
                 pingPeriod := PingPeriod opts;
                 skipMetrics := SkipMetrics opts |}
      end
  end.

(** [NewWS(remoteAddr, endpoint)] *)
Definition NewWS (parsed : parsedURL + error) (dialFn : option error)
    (endpoint : string) : WSClient + error :=
  NewWSWithOptions parsed dialFn endpoint DefaultWSOptions.

(** [OnReconnect(cb)] *)
Definition OnReconnect (c : WSClient) : WSClient := set_onReconnect true c.

(** [IsReconnecting()] *)
Definition IsReconnecting (c : WSClient) : bool := reconnecting c.

(** [IsActive()] *)
Definition IsActive (c : WSClient) : bool :=
  isRunning c && negb (IsReconnecting c).

(** [nextRequestID()]: the identifier handed out and the client with the
    counter advanced; [c.nextReqID++] wraps like every Go [int]. *)
Definition nextRequestID (c : WSClient) : Z * WSClient :=
  let id := nextReqID c in
  (id, set_nextReqID (wrap_int (nextReqID c + 1)) c).

(** Modelled from the spec: [RunState] ([rpc/client]) is not part of the
    sources at hand; it is the "external run state that only gates whether
    operations are legal": [Start] fails on a running client, [Stop] on a
    stopped one. *)
Definition RunState_Start (c : WSClient) : option error * WSClient :=
  if isRunning c then (Some ErrClientRunning, c)
  else (None, set_isRunning true c).

Definition RunState_Stop (c : WSClient) : option error * WSClient :=
  if isRunning c then (None, set_isRunning false c)
  else (Some ErrClientNotRunning, c).

(** The outcome of [dialer.Dial]: a connection (named by [id]) or an
    error. *)
Inductive dial_result : Type :=
| Dialed (id : nat)
| DialFailed (err : error).

(** [dial()] *)
Definition dial (r : dial_result) (c : WSClient) : option error * WSClient :=
  match r with
  | DialFailed err => (Some err, c)
  | Dialed id => (None, set_conn (Some (new_conn id)) c)
  end.

(** [jitter + ((1 << attempt) * time.Second)] (line 282).  The untyped
    constant 1 takes the type of the product, [time.Duration], so the shift,
    the product and the sum are all int64 operations.  [jitter] is
    [time.Duration(mrand.Float64() * float64(time.Second))]. *)
Definition backoffDuration (jitter : Duration) (attempt : Z) : Duration :=
  wrap_int (jitter + wrap_int (shl_int 1 attempt * Second)).

(** the values the conversion of [mrand.Float64() * 1e9] can take *)
Definition is_jitter (jitter : Duration) : bool :=
  (0 <=? jitter) && (jitter <? Second).

(** a write deadline is set only when [writeWait > 0] (lines 321, 399, 412) *)
Definition with_write_deadline (now : Time) (c : WSClient) (k : Conn) : Conn :=
  if 0 <? writeWait c then SetWriteDeadline (time_add now (writeWait c)) k
  else k.

(** a read deadline is set only when [readWait > 0] (line 465) *)
Definition with_read_deadline (now : Time) (c : WSClient) (k : Conn) : Conn :=
  if 0 <? readWait c then SetReadDeadline (time_add now (readWait c)) k
  else k.

(** ** Program points of the goroutines *)

(** [writeRoutine]: parked at the [select] (line 397); holding a request
    received from [c.send] (lines 399-404 ahead); at
    [c.reconnectAfter <- err] (lines 406, 419), with the request to put in
    the backlog afterwards when there is one; at [c.backlog <- request]
    (line 408). *)
Inductive write_pc : Type :=
| W_select
| W_request (request : RPCRequest)
| W_signal (err : error) (pending : option RPCRequest)
| W_backlog (request : RPCRequest).

(** [readRoutine]: at the top of the loop (line 463); at
    [c.reconnectAfter <- err] (line 478); at the [select] that forwards a
    response (line 513). *)
Inductive read_pc : Type :=
| R_read
| R_signal (err : error)
| R_deliver (response : RPCResponse).

(** [reconnect]: parked at the [select] on the timer (line 286) in the
    iteration of [attempt], the timer armed with [backoff]. *)
Inductive reconnect_pc : Type :=
| RC_backoff (attempt : Z) (backoff : Duration).

(** [processBacklog]: at the [select] (line 319); holding the request taken
    from the backlog (lines 321-326 ahead); at [c.reconnectAfter <- err]
    (line 328); at [c.backlog <- request] (line 330). *)
Inductive backlog_pc : Type :=
| B_select
| B_write (request : RPCRequest)
| B_signal (err : error) (request : RPCRequest)
| B_requeue (err : error) (request : RPCRequest).

(** [reconnectRoutine]: parked at the outer [select] (line 341); at
    [c.wg.Wait()] (line 346); inside [c.reconnect] (line 347); inside
    [c.Stop], at its [c.wg.Wait()] (lines 349, 185); at the [select] of the
    drain loop (line 358); inside [c.processBacklog] (line 366). *)
Inductive coord_pc : Type :=
| C_select
| C_wait (originalError : option error)
| C_reconnect (originalError : option error) (pc : reconnect_pc)
| C_stop
| C_drain
| C_backlog (pc : backlog_pc).

(** The client together with its goroutines.  A goroutine that has returned
    (or was never started) is [None].  [ctx] is the context given to
    [Start]; [delivered] lists the responses a consumer has taken from
    [ResponsesCh]; [callbacks] counts the [onReconnect] goroutines
    spawned; [stopping] counts the callers parked inside [Stop]. *)
Record System : Type := {
  client : WSClient;
  ctx : Context;
  writer : option write_pc;
  reader : option read_pc;
  coordinator : option coord_pc;
  delivered : list RPCResponse;
  callbacks : nat;
  stopping : nat;
}.

Definition with_client (c : WSClient) (s : System) : System :=
  {| client := c; ctx := ctx s; writer := writer s; reader := reader s;
     coordinator := coordinator s; delivered := delivered s;
     callbacks := callbacks s; stopping := stopping s |}.

Definition with_ctx (x : Context) (s : System) : System :=
  {| client := client s; ctx := x; writer := writer s; reader := reader s;
     coordinator := coordinator s; delivered := delivered s;
     callbacks := callbacks s; stopping := stopping s |}.

Definition with_writer (pc : option write_pc) (s : System) : System :=
  {| client := client s; ctx := ctx s; writer := pc; reader := reader s;
     coordinator := coordinator s; delivered := delivered s;
     callbacks := callbacks s; stopping := stopping s |}.

Definition with_reader (pc : option read_pc) (s : System) : System :=
  {| client := client s; ctx := ctx s; writer := writer s; reader := pc;
     coordinator := coordinator s; delivered := delivered s;
     callbacks := callbacks s; stopping := stopping s |}.

Definition with_coordinator (pc : option coord_pc) (s : System) : System :=
  {| client := client s; ctx := ctx s; writer := writer s; reader := reader s;
     coordinator := pc; delivered := delivered s;
     callbacks := callbacks s; stopping := stopping s |}.

Definition with_delivered (l : list RPCResponse) (s : System) : System :=
  {| client := client s; ctx := ctx s; writer := writer s; reader := reader s;
     coordinator := coordinator s; delivered := l;
     callbacks := callbacks s; stopping := stopping s |}.

Definition with_stopping (n : nat) (s : System) : System :=
  {| client := client s; ctx := ctx s; writer := writer s; reader := reader s;
     coordinator := coordinator s; delivered := delivered s;
     callbacks := callbacks s; stopping := n |}.

Definition with_callbacks (n : nat) (s : System) : System :=
  {| client := client s; ctx := ctx s; writer := writer s; reader := reader s;
     coordinator := coordinator s; delivered := delivered s;
     callbacks := n; stopping := stopping s |}.

(** a client that has not been started: no goroutine runs *)
Definition idle (c : WSClient) : System :=
  {| client := c; ctx := CtxLive; writer := None; reader := None;
     coordinator := None; delivered := []; callbacks := 0%nat;
     stopping := 0%nat |}.

(** [startReadWriteRoutines(ctx)] *)
Definition startReadWriteRoutines (s : System) : System :=
  let c := client s in
  let c := set_wg (wg c + 2)%nat c in
  let c := set_readRoutineQuit (Chan.make 0) c in
  with_writer (Some W_select) (with_reader (Some R_read) (with_client c s)).

(** [Start(ctx)] with the outcome [r] of its dial. *)
Definition Start (x : Context) (r : dial_result) (s : System)
  : option error * System :=
  match RunState_Start (client s) with
  | (Some err, _) => (Some err, s)
  | (None, c) =>
      match dial r c with
      | (Some err, c) => (Some err, with_client c s)
      | (None, c) =>
          let c := set_ResponsesCh (Chan.make 0) c in
          let c := set_send (Chan.make 0) c in
          let c := set_reconnectAfter (Chan.make 1) c in
          let c := set_backlog (Chan.make 1) c in
          let s := startReadWriteRoutines (with_ctx x (with_client c s)) in
          (None, with_coordinator (Some C_select) s)
      end
  end.

(** [Stop()] up to its [c.wg.Wait()] (lines 180-183): the error of
    [RunState.Stop], if any, ends the call. *)
Definition Stop_enter (c : WSClient) : option error * WSClient :=
  RunState_Stop c.

(** [Stop()] from [c.wg.Wait()] on (lines 185-188): parked while workers
    are alive, then [close(c.ResponsesCh)]. *)
Definition Stop_finish (c : WSClient) : op WSClient :=
  match wg c with
  | O =>
      match Chan.close (ResponsesCh c) with
      | Ok ch => Ok (set_ResponsesCh ch c)
      | Block => Block
      | Panic => Panic
      end
  | S _ => Block
  end.

(** ** The Write Worker *)

(** Transitions of [writeRoutine].  [WTick]: the ticker fired; [now] is
    read for the deadline, [res] is what [WriteMessage(PingMessage)]
    returns, [sent] is read for [sentLastPingAt].  [WQuit]:
    [<-c.readRoutineQuit].  [WDone]: [<-ctx.Done()], [res] is what writing
    the close frame returns.  [WWrite]: the deadline and [WriteJSON] of a
    received request.  [WSignal], [WBacklog]: the two channel sends of the
    failure paths.  (Receiving from [c.send] is the other half of [Send].) *)
Inductive write_label : Type :=
| WTick (now : Time) (res : option error) (sent : Time)
| WQuit
| WDone (res : option error)
| WWrite (now : Time) (res : option error)
| WSignal
| WBacklog.

(** the deferred calls of [writeRoutine] (lines 386-394): [ticker.Stop()],
    [c.conn.Close()], [c.wg.Done()] *)
Definition writeRoutine_exit (s : System) : op System :=
  let c := client s in
  match conn c, wg c with
  | Some k, S n =>
      Ok (with_writer None
            (with_client (set_wg n (set_conn (Some (conn_Close k)) c)) s))
  | _, _ => Panic
  end.

(** [writeRoutine(ctx)] *)
Definition writeRoutine (l : write_label) (s : System) : op System :=
  let c := client s in
  match writer s, l with
  | Some W_select, WTick now res sent =>
      if 0 <? pingPeriod c then
        match conn c with
        | None => Panic
        | Some k =>
            let k := with_write_deadline now c k in
            let k := conn_write PingFrame res k in
            let c := set_conn (Some k) c in
            match res with
            | Some err =>
                Ok (with_writer (Some (W_signal err None)) (with_client c s))
            | None =>
                Ok (with_client (set_sentLastPingAt sent c) s)
            end
        end
      else Block
  | Some W_select, WQuit =>
      if Chan.recv_ready (readRoutineQuit c) then writeRoutine_exit s
      else Block
  | Some W_select, WDone res =>
      if ctx_Done (ctx s) then
        match conn c with
        | None => Panic
        | Some k =>
            let k := conn_write (CloseFrame CloseNormalClosure) res k in
            writeRoutine_exit (with_client (set_conn (Some k) c) s)
        end
      else Block
  | Some (W_request request), WWrite now res =>
      match conn c with
      | None => Panic
      | Some k =>
          let k := with_write_deadline now c k in
          let k := conn_write (JSONFrame request) res k in
          let c := set_conn (Some k) c in
          match res with
          | Some err =>
              Ok (with_writer (Some (W_signal err (Some request)))
                    (with_client c s))
          | None => Ok (with_writer (Some W_select) (with_client c s))
          end
      end
  | Some (W_signal err pending), WSignal =>
      match Chan.send err (reconnectAfter c) with
      | Ok ch =>
          let s := with_client (set_reconnectAfter ch c) s in
          match pending with
          | Some request => Ok (with_writer (Some (W_backlog request)) s)
          | None => writeRoutine_exit s
          end
      | Block => Block
      | Panic => Panic
      end
  | Some (W_backlog request), WBacklog =>
      match Chan.send request (backlog c) with
      | Ok ch => writeRoutine_exit (with_client (set_backlog ch c) s)
      | Block => Block
      | Panic => Panic
      end
  | _, _ => Block
  end.

(** ** The Read Worker *)

(** What [c.conn.ReadMessage()] returns: an error, or a data frame together
    with what [json.Unmarshal] makes of it. *)
Inductive read_result : Type :=
| ReadFailed (err : error)
| ReadData (decoded : RPCResponse + error).

(** Transitions of [readRoutine].  [RRead]: one pass of lines 465-492.
    [RSignal]: [c.reconnectAfter <- err].  [RDeliver]: a consumer takes the
    response from [c.ResponsesCh].  [RDone]: [<-ctx.Done()]. *)
Inductive read_label : Type :=
| RRead (now : Time) (r : read_result)
| RSignal
| RDeliver
| RDone.

(** the deferred calls of [readRoutine] (lines 443-450): [c.conn.Close()],
    [c.wg.Done()] *)
Definition readRoutine_exit (s : System) : op System :=
  let c := client s in
  match conn c, wg c with
  | Some k, S n =>
      Ok (with_reader None
            (with_client (set_wg n (set_conn (Some (conn_Close k)) c)) s))
  | _, _ => Panic
  end.

(** [readRoutine(ctx)] *)
Definition readRoutine (l : read_label) (s : System) : op System :=
  let c := client s in
  match reader s, l with
  | Some R_read, RRead now r =>
      match conn c with
      | None => Panic
      | Some k =>
          let c := set_conn (Some (with_read_deadline now c k)) c in
          let s := with_client c s in
          match r with
          | ReadFailed err =>
              if negb (IsUnexpectedCloseError err [CloseNormalClosure])
              then readRoutine_exit s
              else
                match Chan.close (readRoutineQuit c) with
                | Ok ch =>
                    Ok (with_reader (Some (R_signal err))
                          (with_client (set_readRoutineQuit ch c) s))
                | Block => Block
                | Panic => Panic
                end
          | ReadData (inr _) => Ok s
          | ReadData (inl response) =>
              match validateResponseID (resp_ID response) with
              | Some _ => Ok s
              | None => Ok (with_reader (Some (R_deliver response)) s)
              end
          end
      end
  | Some (R_signal err), RSignal =>
      match Chan.send err (reconnectAfter c) with
      | Ok ch => readRoutine_exit (with_client (set_reconnectAfter ch c) s)
      | Block => Block
      | Panic => Panic
      end
  | Some (R_deliver response), RDone =>
      if ctx_Done (ctx s) then readRoutine_exit s else Block
  | Some (R_deliver response), RDeliver =>
      match ResponsesCh c with
      | Chan.Nil => Block
      | Chan.Made _ _ true => Panic
      | Chan.Made _ _ false =>
          Ok (with_reader (Some R_read)
                (with_delivered (delivered s ++ [response]) s))
      end
  | _, _ => Block
  end.

(** ** The Reconnect Coordinator *)

(** Where a transition leaves a call: still inside it, at a program point,
    or returned with a result. *)
Inductive progress (PC R : Type) : Type :=
| Inside (pc : PC)
| Returned (r : R).
Arguments Inside {PC R} pc.
Arguments Returned {PC R} r.

(** Transitions of [reconnect].  [RCCanceled]: [<-ctx.Done()].  [RCTimer]:
    [<-timer.C], then [c.dial()] with outcome [r]; [jitter] is the draw of
    the next iteration, should there be one. *)
Inductive reconnect_label : Type :=
| RCCanceled
| RCTimer (r : dial_result) (jitter : Duration).

(** [reconnect] up to its first [select] (lines 265-285): [attempt := 0],
    the flag is raised, the timer is armed with the first backoff. *)
Definition reconnect_enter (jitter : Duration) (c : WSClient)
  : WSClient * reconnect_pc :=
  (set_reconnecting true c, RC_backoff 0 (backoffDuration jitter 0)).

(** the deferred calls of [reconnect] (lines 270-277): the flag is lowered
    (and the timer stopped) *)
Definition reconnect_return (s : System) : System :=
  with_client (set_reconnecting false (client s)) s.

(** [reconnect(ctx)], from a [select] on the timer to the next one or to
    the return (lines 286-308). *)
Definition reconnect (l : reconnect_label) (pc : reconnect_pc) (s : System)
  : op (System * progress reconnect_pc (option error)) :=
  match pc, l with
  | RC_backoff attempt _, RCCanceled =>
      if ctx_Done (ctx s) then Ok (reconnect_return s, Returned None)
      else Block
  | RC_backoff attempt _, RCTimer r jitter =>
      if is_jitter jitter then
        match dial r (client s) with
        | (None, c) =>
            let s := with_client c s in
            let s := if onReconnect c
                     then with_callbacks (S (callbacks s)) s else s in
            Ok (reconnect_return s, Returned None)
        | (Some err, c) =>
            let s := with_client c s in
            let attempt := wrap_uint (attempt + 1) in
            if maxReconnectAttempts c <? attempt
            then Ok (reconnect_return s, Returned (Some (ErrMaxReconnect err)))
            else Ok (s, Inside (RC_backoff attempt
                                  (backoffDuration jitter attempt)))
        end
      else Block
  end.

(** the zero value a receive on a closed channel yields *)
Definition zero_request : RPCRequest :=
  {| req_ID := 0; req_Method := ""; req_Params := [] |}.

(** Transitions of [processBacklog].  [BSelect]: the [select] with its
    [default].  [BWrite]: the deadline and [WriteJSON], [res] its result.
    [BSignal]: [c.reconnectAfter <- err].  [BRequeue]:
    [c.backlog <- request]. *)
Inductive backlog_label : Type :=
| BSelect
| BWrite (now : Time) (res : option error)
| BSignal
| BRequeue.

(** [processBacklog()] *)
Definition processBacklog (l : backlog_label) (pc : backlog_pc) (c : WSClient)
  : op (WSClient * progress backlog_pc (option error)) :=
  match pc, l with
  | B_select, BSelect =>
      match Chan.recv (backlog c) with
      | Ok (Some request, ch) => Ok (set_backlog ch c, Inside (B_write request))
      | Ok (None, _) => Ok (c, Inside (B_write zero_request))
      | Block => Ok (c, Returned None)
      | Panic => Panic
      end
  | B_write request, BWrite now res =>
      match conn c with
      | None => Panic
      | Some k =>
          let k := with_write_deadline now c k in
          let k := conn_write (JSONFrame request) res k in
          let c := set_conn (Some k) c in
          match res with
          | Some err => Ok (c, Inside (B_signal err request))
          | None => Ok (c, Returned None)
          end
      end
  | B_signal err request, BSignal =>
      match Chan.send err (reconnectAfter c) with
      | Ok ch => Ok (set_reconnectAfter ch c, Inside (B_requeue err request))
      | Block => Block
      | Panic => Panic
      end
  | B_requeue err request, BRequeue =>
      match Chan.send request (backlog c) with
      | Ok ch => Ok (set_backlog ch c, Returned (Some err))
      | Block => Block
      | Panic => Panic
      end
  | _, _ => Block
  end.

(** Transitions of [reconnectRoutine].  [CQuit], [CFailure]: the two cases
    of the outer [select].  [CJoined]: [c.wg.Wait()] returns and
    [c.reconnect] is entered, [jitter] its first draw.  [CReconnect]: a
    transition inside [c.reconnect].  [CStopped]: the [c.wg.Wait()] of
    [c.Stop] returns.  [CDrainQuit], [CDrainOne], [CDrained]: the three cases
    of the drain loop's [select].  [CBacklog]: a transition inside
    [c.processBacklog]. *)
Inductive coord_label : Type :=
| CQuit
| CFailure
| CJoined (jitter : Duration)
| CReconnect (l : reconnect_label)
| CStopped
| CDrainQuit
| CDrainOne
| CDrained
| CBacklog (l : backlog_label).

(** [reconnectRoutine(ctx)] *)
Definition reconnectRoutine (l : coord_label) (s : System) : op System :=
  let c := client s in
  match coordinator s, l with
  | Some C_select, CQuit =>
      if ctx_Done (ctx s) then Ok (with_coordinator None s) else Block
  | Some C_select, CFailure =>
      match Chan.recv (reconnectAfter c) with
      | Ok (originalError, ch) =>
          Ok (with_coordinator (Some (C_wait originalError))
                (with_client (set_reconnectAfter ch c) s))
      | Block => Block
      | Panic => Panic
      end
  | Some (C_wait originalError), CJoined jitter =>
      match wg c with
      | O =>
          if is_jitter jitter then
            let (c, pc) := reconnect_enter jitter c in
            Ok (with_coordinator (Some (C_reconnect originalError pc))
                  (with_client c s))
          else Block
      | S _ => Block
      end
  | Some (C_reconnect originalError pc), CReconnect l =>
      match reconnect l pc s with
      | Ok (s, Inside pc) =>
          Ok (with_coordinator (Some (C_reconnect originalError pc)) s)
      | Ok (s, Returned None) => Ok (with_coordinator (Some C_drain) s)
      | Ok (s, Returned (Some _)) =>
          match Stop_enter (client s) with
          | (Some _, _) => Ok (with_coordinator None s)
          | (None, c) => Ok (with_coordinator (Some C_stop) (with_client c s))
          end
      | Block => Block
      | Panic => Panic
      end
  | Some C_stop, CStopped =>
      match Stop_finish c with
      | Ok c => Ok (with_coordinator None (with_client c s))
      | Block => Block
      | Panic => Panic
      end
  | Some C_drain, CDrainQuit =>
      if ctx_Done (ctx s) then Ok (with_coordinator None s) else Block
  | Some C_drain, CDrainOne =>
      match Chan.recv (reconnectAfter c) with
      | Ok (_, ch) => Ok (with_client (set_reconnectAfter ch c) s)
      | Block => Block
      | Panic => Panic
      end
  | Some C_drain, CDrained =>
      if ctx_Done (ctx s) || Chan.recv_ready (reconnectAfter c) then Block
      else Ok (with_coordinator (Some (C_backlog B_select)) s)
  | Some (C_backlog pc), CBacklog l =>
      match processBacklog l pc c with
      | Ok (c, Inside pc) =>
          Ok (with_coordinator (Some (C_backlog pc)) (with_client c s))
      | Ok (c, Returned None) =>
          Ok (with_coordinator (Some C_select)
                (startReadWriteRoutines (with_client c s)))
      | Ok (c, Returned (Some _)) =>
          Ok (with_coordinator (Some C_select) (with_client c s))
      | Block => Block
      | Panic => Panic
      end
  | _, _ => Block
  end.

(** ** The caller's side *)

(** The two cases of the [select] in [Send]. *)
Inductive send_case : Type :=
| SendAccepted
| SendCanceled.

(** [Send(ctx, request)] with the case its [select] takes.  [c.send] is
    unbuffered: the first case is ready when [writeRoutine] is parked at its
    own [select], and taking it hands the request over.  The second is ready
    when the caller's context [x] is done.  The result is the error
    returned. *)
Definition Send (x : Context) (request : RPCRequest) (pick : send_case)
    (s : System) : op (option error * System) :=
  match pick with
  | SendAccepted =>
      match send (client s), writer s with
      | Chan.Made _ _ true, _ => Panic
      | Chan.Made _ _ false, Some W_select =>
          Ok (None, with_writer (Some (W_request request)) s)
      | _, _ => Block
      end
  | SendCanceled =>
      if ctx_Done x then Ok (ctx_Err x, s) else Block
  end.

(** [Call] up to its [Send] (line 221): the identifier is drawn first, then
    the request is built. *)
Definition Call_request (method : string) (params : Params) (c : WSClient)
  : (RPCRequest + error) * WSClient :=
  let (id, c) := nextRequestID c in
  (MapToRequest id method params, c).

(** [Call(ctx, method, params)] *)
Definition Call (x : Context) (method : string) (params : Params)
    (pick : send_case) (s : System) : op (option error * System) :=
  let (built, c) := Call_request method params (client s) in
  match built with
  | inr err => Ok (Some err, with_client c s)
  | inl request => Send x request pick (with_client c s)
  end.

(** [Subscribe(ctx, query)] *)
Definition Subscribe (x : Context) (query : string) :=
  Call x "subscribe" [("query"%string, JString query)].

(** [Unsubscribe(ctx, query)] *)
Definition Unsubscribe (x : Context) (query : string) :=
  Call x "unsubscribe" [("query"%string, JString query)].

(** [UnsubscribeAll(ctx)] *)
Definition UnsubscribeAll (x : Context) :=
  Call x "unsubscribe_all" [].

(** ** The whole system *)

(** One transition of some goroutine, of a caller, or of the environment.
    A caller inside [Call] takes two: [LRequest], the first line of [Call]
    (a parked [Call] has already drawn its identifier), and [LSend], the
    [select] of [Send].  A caller of [Stop] takes two as well: [LStop], up
    to [c.wg.Wait()], and [LStopped], from there on.  [LCancel]: the context
    given to [Start] is cancelled or expires. *)
Inductive label : Type :=
| LWriter (l : write_label)
| LReader (l : read_label)
| LCoordinator (l : coord_label)
| LRequest (method : string) (params : Params)
| LSend (x : Context) (request : RPCRequest) (pick : send_case)
| LStop
| LStopped
| LCancel (how : Context).

Definition step (l : label) (s : System) : op System :=
  match l with
  | LWriter l => writeRoutine l s
  | LReader l => readRoutine l s
  | LCoordinator l => reconnectRoutine l s
  | LRequest method params =>
      Ok (with_client (snd (Call_request method params (client s))) s)
  | LSend x request pick =>
      match Send x request pick s with
      | Ok (_, s) => Ok s
      | Block => Block
      | Panic => Panic
      end
  | LStop =>
      match Stop_enter (client s) with
      | (Some _, _) => Ok s
      | (None, c) => Ok (with_stopping (S (stopping s)) (with_client c s))
      end
  | LStopped =>
      match stopping s with
      | O => Block
      | S n =>
          match Stop_finish (client s) with
          | Ok c => Ok (with_stopping n (with_client c s))
          | Block => Block
          | Panic => Panic
          end
      end
  | LCancel how =>
      if ctx_Done how && negb (ctx_Done (ctx s)) then Ok (with_ctx how s)
      else Block
  end.

(** A schedule: transitions taken one after the other. *)
Fixpoint run (ls : list label) (s : System) : op System :=
  match ls with
  | [] => Ok s
  | l :: ls =>
      match step l s with
      | Ok s => run ls s
      | Block => Block
      | Panic => Panic
      end
  end.

(** A client as its constructor leaves it, with or without a reconnect
    callback installed. *)
Inductive constructed : WSClient -> Prop :=
| constructed_new parsed dialFn endpoint opts c :
    NewWSWithOptions parsed dialFn endpoint opts = inl c ->
    constructed c
| constructed_callback c :
    constructed c -> constructed (OnReconnect c).

(** The states a started client can be in. *)
Inductive reachable : System -> Prop :=
| reachable_Start c x r s :
    constructed c ->
    Start x r (idle c) = (None, s) ->
    reachable s
| reachable_step s l s' :
    reachable s ->
    step l s = Ok s' ->
    reachable s'.

(** ** Identifier allocation over time *)

(** the client after [k] calls of [nextRequestID] *)
Definition after_calls (k : N) (c : WSClient) : WSClient :=
  N.iter k (fun c => snd (nextRequestID c)) c.

(** the identifier call number [k] returns, counting from 0 *)
Definition nth_id (k : N) (c : WSClient) : Z :=
  fst (nextRequestID (after_calls k c)).

(** the identifiers of [n] calls in a row, and the client after them *)
Fixpoint allocate (n : nat) (c : WSClient) : list Z * WSClient :=
  match n with
  | O => ([], c)
  | S n =>
      let (id, c) := nextRequestID c in
      let (ids, c) := allocate n c in
      (id :: ids, c)
  end.

(** ** Consecutive dial failures *)

(** [reconnect] driven through the dial failures [fails] (each with the
    jitter drawn for the iteration after it), from program point [pc]. *)
Fixpoint redial (fails : list (error * Duration)) (pc : reconnect_pc)
    (s : System) : op (System * progress reconnect_pc (option error)) :=
  match fails with
  | [] => Ok (s, Inside pc)
  | (err, jitter) :: fails =>
      match reconnect (RCTimer (DialFailed err) jitter) pc s with
      | Ok (s, Inside pc) => redial fails pc s
      | Ok (s, Returned r) =>
          match fails with
          | [] => Ok (s, Returned r)
          | _ :: _ => Block
          end
      | Block => Block
      | Panic => Panic
      end
  end.

(** the same failures as transitions of the coordinator *)
Definition dial_failures (fails : list (error * Duration)) : list label :=
  map (fun f => LCoordinator (CReconnect (RCTimer (DialFailed (fst f)) (snd f))))
      fails.

(** [processBacklog] driven through the transitions [ls]. *)
Fixpoint processBacklog_run (ls : list backlog_label) (pc : backlog_pc)
    (c : WSClient) : op (WSClient * progress backlog_pc (option error)) :=
  match ls with
  | [] => Ok (c, Inside pc)
  | l :: ls =>
      match processBacklog l pc c with
      | Ok (c, Inside pc) => processBacklog_run ls pc c
      | Ok (c, Returned r) =>
          match ls with
          | [] => Ok (c, Returned r)
          | _ :: _ => Block
          end
      | Block => Block
      | Panic => Panic
      end
  end.

(** The schedule [ls] run until a Write Worker exists: the state in which
    the worker pair has just been started, if the schedule gets there. *)
Fixpoint first_start (ls : list label) (s : System) : op (option System) :=
  match writer s with
  | Some _ => Ok (Some s)
  | None =>
      match ls with
      | [] => Ok None
      | l :: ls =>
          match step l s with
          | Ok s => first_start ls s
          | Block => Block
          | Panic => Panic
          end
      end
  end.

(** Two calls of [UnsubscribeAll] in a row, each accepted by the Write
    Worker, which writes the request without error before the next call. *)
Definition UnsubscribeAll_twice (x1 x2 : Context) (now1 now2 : Time)
    (s : System) : op System :=
  match UnsubscribeAll x1 SendAccepted s with
  | Ok (_, s) =>
      match writeRoutine (WWrite now1 None) s with
      | Ok s =>
          match UnsubscribeAll x2 SendAccepted s with
          | Ok (_, s) => writeRoutine (WWrite now2 None) s
          | Block => Block
          | Panic => Panic
          end
      | Block => Block
      | Panic => Panic
      end
  | Block => Block
  | Panic => Panic
  end.

(** ** Example values *)

Definition example_url : parsedURL :=
  {| Scheme := "tcp"; TrimmedHostWithPath := "127.0.0.1:26657" |}.

(** the client [NewWS("tcp://127.0.0.1:26657", "/websocket")] builds *)
Definition example_client : WSClient :=
  {| isRunning := false; conn := None; Address := "127.0.0.1:26657";
     Endpoint := "/websocket"; ResponsesCh := Chan.Nil;
     onReconnect := false; send := Chan.Nil; backlog := Chan.Nil;
     reconnectAfter := Chan.Nil; readRoutineQuit := Chan.Nil;
     maxReconnectAttempts := 10; protocol := "ws"; wg := 0%nat;
     sentLastPingAt := 0; reconnecting := false; nextReqID := 0;
     writeWait := 10 * Second; readWait := 0; pingPeriod := 0;
     skipMetrics := false |}.

(** the default options with 40 reconnect attempts *)
Definition patient_options : WSOptions :=
  {| MaxReconnectAttempts := 40; ReadWait := 0; WriteWait := 10 * Second;
     PingPeriod := 0; SkipMetrics := false |}.

(** the client [NewWSWithOptions] builds from them *)
Definition patient_client : WSClient :=
  {| isRunning := false; conn := None; Address := "127.0.0.1:26657";
     Endpoint := "/websocket"; ResponsesCh := Chan.Nil;
     onReconnect := false; send := Chan.Nil; backlog := Chan.Nil;
     reconnectAfter := Chan.Nil; readRoutineQuit := Chan.Nil;
     maxReconnectAttempts := 40; protocol := "ws"; wg := 0%nat;
     sentLastPingAt := 0; reconnecting := false; nextReqID := 0;
     writeWait := 10 * Second; readWait := 0; pingPeriod := 0;
     skipMetrics := false |}.

(** that client, started on connection 1 *)
Definition patient_started : System :=
  snd (Start CtxLive (Dialed 1) (idle patient_client)).

(** options with a keepalive: a ping every 50ms, two reconnect attempts *)
Definition pinging_options : WSOptions :=
  {| MaxReconnectAttempts := 2; ReadWait := 0; WriteWait := 10 * Second;
     PingPeriod := 50000000; SkipMetrics := false |}.

Definition pinging_client : WSClient :=
  {| isRunning := false; conn := None; Address := "127.0.0.1:26657";
     Endpoint := "/websocket"; ResponsesCh := Chan.Nil;
     onReconnect := false; send := Chan.Nil; backlog := Chan.Nil;
     reconnectAfter := Chan.Nil; readRoutineQuit := Chan.Nil;
     maxReconnectAttempts := 2; protocol := "ws"; wg := 0%nat;
     sentLastPingAt := 0; reconnecting := false; nextReqID := 0;
     writeWait := 10 * Second; readWait := 0; pingPeriod := 50000000;
     skipMetrics := false |}.

Definition pinging_started : System :=
  snd (Start CtxLive (Dialed 1) (idle pinging_client)).

(** the default options with as many reconnect attempts as a [uint]
    holds *)
Definition tireless_options : WSOptions :=
  {| MaxReconnectAttempts := max_uint; ReadWait := 0;
     WriteWait := 10 * Second; PingPeriod := 0; SkipMetrics := false |}.

Definition tireless_client : WSClient :=
  {| isRunning := false; conn := None; Address := "127.0.0.1:26657";
     Endpoint := "/websocket"; ResponsesCh := Chan.Nil;
     onReconnect := false; send := Chan.Nil; backlog := Chan.Nil;
     reconnectAfter := Chan.Nil; readRoutineQuit := Chan.Nil;
     maxReconnectAttempts := max_uint; protocol := "ws"; wg := 0%nat;
     sentLastPingAt := 0; reconnecting := false; nextReqID := 0;
     writeWait := 10 * Second; readWait := 0; pingPeriod := 0;
     skipMetrics := false |}.

Definition tireless_started : System :=
  snd (Start CtxLive (Dialed 1) (idle tireless_client)).

(** that client started on connection 1 *)
Definition example_started : System :=
  snd (Start CtxLive (Dialed 1) (idle example_client)).

(** An outage seen by the Read Worker: the read fails with an abnormal
    closure, the worker closes the latch, signals and returns; the Write
    Worker sees the latch and returns; the coordinator takes the signal,
    joins the workers and enters [reconnect] with jitter 0. *)
Definition outage : list label :=
  [LReader (RRead 0 (ReadFailed (CloseError CloseAbnormalClosure "unexpected EOF")));
   LReader RSignal;
   LWriter WQuit;
   LCoordinator CFailure;
   LCoordinator (CJoined 0)].

Definition refused : error := IOError "connection refused".

Definition broken_pipe : error := IOError "broken pipe".

Definition example_request : RPCRequest :=
  {| req_ID := 5; req_Method := "subscribe";
     req_Params := [("query"%string, JString "tm.event='NewBlock'")] |}.

(** A request is accepted by the Write Worker, its write fails, the
    worker signals, puts the request in the backlog and returns, closing the
    connection; the Read Worker's read then fails on the closed connection
    and it returns without a signal. *)
Definition failed_send : list label :=
  [LSend CtxLive example_request SendAccepted;
   LWriter (WWrite 100 (Some broken_pipe));
   LWriter WSignal;
   LWriter WBacklog;
   LReader (RRead 101 (ReadFailed (IOError "use of closed network connection")))].

(** The coordinator takes the signal, joins the workers, redials with
    success at the first attempt (connection 2) and finds the failure
    channel empty. *)
Definition reconnected : list label :=
  [LCoordinator CFailure;
   LCoordinator (CJoined 0);
   LCoordinator (CReconnect (RCTimer (Dialed 2) 0));
   LCoordinator CDrained].

(** ... and the retransmission of the backlog entry fails as well. *)
Definition failed_resend : list label :=
  [LCoordinator (CBacklog BSelect);
   LCoordinator (CBacklog (BWrite 200 (Some broken_pipe)));
   LCoordinator (CBacklog BSignal);
   LCoordinator (CBacklog BRequeue)].

(** the state a schedule leads to (the state itself where the schedule
    cannot be run) *)
Definition after (ls : list label) (s : System) : System :=
  match run ls s with
  | Ok s' => s'
  | _ => s
  end.

(** A client that has given up: stopped, not reconnecting, without workers,
    its coordinator returned or inside [Stop]. *)
Definition given_up (s : System) : Prop :=
  isRunning (client s) = false /\
  reconnecting (client s) = false /\
  writer s = None /\ reader s = None /\
  (coordinator s = Some C_stop \/ coordinator s = None).

(** nothing has been written on the client's connection *)
Definition unwritten (c : WSClient) : Prop :=
  exists k, conn c = Some k /\ written k = [].

(** A backlog entry awaits its retransmission: no worker runs, and the
    entry is in the backlog or in the hands of [processBacklog]; where the
    coordinator is past a successful dial, nothing has been written on the
    new connection (at the drain loop it may also have left [reconnect]
    through a done context). *)
Definition awaiting_resend (request : RPCRequest) (s : System) : Prop :=
  writer s = None /\ reader s = None /\
  match coordinator s with
  | None => True
  | Some C_drain =>
      Chan.buffered (backlog (client s)) = [request] /\
      (ctx_Done (ctx s) = true \/ unwritten (client s))
  | Some (C_backlog B_select) =>
      Chan.buffered (backlog (client s)) = [request] /\
      unwritten (client s)
  | Some (C_backlog (B_write r)) => r = request /\ unwritten (client s)
  | Some (C_backlog (B_signal _ r)) => r = request
  | Some (C_backlog (B_requeue _ r)) => r = request
  | Some _ => Chan.buffered (backlog (client s)) = [request]
  end.

(** The worker pair has just been started on a connection whose only frame
    is the backlog entry, and the backlog is empty. *)
Definition restarted_with (request : RPCRequest) (s : System) : Prop :=
  writer s = Some W_select /\ reader s = Some R_read /\
  Chan.buffered (backlog (client s)) = [] /\
  exists k, conn (client s) = Some k /\ frames k = [JSONFrame request].

(** ** Invariants of a started client *)

Definition live {PC} (g : option PC) : nat :=
  match g with Some _ => 1%nat | None => 0%nat end.

(** whether the coordinator is between its [c.wg.Wait()] and the restart of
    the workers *)
Definition recovering (g : option coord_pc) : bool :=
  match g with
  | Some (C_reconnect _ _) | Some C_stop | Some C_drain | Some (C_backlog _) =>
      true
  | _ => false
  end.

(** whether the Read Worker is at a point from which it may still close
    the latch *)
Definition reading (g : option read_pc) : bool :=
  match g with
  | Some R_read | Some (R_deliver _) => true
  | _ => false
  end.

(** what the channels hold while the coordinator is inside
    [processBacklog]: the failure channel was found empty by the drain loop,
    the backlog was emptied by the [select] *)
Definition resending (g : option coord_pc) (c : WSClient) : Prop :=
  match g with
  | Some (C_backlog B_select) => Chan.buffered (reconnectAfter c) = []
  | Some (C_backlog (B_write _)) | Some (C_backlog (B_signal _ _)) =>
      Chan.buffered (reconnectAfter c) = [] /\ Chan.buffered (backlog c) = []
  | Some (C_backlog (B_requeue _ _)) => Chan.buffered (backlog c) = []
  | _ => True
  end.

(** how many calls of [Stop] are between [RunState.Stop] and
    [close(c.ResponsesCh)]: the callers parked there, and the coordinator
    when it is *)
Definition stoppers (s : System) : nat :=
  (stopping s
   + match coordinator s with Some C_stop => 1 | _ => 0 end)%nat.

(** What holds in every state of a started client: the wait group counts
    the live workers; backlog and failure channel have capacity one and
    never hold more; a connection is present; the intake and latch channels
    are unbuffered; no worker lives while the coordinator recovers; the
    counter is an [int]; the latch is open while the Read Worker reads;
    [resending]; at most one call of [Stop] is past [RunState.Stop], none
    while the client is running; the response channel is open while the
    client is running or such a call is under way. *)
Record invariant (s : System) : Prop := {
  inv_wg : wg (client s) = (live (writer s) + live (reader s))%nat;
  inv_backlog :
    exists buf, backlog (client s) = Chan.Made 1 buf false /\
                (length buf <= 1)%nat;
  inv_reconnectAfter :
    exists buf, reconnectAfter (client s) = Chan.Made 1 buf false /\
                (length buf <= 1)%nat;
  inv_conn : exists k, conn (client s) = Some k;
  inv_send : send (client s) = Chan.Made 0 [] false;
  inv_quit : exists cl, readRoutineQuit (client s) = Chan.Made 0 [] cl;
  inv_responses : exists cl, ResponsesCh (client s) = Chan.Made 0 [] cl;
  inv_recovering :
    recovering (coordinator s) = true ->
    writer s = None /\ reader s = None;
  inv_counter : in_int (nextReqID (client s));
  inv_latch :
    reading (reader s) = true ->
    readRoutineQuit (client s) = Chan.Made 0 [] false;
  inv_resend : resending (coordinator s) (client s);
  inv_stoppers :
    if isRunning (client s) then stoppers s = 0%nat
    else (stoppers s <= 1)%nat;
  inv_open :
    isRunning (client s) = true \/ stoppers s = 1%nat ->
    Chan.is_closed (ResponsesCh (client s)) = false;
}.

(** [example_client] once its counter has reached the largest [int] *)
Definition exhausted_client : WSClient := set_nextReqID max_int example_client.

(** ** What the client is configured with *)

(** [String()]: [fmt.Sprintf("WSClient{%s (%s)}", c.Address, c.Endpoint)] *)
Definition WSClient_String (c : WSClient) : string :=
  String.append "WSClient{"
    (String.append (Address c)
       (String.append " (" (String.append (Endpoint c) ")}"))).

(** the address [dial()] hands to [dialer.Dial] (line 254):
    [c.protocol+"://"+c.Address+c.Endpoint] *)
Definition dial_url (c : WSClient) : string :=
  String.append (protocol c)
    (String.append "://" (String.append (Address c) (Endpoint c))).

(** the fields the constructor and [OnReconnect] set *)
Record Configuration : Type := {
  cfg_Address : string;
  cfg_Endpoint : string;
  cfg_protocol : string;
  cfg_maxReconnectAttempts : Z;
  cfg_writeWait : Duration;
  cfg_readWait : Duration;
  cfg_pingPeriod : Duration;
  cfg_onReconnect : bool;
  cfg_skipMetrics : bool;
}.

Definition configuration (c : WSClient) : Configuration :=
  {| cfg_Address := Address c; cfg_Endpoint := Endpoint c;
     cfg_protocol := protocol c;
     cfg_maxReconnectAttempts := maxReconnectAttempts c;
     cfg_writeWait := writeWait c; cfg_readWait := readWait c;
     cfg_pingPeriod := pingPeriod c; cfg_onReconnect := onReconnect c;
     cfg_skipMetrics := skipMetrics c |}.

(** ** What a connection has seen *)

(** the deadline a frame was written under, against the configuration:
    without a [writeWait] no deadline is ever set; with one, every request
    and every ping is written under a deadline (the close frame of line 429
    is written without setting one) *)
Definition deadline_ok (c : WSClient) (fd : frame * option Time) : Prop :=
  if 0 <? writeWait c then
    match fst fd with
    | CloseFrame _ => True
    | _ => snd fd <> None
    end
  else snd fd = None.

(** the time a transition reads for the write deadline of the frame it
    writes ([time.Now()] at lines 322, 400, 413) *)
Definition write_clock (l : label) : option Time :=
  match l with
  | LWriter (WTick now _ _) | LWriter (WWrite now _)
  | LCoordinator (CBacklog (BWrite now _)) => Some now
  | _ => None
  end.

(** what a frame added by the transition [l] was written under: a close
    frame comes from the shutdown of the Write Worker alone; a request or a
    ping carries the deadline set from the time the transition read *)
Definition stamped (l : label) (c : WSClient) (k : Conn)
    (fd : frame * option Time) : Prop :=
  match fst fd with
  | CloseFrame _ => l = LWriter (WDone None)
  | _ => exists now,
           write_clock l = Some now /\
           snd fd = writeDeadline (with_write_deadline now c k)
  end.

(** what the frames and deadlines of a connection owe to the
    configuration *)
Record wire_ok (c : WSClient) (k : Conn) : Prop := {
  wire_ping : (0 <? pingPeriod c) = false -> ~ In PingFrame (frames k);
  wire_close :
    forall code, In (CloseFrame code) (frames k) -> code = CloseNormalClosure;
  wire_deadlines : Forall (deadline_ok c) (written k);
  wire_write : (0 <? writeWait c) = false -> writeDeadline k = None;
  wire_read : (0 <? readWait c) = false -> readDeadline k = None;
}.

(** ** The bookkeeping of the goroutines *)

(** whether the Write Worker may still send a failure signal (it has not
    when it is at [c.backlog <- request], or gone) *)
Definition may_signal (g : option write_pc) : nat :=
  match g with
  | Some W_select | Some (W_request _) | Some (W_signal _ _) => 1%nat
  | _ => 0%nat
  end.

(** the failure signals buffered, and those the live workers may still
    send (each worker sends at most one before it returns) *)
Definition signals (s : System) : nat :=
  (length (Chan.buffered (reconnectAfter (client s)))
   + may_signal (writer s) + live (reader s))%nat.

(** whether the coordinator is inside [reconnect] *)
Definition redialing (g : option coord_pc) : bool :=
  match g with
  | Some (C_reconnect _ _) => true
  | _ => false
  end.

(** a response that passed [validateResponseID] *)
Definition valid_response (r : RPCResponse) : Prop :=
  validateResponseID (resp_ID r) = None.

(** What else holds in every state of a started client: the protocol is
    one of the two; no callback is launched unless one was set; the
    [reconnecting] flag is up exactly while the coordinator is inside
    [reconnect]; the backlog is empty while a Write Worker lives; the
    signals buffered and still to come are at most two while the
    coordinator is at its [select], at most one once it has taken one; the
    responses forwarded or about to be are valid; the connection carries
    only what the configuration allows. *)
Record bookkeeping (s : System) : Prop := {
  bk_protocol :
    protocol (client s) = protoWS \/ protocol (client s) = protoWSS;
  bk_callbacks : onReconnect (client s) = false -> callbacks s = 0%nat;
  bk_flag : reconnecting (client s) = redialing (coordinator s);
  bk_backlog :
    writer s <> None -> Chan.buffered (backlog (client s)) = [];
  bk_signals :
    match coordinator s with
    | Some C_select => (signals s <= 2)%nat
    | Some (C_wait _) => (signals s <= 1)%nat
    | _ => True
    end;
  bk_deliver :
    forall r, reader s = Some (R_deliver r) -> valid_response r;
  bk_delivered : Forall valid_response (delivered s);
  bk_wire : forall k, conn (client s) = Some k -> wire_ok (client s) k;
}.

(** ** What a transition does *)

(** when [ResponsesCh] changes: only by the [close] of [Stop], with the
    wait group at zero *)
Definition closes_ResponsesCh (c c' : WSClient) : Prop :=
  wg c = 0%nat /\ isRunning c' = isRunning c /\
  Chan.close (ResponsesCh c) = Ok (ResponsesCh c').

(** the callbacks launched by a transition of the coordinator *)
Definition launched (l : coord_label) (s : System) : nat :=
  match l with
  | CReconnect (RCTimer (Dialed _) _) =>
      if onReconnect (client s) then 1%nat else 0%nat
  | _ => 0%nat
  end.

(** the callbacks launched by a transition *)
Definition launches (l : label) (s : System) : nat :=
  match l with
  | LCoordinator l => launched l s
  | _ => 0%nat
  end.

(** the successful dials of [reconnect] in a schedule *)
Fixpoint redials (ls : list label) : nat :=
  match ls with
  | [] => 0%nat
  | LCoordinator (CReconnect (RCTimer (Dialed _) _)) :: ls => S (redials ls)
  | _ :: ls => redials ls
  end.

(** what a transition forwards to the consumer of [ResponsesCh] *)
Definition forwards (l : label) (s : System) : list RPCResponse :=
  match l, reader s with
  | LReader RDeliver, Some (R_deliver response) => [response]
  | _, _ => []
  end.

(** ** Requests from [Send] to the wire *)

(** the request [Subscribe] and [Unsubscribe] build *)
Definition query_request (id : Z) (method query : string) : RPCRequest :=
  {| req_ID := id; req_Method := method;
     req_Params := [("query"%string, JString query)] |}.

(** what a call with a query leaves behind: handed over, or cancelled *)
Definition query_outcome (method query : string) (x : Context)
    (s : System) (e : option error) (s' : System) : Prop :=
  match e with
  | None =>
      writer s'
      = Some (W_request (query_request (nextReqID (client s)) method query))
  | Some err =>
      ctx_Done x = true /\ ctx_Err x = Some err /\ writer s' = writer s
  end.

(** the request a goroutine holds: taken from [c.send] or from the backlog
    and not yet written or put back *)
Definition writer_holds (g : option write_pc) : list RPCRequest :=
  match g with
  | Some (W_request r) | Some (W_signal _ (Some r)) | Some (W_backlog r) => [r]
  | _ => []
  end.

Definition coordinator_holds (g : option coord_pc) : list RPCRequest :=
  match g with
  | Some (C_backlog (B_write r)) | Some (C_backlog (B_signal _ r))
  | Some (C_backlog (B_requeue _ r)) => [r]
  | _ => []
  end.

(** the requests accepted and not yet written: in the hands of the Write
    Worker, in the backlog, in the hands of [processBacklog] *)
Definition in_hand (s : System) : list RPCRequest :=
  writer_holds (writer s) ++ Chan.buffered (backlog (client s))
  ++ coordinator_holds (coordinator s).

(** the request a transition accepts from a caller *)
Definition accepts (l : label) (s : System) : list RPCRequest :=
  match l with
  | LSend _ request SendAccepted => [request]
  | _ => []
  end.

(** the request a transition writes: a [WriteJSON] that returns nil, in
    [writeRoutine] or in [processBacklog] *)
Definition writes (l : label) (s : System) : list RPCRequest :=
  match l with
  | LWriter (WWrite _ None) => writer_holds (writer s)
  | LCoordinator (CBacklog (BWrite _ None)) =>
      coordinator_holds (coordinator s)
  | _ => []
  end.

(** what the transitions of a schedule contribute, one after the other *)
Fixpoint along (f : label -> System -> list RPCRequest) (ls : list label)
    (s : System) : list RPCRequest :=
  match ls with
  | [] => []
  | l :: ls =>
      match step l s with
      | Ok s' => f l s ++ along f ls s'
      | _ => []
      end
  end.

(** the requests among the frames of a connection *)
Fixpoint requests_of (fs : list frame) : list RPCRequest :=
  match fs with
  | [] => []
  | JSONFrame r :: fs => r :: requests_of fs
  | _ :: fs => requests_of fs
  end.

(** ** Further example values *)

(** a response with an integer identifier *)
Definition example_response : RPCResponse :=
  {| resp_ID := IntID 5; resp_Result := "{}" |}.

(** The Read Worker's read fails with an abnormal closure and both workers
    return; a caller stops the client, which closes [ResponsesCh]; the
    coordinator, which nothing has told to stop, redials, finds the backlog
    empty and starts a new worker pair; the new Read Worker reads a
    response and is about to forward it. *)
Definition stopped_then_reconnected : list label :=
  [LReader (RRead 0 (ReadFailed (CloseError CloseAbnormalClosure "unexpected EOF")));
   LReader RSignal;
   LWriter WQuit;
   LStop;
   LStopped;
   LCoordinator CFailure;
   LCoordinator (CJoined 0);
   LCoordinator (CReconnect (RCTimer (Dialed 2) 0));
   LCoordinator CDrained;
   LCoordinator (CBacklog BSelect);
   LReader (RRead 300 (ReadData (inl example_response)))].

(** Both workers fail: the Read Worker's read fails with an abnormal
    closure and it sends its signal; the Write Worker, still parked at its
    [select], takes a request, fails to write it and arrives at its own
    signal while the channel is full. *)
Definition both_fail : list label :=
  [LReader (RRead 0 (ReadFailed (CloseError CloseAbnormalClosure "unexpected EOF")));
   LReader RSignal;
   LSend CtxLive example_request SendAccepted;
   LWriter (WWrite 100 (Some broken_pipe))].

(** the context is cancelled while the coordinator waits for its timer *)
Definition canceled_in_backoff : list label := outage ++ [LCancel CtxCanceled].

(** a response is read and forwarded *)
Definition one_response : list label :=
  [LReader (RRead 0 (ReadData (inl example_response))); LReader RDeliver].

(** a request is accepted and written *)
Definition one_request : list label :=
  [LSend CtxLive example_request SendAccepted; LWriter (WWrite 100 None)].

(** a request is accepted, its write fails, the client reconnects and
    [processBacklog] writes the request on the new connection *)
Definition resent : list label :=
  failed_send ++ reconnected
  ++ [LCoordinator (CBacklog BSelect);
      LCoordinator (CBacklog (BWrite 200 None))].


(** The context is cancelled and the coordinator returns; then a ping of
    the Write Worker fails and it sends its signal, which nobody will
    take. *)
Definition coordinator_gone_ping_failed : list label :=
  [LCancel CtxCanceled;
   LCoordinator CQuit;
   LWriter (WTick 100 (Some broken_pipe) 101);
   LWriter WSignal].

(** * Properties *)

(** ** Machine integers *)

Lemma wrap_int_id z : in_int z -> wrap_int z = z.
Proof.
  unfold in_int, min_int, max_int, wrap_int; intros H.
  rewrite Z.mod_small; lia.
Qed.

Lemma wrap_int_range z : in_int (wrap_int z).
Proof.
  unfold in_int, min_int, max_int, wrap_int.
  pose proof (Z.mod_pos_bound (z + 2 ^ 63) (2 ^ 64) ltac:(lia)); lia.
Qed.

Lemma wrap_int_add_l x y : wrap_int (wrap_int x + y) = wrap_int (x + y).
Proof.
  unfold wrap_int. f_equal.
  replace ((x + 2 ^ 63) mod 2 ^ 64 - 2 ^ 63 + y + 2 ^ 63)
    with ((x + 2 ^ 63) mod 2 ^ 64 + y) by lia.
  rewrite Zplus_mod_idemp_l. f_equal; lia.
Qed.

Lemma wrap_int_succ x : x < max_int -> in_int x -> wrap_int (x + 1) = x + 1.
Proof.
  unfold in_int, min_int, max_int; intros Hlt Hin.
  apply wrap_int_id; unfold in_int, min_int, max_int; lia.
Qed.

Lemma wrap_int_succ_neq x : wrap_int (x + 1) <> x.
Proof.
  intros E.
  assert (Hin : in_int x) by (rewrite <- E; apply wrap_int_range).
  destruct (Z.eq_dec x max_int) as [->|Hne].
  - vm_compute in E; discriminate.
  - rewrite wrap_int_succ in E; trivial; unfold in_int, max_int in *; lia.
Qed.

(** two numbers less than 2^64 apart wrap to different values *)
Lemma wrap_int_apart x d : 0 < d < 2 ^ 64 -> wrap_int (x + d) <> wrap_int x.
Proof.
  unfold wrap_int; intros Hd E.
  assert (E' : (x + d + 2 ^ 63) mod 2 ^ 64 = (x + 2 ^ 63) mod 2 ^ 64) by lia.
  clear E.
  pose proof (Z.div_mod (x + d + 2 ^ 63) (2 ^ 64) ltac:(lia)) as H1.
  pose proof (Z.div_mod (x + 2 ^ 63) (2 ^ 64) ltac:(lia)) as H2.
  rewrite E' in H1.
  assert (d = 2 ^ 64 * ((x + d + 2 ^ 63) / 2 ^ 64 - (x + 2 ^ 63) / 2 ^ 64))
    by lia.
  nia.
Qed.

Lemma wrap_uint_id z : in_uint z -> wrap_uint z = z.
Proof.
  unfold in_uint, max_uint, wrap_uint; intros H.
  rewrite Z.mod_small; lia.
Qed.

Lemma wrap_uint_range z : in_uint (wrap_uint z).
Proof.
  unfold in_uint, max_uint, wrap_uint.
  pose proof (Z.mod_pos_bound z (2 ^ 64) ltac:(lia)); lia.
Qed.

(** ** Channels *)

Lemma send_room {A} (v : A) n buf :
  (length buf < n)%nat ->
  Chan.send v (Chan.Made n buf false) = Ok (Chan.Made n (buf ++ [v]) false).
Proof.
  intros H; simpl. destruct (Nat.ltb_spec (length buf) n); trivial; lia.
Qed.

Lemma send_Ok {A} (v : A) ch ch' :
  Chan.send v ch = Ok ch' ->
  exists n buf,
    ch = Chan.Made n buf false /\ ch' = Chan.Made n (buf ++ [v]) false /\
    (length buf < n)%nat.
Proof.
  destruct ch as [|n buf [|]]; simpl; try discriminate.
  destruct (Nat.ltb_spec (length buf) n); try discriminate.
  intros [= <-]; eauto.
Qed.

Lemma recv_Ok {A} (ch : chan A) r ch' :
  Chan.recv ch = Ok (r, ch') ->
  exists n buf cl,
    ch = Chan.Made n buf cl /\
    ((exists v, buf = v :: Chan.buffered ch' /\ r = Some v /\
                ch' = Chan.Made n (Chan.buffered ch') cl) \/
     (buf = [] /\ cl = true /\ r = None /\ ch' = ch)).
Proof.
  destruct ch as [|n [|v buf] [|]]; simpl; try discriminate;
    intros [= <- <-]; do 3 eexists; split; eauto.
Qed.

(** ** Identifier allocation *)

Lemma nextRequestID_id c : fst (nextRequestID c) = nextReqID c.
Proof. reflexivity. Qed.

Lemma nextRequestID_counter c :
  nextReqID (snd (nextRequestID c)) = wrap_int (nextReqID c + 1).
Proof. reflexivity. Qed.

Lemma after_calls_succ k c :
  after_calls (N.succ k) c = snd (nextRequestID (after_calls k c)).
Proof. unfold after_calls. now rewrite N.iter_succ. Qed.

Lemma after_calls_counter k c :
  in_int (nextReqID c) ->
  nextReqID (after_calls k c) = wrap_int (nextReqID c + Z.of_N k).
Proof.
  intros Hin. induction k as [|k IH] using N.peano_ind.
  - unfold after_calls; simpl. rewrite Z.add_0_r. now rewrite wrap_int_id.
  - rewrite after_calls_succ, nextRequestID_counter, IH, wrap_int_add_l.
    f_equal; lia.
Qed.

Lemma nth_id_wrap k c :
  in_int (nextReqID c) -> nth_id k c = wrap_int (nextReqID c + Z.of_N k).
Proof.
  intros Hin. unfold nth_id.
  now rewrite nextRequestID_id, after_calls_counter.
Qed.

Lemma constructed_counter c : constructed c -> nextReqID c = 0.
Proof.
  induction 1 as [parsed dialFn endpoint opts c H|c _ IH]; trivial.
  unfold NewWSWithOptions in H.
  destruct parsed; try discriminate.
  destruct dialFn; try discriminate.
  now injection H as <-.
Qed.

Lemma example_client_new :
  NewWS (inl example_url) None "/websocket" = inl example_client.
Proof. reflexivity. Qed.

Lemma example_client_constructed : constructed example_client.
Proof. eapply constructed_new. exact example_client_new. Qed.

Lemma allocate_ids n : forall c,
  in_int (nextReqID c) ->
  nextReqID c + Z.of_nat n <= max_int + 1 ->
  fst (allocate n c) = map (fun i => nextReqID c + Z.of_nat i) (seq 0 n).
Proof.
  induction n as [|n IH]; intros c Hin Hle; trivial.
  cbn [allocate].
  destruct (nextRequestID c) as [id c1] eqn:E.
  assert (Hid : id = nextReqID c) by (now rewrite <- nextRequestID_id, E).
  destruct n as [|n].
  { cbn. now rewrite Hid, Z.add_0_r. }
  assert (Hc1 : nextReqID c1 = nextReqID c + 1).
  { replace c1 with (snd (nextRequestID c)) by (now rewrite E).
    rewrite nextRequestID_counter. apply wrap_int_succ; trivial.
    rewrite !Nat2Z.inj_succ in Hle. unfold max_int in *; lia. }
  specialize (IH c1).
  remember (S n) as m eqn:Hm.
  destruct (allocate m c1) as [ids c2]. cbn [fst] in *.
  rewrite IH.
  - cbn [seq map]. rewrite Hid, Z.add_0_r. f_equal.
    rewrite <- seq_shift, map_map.
    apply map_ext; intros i. rewrite Hc1; lia.
  - rewrite Hc1. subst m. rewrite !Nat2Z.inj_succ in Hle.
    unfold in_int, min_int, max_int in *; lia.
  - rewrite Hc1. rewrite Nat2Z.inj_succ in Hle; lia.
Qed.

Lemma after_calls_frame k c :
  after_calls k c = set_nextReqID (nextReqID (after_calls k c)) c.
Proof.
  induction k as [|k IH] using N.peano_ind.
  - now destruct c.
  - rewrite after_calls_succ.
    remember (after_calls k c) as c' eqn:E; clear E.
    unfold nextRequestID; cbn [snd].
    remember (wrap_int (nextReqID c' + 1)) as v eqn:E; clear E.
    now rewrite IH.
Qed.

Lemma exhausted_client_reached :
  after_calls (2 ^ 63 - 1) example_client = exhausted_client.
Proof.
  rewrite after_calls_frame, after_calls_counter.
  - reflexivity.
  - vm_compute; split; discriminate.
Qed.

(** C10, as stated, fails: call number 2^63 of a client built by [NewWS]
    (the one that follows 2^63 calls) returns the smallest [int], a negative
    number, where the sequence 0, 1, 2, ... has 2^63; the counter has
    wrapped instead of growing by one. *)
Lemma nextRequestID_sequence_wraps :
  constructed example_client /\
  nth_id (2 ^ 63 - 1) example_client = max_int /\
  nth_id (2 ^ 63) example_client = min_int /\
  nth_id (2 ^ 63) example_client <> Z.of_N (2 ^ 63) /\
  nth_id (2 ^ 63) example_client <> nth_id (2 ^ 63 - 1) example_client + 1.
Proof.
  assert (Hin : in_int (nextReqID example_client))
    by (vm_compute; split; discriminate).
  split; [exact example_client_constructed|].
  rewrite !nth_id_wrap by exact Hin.
  repeat split; try reflexivity; vm_compute; discriminate.
Qed.

(** C10, amended: on a client as [NewWSWithOptions] builds it the first
    call of [nextRequestID] returns 0; a call adds exactly one to a counter
    below the largest [int]; so the first 2^63 identifiers handed out are
    0, 1, 2, ..., 2^63 - 1 in this order. *)
Theorem nextRequestID_counts_from_zero c :
  constructed c ->
  fst (nextRequestID c) = 0 /\
  (forall c', in_int (nextReqID c') -> nextReqID c' < max_int ->
     nextReqID (snd (nextRequestID c')) = nextReqID c' + 1) /\
  (forall n, Z.of_nat n <= 2 ^ 63 ->
     fst (allocate n c) = map Z.of_nat (seq 0 n)) /\
  (forall k, Z.of_N k < 2 ^ 63 -> nth_id k c = Z.of_N k).
Proof.
  intros Hc. pose proof (constructed_counter c Hc) as H0.
  assert (Hin : in_int (nextReqID c))
    by (rewrite H0; vm_compute; split; discriminate).
  repeat split.
  - now rewrite nextRequestID_id.
  - intros c' Hin' Hlt. rewrite nextRequestID_counter.
    now apply wrap_int_succ.
  - intros n Hn. rewrite allocate_ids; trivial.
    + apply map_ext; intros i. now rewrite H0.
    + rewrite H0. unfold max_int; lia.
  - intros k Hk. rewrite nth_id_wrap, H0 by trivial.
    apply wrap_int_id. unfold in_int, min_int, max_int; lia.
Qed.

Lemma nextRequestID_counts_from_zero_witness :
  fst (allocate 3 example_client) = [0; 1; 2].
Proof.
  refine (proj1 (proj2 (proj2
    (nextRequestID_counts_from_zero example_client
       example_client_constructed))) 3%nat _).
  vm_compute; discriminate.
Defined.

(** ** Distinct identifiers (C7) *)

(** C7, as stated, fails: [example_client] reaches, after 2^63 - 1 calls,
    a counter equal to the largest [int]; the next call returns that number
    and the call after it the smallest [int], which is not greater. *)
Lemma nextRequestID_not_increasing_at_max :
  after_calls (2 ^ 63 - 1) example_client = exhausted_client /\
  fst (nextRequestID exhausted_client) = max_int /\
  fst (nextRequestID (snd (nextRequestID exhausted_client))) = min_int /\
  ~ fst (nextRequestID exhausted_client)
    < fst (nextRequestID (snd (nextRequestID exhausted_client))).
Proof.
  split; [exact exhausted_client_reached|].
  repeat split; try reflexivity. vm_compute; discriminate.
Qed.

Lemma Call_request_id method params c r c' :
  Call_request method params c = (inl r, c') ->
  req_ID r = nextReqID c /\ req_Method r = method /\ req_Params r = params /\
  c' = snd (nextRequestID c).
Proof.
  unfold Call_request, nextRequestID, MapToRequest.
  destruct (forallb _ params); intros [= <- <-]; auto.
Qed.

Lemma UnsubscribeAll_accepted x s :
  writer s = Some W_select ->
  send (client s) = Chan.Made 0 [] false ->
  UnsubscribeAll x SendAccepted s =
  Ok (None,
      with_writer
        (Some (W_request {| req_ID := nextReqID (client s);
                            req_Method := "unsubscribe_all";
                            req_Params := [] |}))
        (with_client (snd (nextRequestID (client s))) s)).
Proof.
  intros Hw Hs. unfold UnsubscribeAll, Call, Call_request, Send.
  cbn. rewrite Hs, Hw. reflexivity.
Qed.

Lemma writeRoutine_written now s request k :
  writer s = Some (W_request request) ->
  conn (client s) = Some k ->
  writeRoutine (WWrite now None) s =
  Ok (with_writer (Some W_select)
        (with_client
           (set_conn
              (Some (conn_write (JSONFrame request) None
                       (with_write_deadline now (client s) k)))
              (client s)) s)).
Proof. intros Hw Hk. unfold writeRoutine. now rewrite Hw, Hk. Qed.

Lemma frames_written f now c k :
  frames (conn_write f None (with_write_deadline now c k)) = frames k ++ [f].
Proof.
  unfold frames, with_write_deadline.
  destruct (0 <? writeWait c); cbn; now rewrite map_app.
Qed.

(** C7, amended: [nextRequestID] returns the counter and advances it by
    one with the wrap-around of [int].  Below the largest [int] the next
    identifier is greater than the one just returned; two calls in a row, and
    any two calls fewer than 2^64 calls apart, return different identifiers;
    so do the requests two consecutive [Call]s build.  Two calls of
    [UnsubscribeAll] in a row hand two requests to the Write Worker, with
    different identifiers, and both are written: nothing is deduplicated. *)
Theorem nextRequestID_distinct c :
  in_int (nextReqID c) ->
  (nextReqID c < max_int ->
     fst (nextRequestID c) < fst (nextRequestID (snd (nextRequestID c)))) /\
  fst (nextRequestID c) <> fst (nextRequestID (snd (nextRequestID c))) /\
  (forall i j, (i < j)%N -> Z.of_N j - Z.of_N i < 2 ^ 64 ->
     nth_id i c <> nth_id j c) /\
  (forall m1 p1 m2 p2 r1 r2 c1 c2,
     Call_request m1 p1 c = (inl r1, c1) ->
     Call_request m2 p2 c1 = (inl r2, c2) ->
     req_ID r1 <> req_ID r2) /\
  (forall s x1 x2 now1 now2 k,
     client s = c ->
     writer s = Some W_select ->
     send c = Chan.Made 0 [] false ->
     conn c = Some k ->
     exists s' k' r1 r2,
       UnsubscribeAll_twice x1 x2 now1 now2 s = Ok s' /\
       conn (client s') = Some k' /\
       frames k' = frames k ++ [JSONFrame r1; JSONFrame r2] /\
       req_Method r1 = "unsubscribe_all"%string /\
       req_Method r2 = "unsubscribe_all"%string /\
       req_ID r1 = nextReqID c /\
       req_ID r2 = wrap_int (nextReqID c + 1) /\
       req_ID r1 <> req_ID r2).
Proof.
  intros Hin. repeat split.
  - intros Hlt. rewrite !nextRequestID_id, nextRequestID_counter.
    rewrite wrap_int_succ by trivial. lia.
  - rewrite !nextRequestID_id, nextRequestID_counter.
    intros E. now apply (wrap_int_succ_neq (nextReqID c)).
  - intros i j Hij Hd. rewrite !nth_id_wrap by trivial. intros E.
    apply (wrap_int_apart (nextReqID c + Z.of_N i) (Z.of_N j - Z.of_N i)).
    + lia.
    + rewrite E. f_equal; lia.
  - intros m1 p1 m2 p2 r1 r2 c1 c2 H1 H2.
    apply Call_request_id in H1 as (E1 & _ & _ & ->).
    apply Call_request_id in H2 as (E2 & _).
    rewrite E1, E2, nextRequestID_counter.
    intros E. now apply (wrap_int_succ_neq (nextReqID c)).
  - intros s x1 x2 now1 now2 k Hc Hw Hs Hk. subst c.
    unfold UnsubscribeAll_twice.
    rewrite UnsubscribeAll_accepted by trivial.
    erewrite writeRoutine_written; [|reflexivity|exact Hk].
    rewrite UnsubscribeAll_accepted by (cbn; trivial).
    erewrite writeRoutine_written; [|reflexivity|reflexivity].
    do 4 eexists. split; [reflexivity|].
    split; [reflexivity|].
    rewrite !frames_written.
    rewrite <- app_assoc.
    repeat split.
    intros E. now apply (wrap_int_succ_neq (nextReqID (client s))).
Qed.

Lemma nextRequestID_distinct_witness :
  fst (nextRequestID example_client)
  <> fst (nextRequestID (snd (nextRequestID example_client))).
Proof.
  refine (proj1 (proj2 (nextRequestID_distinct example_client _))).
  vm_compute; split; discriminate.
Defined.

(** ** The backoff delay (C3) *)

Lemma is_jitter_range jitter : is_jitter jitter = true -> 0 <= jitter < Second.
Proof. unfold is_jitter. rewrite andb_true_iff. lia. Qed.

Lemma shl_int_one k : 0 <= k <= 62 -> shl_int 1 k = 2 ^ k.
Proof.
  intros Hk. unfold shl_int. rewrite Z.shiftl_1_l.
  apply wrap_int_id. unfold in_int, min_int, max_int.
  assert (0 < 2 ^ k) by (apply Z.pow_pos_nonneg; lia).
  assert (2 ^ k <= 2 ^ 62) by (apply Z.pow_le_mono_r; lia).
  lia.
Qed.

Lemma backoffDuration_exact jitter k :
  0 <= k <= 33 -> is_jitter jitter = true ->
  backoffDuration jitter k = jitter + 2 ^ k * Second.
Proof.
  intros Hk Hj. apply is_jitter_range in Hj. unfold backoffDuration.
  rewrite shl_int_one by lia.
  assert (0 < 2 ^ k) by (apply Z.pow_pos_nonneg; lia).
  assert (2 ^ k <= 2 ^ 33) by (apply Z.pow_le_mono_r; lia).
  unfold Second in *.
  rewrite (wrap_int_id (2 ^ k * 1000000000))
    by (unfold in_int, min_int, max_int; lia).
  apply wrap_int_id. unfold in_int, min_int, max_int; lia.
Qed.

(** in [reconnect] the timer is always armed with [backoffDuration] of the
    iteration's own attempt number *)
Lemma reconnect_arms_backoff err jitter attempt backoff s s' pc :
  reconnect (RCTimer (DialFailed err) jitter) (RC_backoff attempt backoff) s
  = Ok (s', Inside pc) ->
  is_jitter jitter = true /\
  pc = RC_backoff (wrap_uint (attempt + 1))
                  (backoffDuration jitter (wrap_uint (attempt + 1))).
Proof.
  cbn. destruct (is_jitter jitter); try discriminate.
  destruct (_ <? _); intros [= <- <-]; auto.
Qed.

Lemma redial_backoff fails : forall attempt backoff s s' pc,
  0 <= attempt ->
  attempt + Z.of_nat (length fails) < max_uint ->
  (exists jitter, is_jitter jitter = true /\
                  backoff = backoffDuration jitter attempt) ->
  redial fails (RC_backoff attempt backoff) s = Ok (s', Inside pc) ->
  exists jitter,
    is_jitter jitter = true /\
    pc = RC_backoff (attempt + Z.of_nat (length fails))
           (backoffDuration jitter (attempt + Z.of_nat (length fails))).
Proof.
  induction fails as [|[err jitter] fails IH];
    intros attempt backoff s s' pc Ha Hlen Hb H.
  - cbn in *. injection H as <- <-. rewrite Z.add_0_r.
    destruct Hb as (j & Hj & ->); eauto.
  - cbn [redial] in H. cbn [length] in Hlen. rewrite Nat2Z.inj_succ in Hlen.
    destruct (reconnect _ _ s) as [[s1 [pc1|r]]| |] eqn:E; try discriminate.
    + apply reconnect_arms_backoff in E as (Hj & ->).
      rewrite wrap_uint_id in H by (unfold in_uint, max_uint in *; lia).
      apply IH in H; try lia; eauto.
      destruct H as (j & Hj' & ->). exists j. split; trivial.
      cbn [length]. rewrite Nat2Z.inj_succ.
      now replace (attempt + Z.succ (Z.of_nat (length fails)))
        with (attempt + 1 + Z.of_nat (length fails)) by lia.
    + destruct fails; discriminate.
Qed.

Lemma patient_client_new :
  NewWSWithOptions (inl example_url) None "/websocket" patient_options
  = inl patient_client.
Proof. reflexivity. Qed.

(** C3, as stated, fails: from attempt 34 on the int64 arithmetic of
    line 282 overflows.  With jitter 0 the delay computed for attempt 34 is
    negative, and a client configured for 40 attempts does arm its timer
    with it after 34 failed dials. *)
Lemma backoffDuration_overflows :
  is_jitter 0 = true /\
  backoffDuration 0 34 = -1266874889709551616 /\
  ~ (2 ^ 34 * Second <= backoffDuration 0 34 < (2 ^ 34 + 1) * Second) /\
  exists s',
    run (outage ++ dial_failures (repeat (refused, 0) 34)) patient_started
    = Ok s' /\
    coordinator s'
    = Some (C_reconnect (Some (CloseError CloseAbnormalClosure "unexpected EOF"))
              (RC_backoff 34 (-1266874889709551616))).
Proof.
  repeat split; try reflexivity.
  - vm_compute. intros [H _]. now apply H.
  - eexists. split; vm_compute; reflexivity.
Qed.

(** C3, amended: for every attempt [k] from 0 to 33, the attempts whose
    delay fits the 64-bit nanosecond count of [time.Duration], and every
    jitter of at least 0 and less than one second, the delay computed at
    line 282 is the jitter plus 2^k seconds, so it is at least 2^k seconds
    and less than 2^k + 1 seconds; and [reconnect] arms its timer with that
    delay: after [k] failed dials in a row it waits at attempt [k] for
    [backoffDuration] of some jitter and [k]. *)
Theorem backoffDuration_bounds k jitter :
  0 <= k <= 33 ->
  is_jitter jitter = true ->
  backoffDuration jitter k = jitter + 2 ^ k * Second /\
  2 ^ k * Second <= backoffDuration jitter k < (2 ^ k + 1) * Second /\
  (forall c, snd (reconnect_enter jitter c)
             = RC_backoff 0 (backoffDuration jitter 0)) /\
  (forall fails s s' pc,
     Z.of_nat (length fails) = k ->
     redial fails (RC_backoff 0 (backoffDuration jitter 0)) s
     = Ok (s', Inside pc) ->
     exists jitter',
       is_jitter jitter' = true /\
       pc = RC_backoff k (jitter' + 2 ^ k * Second)).
Proof.
  intros Hk Hj. rewrite backoffDuration_exact by trivial.
  pose proof (is_jitter_range _ Hj).
  repeat split; try lia.
  intros fails s s' pc Hlen H1.
  apply redial_backoff in H1; eauto; try lia.
  - destruct H1 as (j & Hj' & ->). rewrite Z.add_0_l, Hlen.
    exists j. split; trivial. now rewrite backoffDuration_exact.
  - rewrite Hlen. unfold max_uint. lia.
Qed.

Lemma backoffDuration_bounds_witness :
  backoffDuration 123456789 10 = 123456789 + 2 ^ 10 * Second.
Proof.
  refine (proj1 (backoffDuration_bounds 10 123456789 _ _)).
  - lia.
  - reflexivity.
Defined.

(** ** The invariant *)

Lemma constructed_zero c :
  constructed c -> wg c = 0%nat /\ nextReqID c = 0.
Proof.
  induction 1 as [parsed dialFn endpoint opts c H|c _ IH]; trivial.
  unfold NewWSWithOptions in H.
  destruct parsed; try discriminate.
  destruct dialFn; try discriminate.
  now injection H as <-.
Qed.

Lemma Start_invariant c x r s :
  constructed c -> Start x r (idle c) = (None, s) -> invariant s.
Proof.
  intros Hc. apply constructed_zero in Hc as [Hwg Hid].
  unfold Start, RunState_Start, dial. cbn [client idle].
  destruct (isRunning c); try discriminate.
  destruct r; try discriminate.
  intros [= <-].
  constructor; cbn; try rewrite Hwg; try rewrite Hid; eauto;
    try (now eexists; unfold Chan.make; eauto);
    try discriminate.
Qed.

(** the channel operations keep a channel of capacity one within bounds *)
Lemma send_bounded {A} (v : A) ch ch' :
  (exists buf, ch = Chan.Made 1 buf false /\ (length buf <= 1)%nat) ->
  Chan.send v ch = Ok ch' ->
  exists buf, ch' = Chan.Made 1 buf false /\ (length buf <= 1)%nat.
Proof.
  intros (buf & -> & Hlen) H. apply send_Ok in H as (n & b & [= <- <-] & -> & Hlt).
  exists (buf ++ [v]). split; trivial. rewrite length_app; simpl; lia.
Qed.

Lemma recv_bounded {A} (ch : chan A) r ch' :
  (exists buf, ch = Chan.Made 1 buf false /\ (length buf <= 1)%nat) ->
  Chan.recv ch = Ok (r, ch') ->
  exists buf, ch' = Chan.Made 1 buf false /\ (length buf <= 1)%nat.
Proof.
  intros (buf & -> & Hlen) H. destruct buf as [|v buf]; simpl in H.
  - discriminate.
  - injection H as <- <-. exists buf. split; trivial. simpl in Hlen; lia.
Qed.

Ltac break_match H :=
  repeat match type of H with
         | context [match ?x with _ => _ end] => destruct x eqn:?
         | context [if ?x then _ else _] => destruct x eqn:?
         end; try discriminate.

Lemma working_not_recovering s :
  invariant s -> writer s <> None \/ reader s <> None ->
  recovering (coordinator s) = false.
Proof.
  intros Hi H. destruct (recovering (coordinator s)) eqn:E; trivial.
  destruct (inv_recovering s Hi E) as [Hw Hr]. destruct H; contradiction.
Qed.

Ltac invariant_fields :=
  constructor; unfold stoppers in *;
  cbn [client ctx writer reader coordinator delivered callbacks stopping
       with_client with_ctx with_writer with_reader with_coordinator
       with_delivered with_callbacks with_stopping
       isRunning conn Address Endpoint ResponsesCh onReconnect send backlog
       reconnectAfter readRoutineQuit maxReconnectAttempts protocol wg
       sentLastPingAt reconnecting nextReqID writeWait readWait pingPeriod
       skipMetrics
       set_isRunning set_conn set_ResponsesCh set_send set_backlog
       set_reconnectAfter set_readRoutineQuit set_wg set_sentLastPingAt
       set_reconnecting set_nextReqID set_onReconnect live].

Lemma close_unbuffered {A} (ch ch' : chan A) :
  (exists cl, ch = Chan.Made 0 [] cl) ->
  Chan.close ch = Ok ch' ->
  exists cl, ch' = Chan.Made 0 [] cl.
Proof.
  intros (cl & ->). destruct cl; simpl; try discriminate.
  intros [= <-]; eauto.
Qed.

Ltac invariant_auto :=
  cbn [reading];
  eauto using send_bounded, recv_bounded, close_unbuffered;
  try congruence;
  try (cbn [live] in *; lia);
  try match goal with
      | Hnr : recovering ?g = false |- resending ?g _ =>
          destruct g as [[| | | | |[| | |]]|]; cbn in Hnr |- *;
          (discriminate || trivial)
      end;
  try match goal with
      | E : ResponsesCh _ = _
        |- _ -> Chan.is_closed (ResponsesCh _) = false =>
          rewrite E; trivial
      end;
  try match goal with
      | H : exists cl, _ = Chan.Made 0 [] cl |- exists cl, _ = Chan.Made 0 [] cl =>
          let cl := fresh in let E := fresh in
          destruct H as [cl E]; exists cl; congruence
      end.

Lemma writeRoutine_invariant l s s' :
  invariant s -> writeRoutine l s = Ok s' -> invariant s'.
Proof.
  intros Hi H.
  assert (Hnr : recovering (coordinator s) = false).
  { apply working_not_recovering; trivial. left.
    unfold writeRoutine in H. destruct (writer s); discriminate. }
  destruct Hi as [Hwg Hb Hr Hk Hs Hq Hresp _ Hcnt Hl Hres Hst Hop].
  unfold writeRoutine, writeRoutine_exit in H.
  destruct (writer s) as [[| | |]|] eqn:Hw; destruct l; try discriminate;
    cbn [client with_client conn set_conn set_reconnectAfter set_backlog wg] in H;
    break_match H; injection H as <-; invariant_fields; invariant_auto.
Qed.

Lemma readRoutine_invariant l s s' :
  invariant s -> readRoutine l s = Ok s' -> invariant s'.
Proof.
  intros Hi H.
  assert (Hnr : recovering (coordinator s) = false).
  { apply working_not_recovering; trivial. right.
    unfold readRoutine in H. destruct (reader s); discriminate. }
  destruct Hi as [Hwg Hb Hr Hk Hs Hq Hresp _ Hcnt Hl Hres Hst Hop].
  unfold readRoutine, readRoutine_exit in H.
  destruct (reader s) as [[| |]|] eqn:Hrd; destruct l; try discriminate;
    cbn [client with_client conn set_conn set_reconnectAfter
         set_readRoutineQuit wg] in H;
    break_match H; injection H as <-; invariant_fields; invariant_auto.
Qed.

Lemma invariant_with_coordinator g s :
  invariant s ->
  (recovering g = true -> writer s = None /\ reader s = None) ->
  resending g (client s) ->
  stoppers (with_coordinator g s) = stoppers s ->
  invariant (with_coordinator g s).
Proof.
  intros [] H H' H''. constructor; trivial; cbn [client with_coordinator];
    now rewrite H''.
Qed.

Ltac same_stoppers :=
  unfold stoppers; cbn [coordinator stopping with_coordinator];
  match goal with
  | Hc : coordinator _ = _ |- _ => now rewrite Hc
  end.

Lemma reconnect_invariant l pc s s' p :
  invariant s -> reconnect l pc s = Ok (s', p) ->
  invariant s' /\ writer s' = writer s /\ reader s' = reader s /\
  coordinator s' = coordinator s.
Proof.
  intros [Hwg Hb Hr Hk Hs Hq Hresp Hrec Hcnt Hl Hres Hst Hop] H.
  unfold reconnect, reconnect_return, dial in H.
  destruct pc as [a b]; destruct l as [|[id|err] j];
    break_match H; injection H as <- <-;
    repeat match goal with
           | H : (_, _) = (_, _) |- _ => injection H as <- <-
           end;
    (split; [|repeat split; reflexivity]);
    invariant_fields; invariant_auto; try discriminate;
    destruct (coordinator s) as [[| | | | |[| | |]]|]; cbn in Hres |- *;
    trivial.
Qed.

(** the channels after a transition of [processBacklog] taken while the
    coordinator recovers *)
Lemma processBacklog_resending l pc s c' p :
  invariant s -> coordinator s = Some (C_backlog pc) ->
  processBacklog l pc (client s) = Ok (c', p) ->
  invariant (with_client c' (with_coordinator (Some C_select) s)) /\
  match p with
  | Inside pc' => resending (Some (C_backlog pc')) c'
  | Returned _ => True
  end.
Proof.
  intros [Hwg Hb Hr Hk Hs Hq Hresp Hrec Hcnt Hl Hres Hst Hop] Hc H.
  unfold stoppers in Hst, Hop.
  rewrite Hc in Hres, Hrec, Hst, Hop. cbn [recovering] in Hrec.
  destruct (Hrec eq_refl) as [Hw Hrd].
  destruct Hb as (bb & Hb & Hbl). destruct Hr as (rb & Hr & Hrl).
  destruct Hk as (k & Hk).
  unfold processBacklog in H.
  destruct pc as [|r|e r|e r], l as [|now res| |]; try discriminate;
    cbn [resending] in Hres;
    try rewrite Hb in H; try rewrite Hr in H; try rewrite Hk in H;
    try rewrite Hb in Hres; try rewrite Hr in Hres;
    cbn [Chan.buffered] in Hres.
  - (* the select *)
    subst rb. destruct bb as [|r [|r' bb]]; cbn in H, Hbl; try lia;
      injection H as <- <-;
      (split; [|cbn; rewrite ?Hr, ?Hb; auto]);
      invariant_fields; cbn [resending]; rewrite ?Hr, ?Hb;
      invariant_auto; eexists; split; try reflexivity; simpl; lia.
  - (* the write *)
    destruct Hres as [-> ->].
    destruct res as [err|]; injection H as <- <-;
      (split; [|cbn; rewrite ?Hr, ?Hb; auto]);
      invariant_fields; cbn [resending]; rewrite ?Hr, ?Hb;
      invariant_auto; eexists; split; try reflexivity; simpl; lia.
  - (* the signal *)
    destruct Hres as [-> ->]. cbn in H. injection H as <- <-.
    (split; [|cbn; rewrite ?Hr, ?Hb; auto]).
    invariant_fields; cbn [resending]; rewrite ?Hr, ?Hb;
      invariant_auto; eexists; split; try reflexivity; simpl; lia.
  - (* the requeue *)
    subst bb. cbn in H. injection H as <- <-.
    split; trivial.
    invariant_fields; cbn [resending]; rewrite ?Hr, ?Hb;
      invariant_auto; eexists; split; try reflexivity; simpl; lia.
Qed.

Lemma startReadWriteRoutines_invariant s :
  invariant (with_coordinator (Some C_select) s) ->
  writer s = None -> reader s = None ->
  invariant (with_coordinator (Some C_select) (startReadWriteRoutines s)).
Proof.
  intros [Hwg Hb Hr Hk Hs Hq Hresp Hrec Hcnt Hl Hres Hst Hop] Hw Hrd.
  cbn in Hwg, Hb, Hr, Hk, Hs, Hq, Hresp, Hcnt.
  rewrite Hw, Hrd in Hwg. unfold startReadWriteRoutines.
  invariant_fields; cbn [recovering resending]; invariant_auto;
    unfold Chan.make; eauto.
Qed.

Lemma Stop_enter_invariant s c' :
  invariant s -> recovering (coordinator s) = true ->
  coordinator s <> Some C_stop ->
  Stop_enter (client s) = (None, c') ->
  invariant (with_coordinator (Some C_stop) (with_client c' s)).
Proof.
  intros Hi Hc Hns H.
  destruct (inv_recovering s Hi Hc) as [Hw Hrd].
  destruct Hi as [Hwg Hb Hr Hk Hs Hq Hresp Hrec Hcnt Hl Hres Hst Hop].
  unfold Stop_enter, RunState_Stop in H.
  destruct (isRunning (client s)) eqn:Hrun; try discriminate.
  injection H as <-.
  assert (E : match coordinator s with Some C_stop => 1%nat | _ => 0%nat end
              = 0%nat)
    by (destruct (coordinator s) as [[]|]; trivial; congruence).
  invariant_fields; cbn [recovering resending]; invariant_auto;
    try (rewrite E in Hst; lia); try (intros _; apply Hop; auto).
Qed.

Lemma Stop_finish_invariant s c' :
  invariant s -> coordinator s = Some C_stop ->
  Stop_finish (client s) = Ok c' ->
  invariant (with_coordinator None (with_client c' s)).
Proof.
  intros [Hwg Hb Hr Hk Hs Hq Hresp Hrec Hcnt Hl Hres Hst Hop] Hc H.
  unfold Stop_finish in H. unfold stoppers in Hst, Hop. rewrite Hc in *.
  destruct (wg (client s)) eqn:Ewg; try discriminate.
  destruct (Chan.close _) as [ch| |] eqn:Ecl; try discriminate.
  injection H as <-.
  invariant_fields; cbn [recovering resending]; invariant_auto;
    try discriminate;
    destruct (isRunning (client s)); try lia;
    intros [|]; try discriminate; lia.
Qed.

Lemma reconnectRoutine_invariant l s s' :
  invariant s -> reconnectRoutine l s = Ok s' -> invariant s'.
Proof.
  intros Hi H.
  pose proof (inv_recovering s Hi) as Hrec.
  unfold reconnectRoutine in H.
  destruct (coordinator s) as [[|e|e pc| | |pc]|] eqn:Hc;
    destruct l; try discriminate; cbn [recovering] in Hrec.
  - (* CQuit *)
    break_match H; injection H as <-.
    apply invariant_with_coordinator; cbn; trivial; try discriminate.
    same_stoppers.
  - (* CFailure *)
    destruct (Chan.recv _) as [[o ch]| |] eqn:E; try discriminate.
    injection H as <-. destruct Hi.
    invariant_fields; cbn [recovering resending]; invariant_auto;
      rewrite Hc in *; trivial.
  - (* CJoined *)
    destruct (wg (client s)) eqn:Ewg; try discriminate.
    destruct (is_jitter jitter); try discriminate.
    cbn in H. injection H as <-. destruct Hi.
    invariant_fields; cbn [recovering resending]; invariant_auto;
      try (rewrite Hc in *; trivial; fail).
    intros _. rewrite Ewg in inv_wg0.
    destruct (writer s), (reader s); try discriminate; auto.
  - (* CReconnect *)
    destruct (reconnect l pc s) as [[s1 [pc1|[err|]]]| |] eqn:E;
      try discriminate;
      apply reconnect_invariant in E as (Hi1 & Hw & Hr & Hc1); trivial;
      destruct (Hrec eq_refl) as [Hw0 Hr0]; rewrite Hw0 in Hw;
      rewrite Hr0 in Hr; rewrite Hc in Hc1.
    + injection H as <-.
      apply invariant_with_coordinator; cbn; auto. same_stoppers.
    + destruct (Stop_enter (client s1)) as [[e1|] c1] eqn:Es;
        injection H as <-.
      * apply invariant_with_coordinator; cbn; trivial; try discriminate.
        same_stoppers.
      * eapply Stop_enter_invariant; eauto; rewrite Hc1;
          trivial; discriminate.
    + injection H as <-.
      apply invariant_with_coordinator; cbn; auto. same_stoppers.
  - (* CStopped *)
    destruct (Stop_finish (client s)) as [c1| |] eqn:Es; try discriminate.
    injection H as <-. eapply Stop_finish_invariant; eauto.
  - (* CDrainQuit *)
    break_match H; injection H as <-.
    apply invariant_with_coordinator; cbn; trivial; try discriminate.
    same_stoppers.
  - (* CDrainOne *)
    destruct (Chan.recv _) as [[o ch]| |] eqn:E; try discriminate.
    injection H as <-. destruct Hi.
    invariant_fields; cbn [resending]; invariant_auto. now rewrite Hc.
  - (* CDrained *)
    destruct (ctx_Done (ctx s) || _) eqn:E; try discriminate.
    injection H as <-. apply orb_false_iff in E as [_ E].
    apply invariant_with_coordinator; cbn; auto; try same_stoppers.
    destruct (inv_reconnectAfter s Hi) as (buf & Hb & _).
    rewrite Hb in *. cbn in *. destruct buf; trivial; discriminate.
  - (* CBacklog *)
    destruct (processBacklog l pc (client s)) as [[c1 [pc1|[err|]]]| |] eqn:E;
      try discriminate; injection H as <-;
      eapply processBacklog_resending in E as [Hi1 Hres1]; eauto;
      destruct (Hrec eq_refl) as [Hw0 Hr0].
    + destruct Hi1. unfold stoppers in *. cbn in *.
      invariant_fields; cbn [recovering]; auto.
    + now apply (startReadWriteRoutines_invariant (with_client c1 s)).
Qed.

Lemma Send_Ok x request pick s e s' :
  Send x request pick s = Ok (e, s') ->
  (pick = SendAccepted /\ e = None /\ writer s = Some W_select /\
   Chan.is_closed (send (client s)) = false /\
   s' = with_writer (Some (W_request request)) s) \/
  (pick = SendCanceled /\ ctx_Done x = true /\ e = ctx_Err x /\ s' = s).
Proof.
  unfold Send. destruct pick.
  - destruct (send (client s)) as [|n buf [|]]; try discriminate.
    destruct (writer s) as [[| | |]|]; try discriminate.
    intros [= <- <-]. left; auto.
  - destruct (ctx_Done x); try discriminate.
    intros [= <- <-]. right; auto.
Qed.

Lemma step_invariant l s s' :
  invariant s -> step l s = Ok s' -> invariant s'.
Proof.
  intros Hi H. destruct l as [l|l|l|method params|x request pick| | |how];
    cbn [step] in H.
  - eapply writeRoutine_invariant; eauto.
  - eapply readRoutine_invariant; eauto.
  - eapply reconnectRoutine_invariant; eauto.
  - injection H as <-. destruct Hi.
    unfold Call_request, nextRequestID.
    invariant_fields; invariant_auto. apply wrap_int_range.
  - destruct (Send x request pick s) as [[e s1]| |] eqn:E; try discriminate.
    injection H as <-.
    apply Send_Ok in E as [(_ & _ & Hw & _ & ->)|(_ & _ & _ & ->)]; trivial.
    assert (Hnr : recovering (coordinator s) = false).
    { apply working_not_recovering; trivial. left; congruence. }
    destruct Hi. invariant_fields; invariant_auto;
      try (now rewrite inv_wg0, Hw); try (rewrite Hnr; discriminate).
  - (* a caller enters Stop *)
    unfold Stop_enter, RunState_Stop in H.
    destruct (isRunning (client s)) eqn:Hrun; injection H as <-; trivial.
    destruct Hi as [Hwg Hb Hr Hk Hs Hq Hresp Hrec Hcnt Hl Hres Hst Hop].
    rewrite Hrun in Hst.
    invariant_fields; invariant_auto; try lia.
  - (* a caller leaves Stop *)
    destruct (stopping s) as [|n] eqn:En; try discriminate.
    destruct (Stop_finish (client s)) as [c| |] eqn:E; try discriminate.
    injection H as <-. unfold Stop_finish in E.
    destruct (wg (client s)) eqn:Ewg; try discriminate.
    destruct (Chan.close _) as [ch| |] eqn:Ecl; try discriminate.
    injection E as <-.
    destruct Hi as [Hwg Hb Hr Hk Hs Hq Hresp Hrec Hcnt Hl Hres Hst Hop].
    unfold stoppers in Hst, Hop. rewrite En in Hst, Hop.
    invariant_fields; invariant_auto;
      destruct (isRunning (client s)); try lia;
      intros [|]; try discriminate; lia.
  - break_match H. injection H as <-. destruct Hi.
    invariant_fields; invariant_auto.
Qed.

Theorem reachable_invariant s : reachable s -> invariant s.
Proof.
  induction 1 as [c x r s Hc HS|s l s' _ IH Hstep].
  - eapply Start_invariant; eauto.
  - eapply step_invariant; eauto.
Qed.

Lemma run_invariant ls : forall s s',
  invariant s -> run ls s = Ok s' -> invariant s'.
Proof.
  induction ls as [|l ls IH]; intros s s' Hi H; cbn in H.
  - now injection H as <-.
  - destruct (step l s) as [s1| |] eqn:E; try discriminate.
    eapply IH; [eapply step_invariant; eassumption|exact H].
Qed.

Lemma run_reachable ls : forall s s',
  reachable s -> run ls s = Ok s' -> reachable s'.
Proof.
  induction ls as [|l ls IH]; intros s s' Hr H; cbn in H.
  - now injection H as <-.
  - destruct (step l s) as [s1| |] eqn:E; try discriminate.
    eapply IH; [eapply reachable_step; eassumption|exact H].
Qed.

Lemma example_started_reachable : reachable example_started.
Proof.
  apply (reachable_Start example_client CtxLive (Dialed 1)).
  - exact example_client_constructed.
  - reflexivity.
Qed.

Lemma patient_started_reachable : reachable patient_started.
Proof.
  apply (reachable_Start patient_client CtxLive (Dialed 1)).
  - eapply constructed_new. exact patient_client_new.
  - reflexivity.
Qed.

(** ** Send (C6) *)

(** C6: [Send] returns only through one of the two cases of its [select],
    and parks while neither is ready.  When the intake channel takes the
    request the result is nil and the Write Worker, which was parked at its
    [select], now holds the request.  When the context is done the result is
    the context's error, which is not nil, and the state is the one before
    the call: the worker was handed nothing.  ([Send] panics only on a closed
    intake channel, and the client never closes it.) *)
Theorem Send_accepted_or_canceled x request pick s :
  match Send x request pick s with
  | Ok (None, s') =>
      pick = SendAccepted /\
      writer s = Some W_select /\
      s' = with_writer (Some (W_request request)) s
  | Ok (Some err, s') =>
      pick = SendCanceled /\
      ctx_Done x = true /\ ctx_Err x = Some err /\
      s' = s
  | Block =>
      match pick with
      | SendAccepted =>
          send (client s) = Chan.Nil \/ writer s <> Some W_select
      | SendCanceled => ctx_Done x = false
      end
  | Panic => pick = SendAccepted /\ Chan.is_closed (send (client s)) = true
  end.
Proof.
  unfold Send. destruct pick.
  - destruct (send (client s)) as [|n buf [|]]; auto.
    destruct (writer s) as [[| | |]|]; auto; right; discriminate.
  - destruct x; cbn; auto.
Qed.

(** in a started client the intake channel is open: [Send] never panics,
    and is accepted exactly when the Write Worker is parked at its
    [select] *)
Lemma Send_ready x request s :
  reachable s ->
  Send x request SendAccepted s
  = match writer s with
    | Some W_select => Ok (None, with_writer (Some (W_request request)) s)
    | _ => Block
    end.
Proof.
  intros Hr. apply reachable_invariant in Hr.
  unfold Send. now rewrite (inv_send s Hr).
Qed.

(** ** Workers that are alive *)


Lemma pinging_started_reachable : reachable pinging_started.
Proof.
  apply (reachable_Start pinging_client CtxLive (Dialed 1)).
  - apply (constructed_new (inl example_url) None "/websocket"
             pinging_options).
    reflexivity.
  - reflexivity.
Qed.

(** ** Quiet read failures (C2) *)




(** ** Retransmission of the backlog (C9, C1) *)

Lemma run_app ls1 : forall ls2 s,
  run (ls1 ++ ls2) s
  = match run ls1 s with
    | Ok s1 => run ls2 s1
    | Block => Block
    | Panic => Panic
    end.
Proof.
  induction ls1 as [|l ls1 IH]; intros ls2 s; cbn; trivial.
  destruct (step l s); trivial.
Qed.

Lemma after_reachable ls s :
  reachable s -> reachable (after ls s).
Proof.
  intros Hr. unfold after. destruct (run ls s) eqn:E; trivial.
  eapply run_reachable; eauto.
Qed.

(** what a reachable client holds when [processBacklog] is entered *)
Lemma reachable_resending s pc :
  reachable s -> coordinator s = Some (C_backlog pc) ->
  exists k bb rb,
    conn (client s) = Some k /\
    backlog (client s) = Chan.Made 1 bb false /\ (length bb <= 1)%nat /\
    reconnectAfter (client s) = Chan.Made 1 rb false /\
    resending (Some (C_backlog pc)) (client s) /\
    writer s = None /\ reader s = None /\ wg (client s) = 0%nat.
Proof.
  intros Hr Hc. apply reachable_invariant in Hr.
  destruct (inv_conn s Hr) as (k & Hk).
  destruct (inv_backlog s Hr) as (bb & Hb & Hbl).
  destruct (inv_reconnectAfter s Hr) as (rb & Hrb & _).
  pose proof (inv_resend s Hr) as Hres. rewrite Hc in Hres.
  destruct (inv_recovering s Hr) as [Hw Hrd]; [now rewrite Hc|].
  pose proof (inv_wg s Hr) as Hwg. rewrite Hw, Hrd in Hwg.
  exists k, bb, rb. auto 10.
Qed.

Lemma processBacklog_take c n request bb cl :
  backlog c = Chan.Made n (request :: bb) cl ->
  processBacklog BSelect B_select c
  = Ok (set_backlog (Chan.Made n bb cl) c, Inside (B_write request)).
Proof. intros H. cbn. now rewrite H. Qed.

Lemma processBacklog_empty c n :
  backlog c = Chan.Made n [] false ->
  processBacklog BSelect B_select c = Ok (c, Returned None).
Proof. intros H. cbn. now rewrite H. Qed.

Lemma processBacklog_write c k now res request :
  conn c = Some k ->
  processBacklog (BWrite now res) (B_write request) c
  = Ok (set_conn
          (Some (conn_write (JSONFrame request) res
                   (with_write_deadline now c k))) c,
        match res with
        | Some err => Inside (B_signal err request)
        | None => Returned None
        end).
Proof. intros H. cbn. rewrite H. now destruct res. Qed.

Lemma processBacklog_signal c n err request :
  reconnectAfter c = Chan.Made (S n) [] false ->
  processBacklog BSignal (B_signal err request) c
  = Ok (set_reconnectAfter (Chan.Made (S n) [err] false) c,
        Inside (B_requeue err request)).
Proof. intros H. cbn. now rewrite H. Qed.

Lemma processBacklog_requeue c n err request :
  backlog c = Chan.Made (S n) [] false ->
  processBacklog BRequeue (B_requeue err request) c
  = Ok (set_backlog (Chan.Made (S n) [request] false) c,
        Returned (Some err)).
Proof. intros H. cbn. now rewrite H. Qed.

(** C9: in a started client that enters [processBacklog] with a request in
    the backlog, whatever the transitions, a call that returns an error has
    gone through a failed [WriteJSON] of that request, the signal and the
    requeue, and leaves the request in the backlog, as it found it; and when
    the write fails the call does run to that return: neither channel send
    can block. *)
Theorem processBacklog_requeues s request :
  reachable s ->
  coordinator s = Some (C_backlog B_select) ->
  Chan.buffered (backlog (client s)) = [request] ->
  (forall ls c' err,
     processBacklog_run ls B_select (client s) = Ok (c', Returned (Some err)) ->
     (exists now, ls = [BSelect; BWrite now (Some err); BSignal; BRequeue]) /\
     backlog c' = backlog (client s) /\
     Chan.buffered (backlog c') = [request]) /\
  (forall now err,
     exists c',
       processBacklog_run [BSelect; BWrite now (Some err); BSignal; BRequeue]
         B_select (client s)
       = Ok (c', Returned (Some err)) /\
       Chan.buffered (backlog c') = [request] /\
       Chan.buffered (reconnectAfter c') = [err]).
Proof.
  intros Hr Hc Hb.
  destruct (reachable_resending s _ Hr Hc)
    as (k & bb & rb & Hk & Hbb & _ & Hrb & Hres & _).
  cbn [resending] in Hres. rewrite Hrb in Hres. cbn in Hres. subst rb.
  rewrite Hbb in Hb. cbn in Hb. subst bb.
  split.
  - intros ls c' err H.
    destruct ls as [|[] ls]; try discriminate.
    cbn [processBacklog_run] in H.
    erewrite processBacklog_take in H by eassumption.
    destruct ls as [|[|now res| |] ls]; try discriminate.
    cbn [processBacklog_run] in H.
    erewrite processBacklog_write in H by exact Hk.
    destruct res as [e|]; [|destruct ls; discriminate].
    destruct ls as [|[] ls]; try discriminate.
    cbn [processBacklog_run] in H.
    erewrite processBacklog_signal in H by exact Hrb.
    destruct ls as [|[] ls]; try discriminate.
    cbn [processBacklog_run] in H.
    erewrite processBacklog_requeue in H by reflexivity.
    destruct ls; try discriminate.
    injection H as <- <-. rewrite Hbb. cbn. eauto.
  - intros now err. eexists.
    cbn [processBacklog_run].
    erewrite processBacklog_take by eassumption.
    erewrite processBacklog_write by exact Hk.
    erewrite processBacklog_signal by exact Hrb.
    erewrite processBacklog_requeue by reflexivity.
    split; [reflexivity|]. split; reflexivity.
Qed.

Lemma processBacklog_requeues_witness :
  exists c',
    processBacklog_run
      [BSelect; BWrite 200 (Some broken_pipe); BSignal; BRequeue] B_select
      (client (after (failed_send ++ reconnected) example_started))
    = Ok (c', Returned (Some broken_pipe)) /\
    Chan.buffered (backlog c') = [example_request].
Proof.
  destruct (processBacklog_requeues
              (after (failed_send ++ reconnected) example_started)
              example_request
              (after_reachable _ _ example_started_reachable)
              eq_refl eq_refl) as [_ H].
  destruct (H 200 broken_pipe) as (c' & H1 & H2 & _).
  exists c'. split; assumption.
Defined.

(** C1, as stated, fails: after a successful reconnect whose
    retransmission of the backlog entry fails, the client is still running,
    and the coordinator, having skipped the restart of the workers, takes the
    failure signal of that very send and is inside [reconnect] again. *)
Lemma failed_resend_reconnects_again :
  exists s',
    run (failed_send ++ reconnected ++ failed_resend
         ++ [LCoordinator CFailure; LCoordinator (CJoined 0)])
        example_started = Ok s' /\
    isRunning (client s') = true /\
    writer s' = None /\ reader s' = None /\
    reconnecting (client s') = true /\
    coordinator s'
    = Some (C_reconnect (Some broken_pipe) (RC_backoff 0 (backoffDuration 0 0))).
Proof.
  eexists. split; [vm_compute; reflexivity|]. repeat split.
Qed.

Lemma reconnectRoutine_backlog l pc s :
  coordinator s = Some (C_backlog pc) ->
  reconnectRoutine (CBacklog l) s
  = match processBacklog l pc (client s) with
    | Ok (c, Inside pc) =>
        Ok (with_coordinator (Some (C_backlog pc)) (with_client c s))
    | Ok (c, Returned None) =>
        Ok (with_coordinator (Some C_select)
              (startReadWriteRoutines (with_client c s)))
    | Ok (c, Returned (Some _)) =>
        Ok (with_coordinator (Some C_select) (with_client c s))
    | Block => Block
    | Panic => Panic
    end.
Proof. intros H. unfold reconnectRoutine. now rewrite H. Qed.

(** C1, amended: when the retransmission of the backlog entry after a
    successful reconnect fails, [processBacklog] signals the failure on
    [reconnectAfter], puts the request back in the backlog and returns the
    error; [reconnectRoutine] skips the restart of the worker pair and
    returns to its [select]; the client is not stopped (its run state is
    untouched); the coordinator then takes the signal of that send, finds no
    worker to wait for, and enters [reconnect] again. *)
Theorem failed_resend_signals s request now err :
  reachable s ->
  coordinator s = Some (C_backlog (B_write request)) ->
  exists s1 s2,
    run [LCoordinator (CBacklog (BWrite now (Some err)));
         LCoordinator (CBacklog BSignal);
         LCoordinator (CBacklog BRequeue)] s = Ok s1 /\
    writer s1 = None /\ reader s1 = None /\ wg (client s1) = 0%nat /\
    isRunning (client s1) = isRunning (client s) /\
    Chan.buffered (backlog (client s1)) = [request] /\
    Chan.buffered (reconnectAfter (client s1)) = [err] /\
    coordinator s1 = Some C_select /\
    reconnectRoutine CFailure s1 = Ok s2 /\
    coordinator s2 = Some (C_wait (Some err)) /\
    (forall jitter,
       is_jitter jitter = true ->
       exists s3,
         reconnectRoutine (CJoined jitter) s2 = Ok s3 /\
         coordinator s3
         = Some (C_reconnect (Some err)
                   (RC_backoff 0 (backoffDuration jitter 0))) /\
         reconnecting (client s3) = true /\
         isRunning (client s3) = isRunning (client s)).
Proof.
  intros Hr Hc.
  destruct (reachable_resending s _ Hr Hc)
    as (k & bb & rb & Hk & Hbb & _ & Hrb & Hres & Hw & Hrd & Hwg).
  cbn [resending] in Hres. rewrite Hrb, Hbb in Hres. cbn in Hres.
  destruct Hres as [-> ->].
  cbn [run step].
  rewrite (reconnectRoutine_backlog _ _ _ Hc).
  erewrite processBacklog_write by exact Hk.
  erewrite reconnectRoutine_backlog by reflexivity.
  erewrite processBacklog_signal by exact Hrb.
  erewrite reconnectRoutine_backlog by reflexivity.
  erewrite processBacklog_requeue by exact Hbb.
  eexists _, _. split; [reflexivity|].
  cbn. rewrite Hwg.
  repeat (split; [reflexivity || assumption|]).
  intros jitter Hj. unfold reconnectRoutine. cbn. rewrite Hwg, Hj.
  eexists. repeat split.
Qed.

Lemma failed_resend_signals_witness :
  exists s1,
    run [LCoordinator (CBacklog (BWrite 200 (Some broken_pipe)));
         LCoordinator (CBacklog BSignal);
         LCoordinator (CBacklog BRequeue)]
        (after (failed_send ++ reconnected ++ [LCoordinator (CBacklog BSelect)])
               example_started) = Ok s1 /\
    isRunning (client s1) = true /\
    Chan.buffered (reconnectAfter (client s1)) = [broken_pipe].
Proof.
  destruct (failed_resend_signals
              (after (failed_send ++ reconnected
                      ++ [LCoordinator (CBacklog BSelect)]) example_started)
              example_request 200 broken_pipe
              (after_reachable _ _ example_started_reachable) eq_refl)
    as (s1 & s2 & H & _ & _ & _ & Hrun & _ & Hsig & _).
  exists s1. split; [assumption|]. split; assumption.
Defined.

(** ** Giving up (C4) *)

Lemma with_client_same s : with_client (client s) s = s.
Proof. now destruct s. Qed.

Lemma reconnectRoutine_failed_dial s e a b err jitter :
  coordinator s = Some (C_reconnect e (RC_backoff a b)) ->
  is_jitter jitter = true ->
  reconnectRoutine (CReconnect (RCTimer (DialFailed err) jitter)) s
  = if maxReconnectAttempts (client s) <? wrap_uint (a + 1)
    then
      match Stop_enter (client (reconnect_return s)) with
      | (Some _, _) => Ok (with_coordinator None (reconnect_return s))
      | (None, c) =>
          Ok (with_coordinator (Some C_stop)
                (with_client c (reconnect_return s)))
      end
    else
      Ok (with_coordinator
            (Some (C_reconnect e
                     (RC_backoff (wrap_uint (a + 1))
                        (backoffDuration jitter (wrap_uint (a + 1)))))) s).
Proof.
  intros Hc Hj. unfold reconnectRoutine, reconnect. rewrite Hc, Hj.
  cbn [dial]. rewrite with_client_same.
  now destruct (_ <? _).
Qed.

(** while the attempt counter stays within the maximum, failed dials keep
    the coordinator inside [reconnect] and change nothing else *)
Lemma redial_continues fails : forall s e a b,
  coordinator s = Some (C_reconnect e (RC_backoff a b)) ->
  0 <= a ->
  a + Z.of_nat (length fails) <= maxReconnectAttempts (client s) ->
  maxReconnectAttempts (client s) <= max_uint ->
  Forall (fun f => is_jitter (snd f) = true) fails ->
  exists b',
    run (dial_failures fails) s
    = Ok (with_coordinator
            (Some (C_reconnect e
                     (RC_backoff (a + Z.of_nat (length fails)) b'))) s).
Proof.
  induction fails as [|[err j] fails IH]; intros s e a b Hc Ha Hlen Hmax Hj.
  - cbn. rewrite Z.add_0_r. exists b. rewrite <- Hc. now destruct s.
  - inversion Hj as [|x l Hj1 Hj2]; subst. cbn [snd] in Hj1.
    cbn [length] in *. rewrite Nat2Z.inj_succ in *.
    pose proof (Nat2Z.is_nonneg (length fails)) as Hn.
    cbn [dial_failures map run step fst snd].
    rewrite (reconnectRoutine_failed_dial _ _ _ _ _ _ Hc Hj1).
    rewrite wrap_uint_id by (unfold in_uint; lia).
    destruct (Z.ltb_spec (maxReconnectAttempts (client s)) (a + 1)); [lia|].
    set (s1 := with_coordinator
                 (Some (C_reconnect e
                          (RC_backoff (a + 1) (backoffDuration j (a + 1)))))
                 s).
    assert (H1 : coordinator s1
                 = Some (C_reconnect e
                           (RC_backoff (a + 1) (backoffDuration j (a + 1)))))
      by reflexivity.
    destruct (IH s1 e (a + 1) _ H1) as (b' & Hrun);
      [lia|unfold s1; cbn; lia|exact Hmax|trivial|].
    exists b'. fold (dial_failures fails). rewrite Hrun. subst s1. cbn.
    now replace (a + 1 + Z.of_nat (length fails))
      with (a + Z.succ (Z.of_nat (length fails))) by lia.
Qed.

(** once the client has given up nothing redials: the connection, the run
    state and the flag stay as they are *)
Lemma given_up_step l s s' :
  given_up s -> step l s = Ok s' ->
  given_up s' /\ conn (client s') = conn (client s).
Proof.
  intros (Hrun & Hrec & Hw & Hrd & Hc) H.
  destruct l as [l|l|l|method params|x request pick| | |how];
    cbn [step] in H.
  - unfold writeRoutine in H. rewrite Hw in H. discriminate.
  - unfold readRoutine in H. rewrite Hrd in H. discriminate.
  - unfold reconnectRoutine in H.
    destruct Hc as [Hc|Hc]; rewrite Hc in H; [|discriminate].
    destruct l; try discriminate.
    destruct (Stop_finish (client s)) as [c1| |] eqn:E; try discriminate.
    injection H as <-. unfold Stop_finish in E.
    break_match E. injection E as <-.
    unfold given_up. cbn. auto 10.
  - injection H as <-. unfold given_up. cbn. auto 10.
  - destruct (Send x request pick s) as [[o s1]| |] eqn:E; try discriminate.
    injection H as <-.
    apply Send_Ok in E as [(_ & _ & Hw' & _)|(_ & _ & _ & ->)].
    + congruence.
    + unfold given_up; auto 10.
  - unfold Stop_enter, RunState_Stop in H. rewrite Hrun in H.
    injection H as <-. unfold given_up; auto 10.
  - destruct (stopping s); try discriminate.
    destruct (Stop_finish (client s)) as [c1| |] eqn:E; try discriminate.
    injection H as <-. unfold Stop_finish in E.
    break_match E. injection E as <-.
    unfold given_up. cbn. auto 10.
  - break_match H. injection H as <-. unfold given_up. cbn. auto 10.
Qed.

Lemma given_up_forever ls : forall s s',
  given_up s -> run ls s = Ok s' ->
  given_up s' /\ conn (client s') = conn (client s).
Proof.
  induction ls as [|l ls IH]; intros s s' Hg H; cbn in H.
  - injection H as <-. auto.
  - destruct (step l s) as [s1| |] eqn:E; try discriminate.
    destruct (given_up_step _ _ _ Hg E) as [Hg1 Hk1].
    destruct (IH _ _ Hg1 H) as [Hg' Hk']. split; congruence.
Qed.

Lemma tireless_started_reachable : reachable tireless_started.
Proof.
  apply (reachable_Start tireless_client CtxLive (Dialed 1)).
  - apply (constructed_new (inl example_url) None "/websocket"
             tireless_options).
    reflexivity.
  - reflexivity.
Qed.

Lemma redial_tireless fails : forall s e a b,
  coordinator s = Some (C_reconnect e (RC_backoff a b)) ->
  maxReconnectAttempts (client s) = max_uint ->
  Forall (fun f => is_jitter (snd f) = true) fails ->
  exists a' b',
    run (dial_failures fails) s
    = Ok (with_coordinator (Some (C_reconnect e (RC_backoff a' b'))) s).
Proof.
  induction fails as [|[err j] fails IH]; intros s e a b Hc Hmax Hj.
  - cbn. exists a, b. rewrite <- Hc. now destruct s.
  - inversion Hj as [|x l Hj1 Hj2]; subst. cbn [snd] in Hj1.
    cbn [dial_failures map run step fst snd].
    rewrite (reconnectRoutine_failed_dial _ _ _ _ _ _ Hc Hj1).
    pose proof (wrap_uint_range (a + 1)) as Hw. unfold in_uint in Hw.
    destruct (Z.ltb_spec (maxReconnectAttempts (client s))
                (wrap_uint (a + 1))); [lia|].
    set (s1 := with_coordinator _ s).
    destruct (IH s1 e (wrap_uint (a + 1))
                (backoffDuration j (wrap_uint (a + 1))) eq_refl Hmax Hj2)
      as (a' & b' & Hrun).
    exists a', b'. fold (dial_failures fails). now rewrite Hrun.
Qed.

(** C4, as stated, fails for the largest maximum a [uint] holds: the
    attempt counter wraps before it can exceed it, so however many dials fail
    in a row, 2^64 of them included, the coordinator is still inside
    [reconnect] and the client is still running. *)
Lemma reconnect_never_gives_up :
  maxReconnectAttempts (client (after outage tireless_started)) = max_uint /\
  isRunning (client (after outage tireless_started)) = true /\
  forall fails,
    Forall (fun f => is_jitter (snd f) = true) fails ->
    exists e a b,
      run (dial_failures fails) (after outage tireless_started)
      = Ok (with_coordinator (Some (C_reconnect e (RC_backoff a b)))
              (after outage tireless_started)).
Proof.
  split; [reflexivity|]. split; [reflexivity|].
  intros fails Hj.
  destruct (redial_tireless fails (after outage tireless_started)
              (Some (CloseError CloseAbnormalClosure "unexpected EOF"))
              0 (backoffDuration 0 0) eq_refl eq_refl Hj) as (a & b & H).
  eauto.
Qed.

Lemma Forall_prefix {A} (P : A -> Prop) m : forall l,
  Forall P l -> Forall P (firstn m l).
Proof.
  induction m as [|m IH]; intros l H; cbn; [constructor|].
  destruct H; constructor; auto.
Qed.

Lemma dial_failures_app l1 l2 :
  dial_failures (l1 ++ l2) = dial_failures l1 ++ dial_failures l2.
Proof. apply map_app. Qed.

(** C4, amended: with a maximum of N reconnect attempts, N less than the
    largest [uint], [reconnect] is still redialing after any number of
    consecutive failures up to N; a dial that succeeds ends the loop with the
    new connection; the failure number N + 1 makes it return the error, the
    flag is lowered, the client is stopped ([Stop] closes the response
    channel), the coordinator returns, and from then on no transition of the
    system changes the connection, restarts a worker or sets the flag. *)
Theorem reconnect_gives_up s e b fails err jitter :
  reachable s ->
  coordinator s = Some (C_reconnect e (RC_backoff 0 b)) ->
  0 <= maxReconnectAttempts (client s) < max_uint ->
  Z.of_nat (length fails) = maxReconnectAttempts (client s) ->
  Forall (fun f => is_jitter (snd f) = true) fails ->
  is_jitter jitter = true ->
  (forall m, (m <= length fails)%nat ->
     exists b',
       run (dial_failures (firstn m fails)) s
       = Ok (with_coordinator
               (Some (C_reconnect e (RC_backoff (Z.of_nat m) b'))) s)) /\
  (forall m id, (m <= length fails)%nat ->
     exists s',
       run (dial_failures (firstn m fails)
            ++ [LCoordinator (CReconnect (RCTimer (Dialed id) jitter))]) s
       = Ok s' /\
       coordinator s' = Some C_drain /\
       conn (client s') = Some (new_conn id) /\
       reconnecting (client s') = false /\
       isRunning (client s') = isRunning (client s)) /\
  exists s',
    run (dial_failures (fails ++ [(err, jitter)])) s = Ok s' /\
    given_up s' /\
    IsActive (client s') = false /\
    conn (client s') = conn (client s) /\
    (isRunning (client s) = true ->
     exists s'',
       reconnectRoutine CStopped s' = Ok s'' /\
       coordinator s'' = None /\
       Chan.is_closed (ResponsesCh (client s'')) = true) /\
    (forall ls t,
       run ls s' = Ok t -> given_up t /\ conn (client t) = conn (client s)).
Proof.
  intros Hr Hc Hmax Hlen Hj Hjit.
  apply reachable_invariant in Hr.
  assert (Hprefix : forall m, (m <= length fails)%nat ->
            exists b',
              run (dial_failures (firstn m fails)) s
              = Ok (with_coordinator
                      (Some (C_reconnect e (RC_backoff (Z.of_nat m) b'))) s)).
  { intros m Hm.
    destruct (redial_continues (firstn m fails) s e 0 b Hc) as (b' & H);
      try lia.
    - rewrite length_firstn. lia.
    - now apply Forall_prefix.
    - rewrite length_firstn, Nat.min_l in H by trivial.
      exists b'. exact H. }
  split; [exact Hprefix|]. split.
  - intros m id Hm. destruct (Hprefix m Hm) as (b' & H).
    rewrite run_app, H. cbn [run step].
    unfold reconnectRoutine, reconnect. cbn. rewrite Hjit.
    eexists. split; [reflexivity|]. cbn.
    destruct (onReconnect (client s)); cbn; auto.
  - destruct (Hprefix (length fails) (Nat.le_refl _)) as (b' & H).
    rewrite firstn_all in H.
    rewrite dial_failures_app, run_app, H. cbn [dial_failures map run step].
    erewrite reconnectRoutine_failed_dial by (reflexivity || exact Hjit).
    cbn [client with_coordinator fst snd].
    rewrite wrap_uint_id by (unfold in_uint; lia).
    destruct (Z.ltb_spec (maxReconnectAttempts (client s))
                (Z.of_nat (length fails) + 1)); [|lia].
    destruct (inv_recovering s Hr) as [Hw Hrd]; [now rewrite Hc|].
    pose proof (inv_wg s Hr) as Hwg. rewrite Hw, Hrd in Hwg.
    destruct (inv_responses s Hr) as (cl & Hresp).
    pose proof (inv_open s Hr) as Hopen.
    unfold Stop_enter, RunState_Stop, reconnect_return.
    cbn [client with_client with_coordinator isRunning set_reconnecting].
    assert (Hfinal : forall s',
              given_up s' -> conn (client s') = conn (client s) ->
              forall ls t, run ls s' = Ok t ->
                given_up t /\ conn (client t) = conn (client s)).
    { intros s' Hg Hk ls t Ht.
      destruct (given_up_forever ls _ _ Hg Ht). split; congruence. }
    destruct (isRunning (client s)) eqn:Hrun.
    + eexists. split; [reflexivity|].
      assert (Hg : given_up
                (with_coordinator (Some C_stop)
                   (with_client
                      (set_isRunning false
                         (set_reconnecting false (client s)))
                      (with_client (set_reconnecting false (client s))
                         (with_coordinator
                            (Some (C_reconnect e
                                     (RC_backoff
                                        (Z.of_nat (length fails)) b'))) s)))))
        by (unfold given_up; cbn; auto 10).
      split; [exact Hg|]. split; [reflexivity|]. split; [reflexivity|].
      split; [|now apply Hfinal].
      intros _. specialize (Hopen (or_introl eq_refl)).
      rewrite Hresp in Hopen. cbn in Hopen. subst cl.
      unfold reconnectRoutine, Stop_finish. cbn.
      rewrite Hwg, Hresp. cbn. eauto.
    + eexists. split; [reflexivity|].
      assert (Hg : given_up
                (with_coordinator None
                   (with_client (set_reconnecting false (client s))
                      (with_coordinator
                         (Some (C_reconnect e
                                  (RC_backoff
                                     (Z.of_nat (length fails)) b'))) s))))
        by (unfold given_up; cbn; auto 10).
      split; [exact Hg|]. split; [unfold IsActive; cbn; now rewrite Hrun|].
      split; [reflexivity|].
      split; [discriminate|now apply Hfinal].
Qed.

Lemma reconnect_gives_up_witness :
  exists s',
    run (dial_failures (repeat (refused, 0) 10 ++ [(refused, 0)]))
        (after outage example_started) = Ok s' /\
    given_up s'.
Proof.
  destruct (reconnect_gives_up (after outage example_started)
              (Some (CloseError CloseAbnormalClosure "unexpected EOF"))
              (backoffDuration 0 0) (repeat (refused, 0) 10) refused 0
              (after_reachable _ _ example_started_reachable) eq_refl)
    as (_ & _ & s' & H & Hg & _).
  - vm_compute; split; [discriminate|reflexivity].
  - reflexivity.
  - repeat constructor.
  - reflexivity.
  - exists s'. split; assumption.
Defined.

(** ** The backlog entry goes first (C5) *)

Lemma reachable_backlog s :
  reachable s ->
  Chan.cap (backlog (client s)) = 1%nat /\
  (length (Chan.buffered (backlog (client s))) <= 1)%nat.
Proof.
  intros Hr. apply reachable_invariant in Hr.
  destruct (inv_backlog s Hr) as (buf & -> & Hlen). auto.
Qed.

(** what [reconnect] leaves alone, and where a return without error
    comes from: a done context or a fresh connection *)
Lemma reconnect_frame l pc s s' p :
  reconnect l pc s = Ok (s', p) ->
  writer s' = writer s /\ reader s' = reader s /\ ctx s' = ctx s /\
  coordinator s' = coordinator s /\
  backlog (client s') = backlog (client s) /\
  isRunning (client s') = isRunning (client s) /\
  match p with
  | Returned None => ctx_Done (ctx s) = true \/ unwritten (client s')
  | _ => True
  end.
Proof.
  unfold reconnect, reconnect_return, dial.
  destruct pc as [a b], l as [|[id|err] j].
  - destruct (ctx_Done (ctx s)) eqn:E; try discriminate.
    intros [= <- <-]. cbn. auto 10.
  - destruct (is_jitter j); try discriminate.
    destruct (onReconnect _); intros [= <- <-]; cbn;
      repeat split; right; eexists; split; reflexivity.
  - destruct (is_jitter j); try discriminate.
    destruct (_ <? _); intros [= <- <-]; cbn; auto 10.
Qed.

Ltac still_awaiting :=
  left; unfold awaiting_resend, unwritten in *; cbn in *;
  repeat match goal with
         | Hc : coordinator ?s = _ |- context [coordinator ?s] => rewrite Hc
         end;
  repeat split; auto; try tauto.

Lemma awaiting_resend_coordinator request l s s' :
  invariant s -> awaiting_resend request s ->
  reconnectRoutine l s = Ok s' ->
  awaiting_resend request s' \/ restarted_with request s'.
Proof.
  intros Hi (Hw & Hrd & Ha) H.
  destruct (inv_backlog s Hi) as (bb & Hbb & Hbl).
  destruct (inv_reconnectAfter s Hi) as (rb & Hrb & Hrl).
  pose proof (inv_resend s Hi) as Hres.
  unfold reconnectRoutine in H.
  destruct (coordinator s) as [[|e|e [a b]| | |pc]|] eqn:Hc;
    destruct l as [| | |l| | | | |l]; try discriminate.
  - (* CQuit *)
    break_match H. injection H as <-. still_awaiting.
  - (* CFailure *)
    rewrite Hrb in H. destruct rb; try discriminate.
    injection H as <-. still_awaiting.
  - (* CJoined *)
    destruct (wg (client s)); try discriminate.
    destruct (is_jitter jitter); try discriminate.
    unfold reconnect_enter in H. injection H as <-. still_awaiting.
  - (* CReconnect *)
    destruct (reconnect l (RC_backoff a b) s) as [[s1 p]| |] eqn:E;
      try discriminate.
    apply reconnect_frame in E as (Hw1 & Hrd1 & Hx1 & _ & Hb1 & _ & Hp).
    rewrite <- Hw1 in Hw. rewrite <- Hrd1 in Hrd. rewrite <- Hb1 in Ha.
    destruct p as [pc1|[err|]].
    + injection H as <-. still_awaiting.
    + unfold Stop_enter, RunState_Stop in H.
      destruct (isRunning (client s1)); injection H as <-; still_awaiting.
    + injection H as <-. rewrite <- Hx1 in Hp. still_awaiting.
  - (* CStopped *)
    destruct (Stop_finish (client s)); try discriminate.
    injection H as <-. still_awaiting.
  - (* CDrainQuit *)
    break_match H. injection H as <-. still_awaiting.
  - (* CDrainOne *)
    rewrite Hrb in H. destruct rb; try discriminate.
    injection H as <-. still_awaiting.
  - (* CDrained *)
    destruct (ctx_Done (ctx s)) eqn:Hx; try discriminate.
    cbn [orb] in H. break_match H. injection H as <-.
    destruct Ha as [Hb [Hd|Hu]]; try discriminate.
    still_awaiting.
  - (* CBacklog *)
    cbn [resending] in Hres.
    destruct pc as [|r|err r|err r], l as [|now res| |];
      try discriminate; unfold processBacklog in H.
    + (* the select *)
      destruct Ha as [Hb Hu]. rewrite Hbb in H, Hb. cbn in Hb. subst bb.
      cbn in H. injection H as <-. still_awaiting.
    + (* the write *)
      destruct Ha as [-> (k & Hk & Hwr)]. destruct Hres as [_ Hb].
      rewrite Hbb in Hb. cbn in Hb. subst bb.
      rewrite Hk in H.
      destruct res as [err|]; injection H as <-.
      * still_awaiting.
      * right. unfold restarted_with, startReadWriteRoutines. cbn.
        rewrite Hbb. repeat split; trivial.
        eexists. split; [reflexivity|].
        unfold frames, with_write_deadline.
        destruct (0 <? writeWait (client s)); cbn; now rewrite Hwr.
    + (* the signal *)
      destruct Hres as [Hr0 _]. rewrite Hrb in H, Hr0. cbn in Hr0.
      subst rb. cbn in H. injection H as <-. still_awaiting.
    + (* the requeue *)
      rewrite Hbb in H, Hres. cbn in Hres. subst bb r. cbn in H.
      injection H as <-. still_awaiting.
Qed.

Lemma awaiting_resend_step request l s s' :
  invariant s -> awaiting_resend request s ->
  step l s = Ok s' ->
  awaiting_resend request s' \/ restarted_with request s'.
Proof.
  intros Hi Ha H.
  destruct l as [l|l|l|method params|x r pick| | |how]; cbn [step] in H.
  - destruct Ha as (Hw & _). unfold writeRoutine in H.
    rewrite Hw in H. discriminate.
  - destruct Ha as (_ & Hrd & _). unfold readRoutine in H.
    rewrite Hrd in H. discriminate.
  - eapply awaiting_resend_coordinator; eauto.
  - injection H as <-. destruct Ha as (Hw & Hrd & Ha).
    left. unfold awaiting_resend, unwritten in *. cbn. auto.
  - destruct (Send x r pick s) as [[o s1]| |] eqn:E; try discriminate.
    injection H as <-. destruct Ha as (Hw & Hrd & Ha).
    apply Send_Ok in E as [(_ & _ & Hw' & _)|(_ & _ & _ & ->)].
    + congruence.
    + left. now repeat split.
  - unfold Stop_enter, RunState_Stop in H.
    destruct Ha as (Hw & Hrd & Ha).
    destruct (isRunning (client s)); injection H as <-;
      left; unfold awaiting_resend, unwritten in *; cbn; auto.
  - destruct (stopping s); try discriminate.
    destruct (Stop_finish (client s)) as [c1| |] eqn:E; try discriminate.
    injection H as <-. unfold Stop_finish in E.
    break_match E. injection E as <-.
    destruct Ha as (Hw & Hrd & Ha).
    left. unfold awaiting_resend, unwritten in *. cbn. auto.
  - destruct (ctx_Done how) eqn:Hd; try discriminate.
    destruct (negb _); try discriminate. injection H as <-.
    destruct Ha as (Hw & Hrd & Ha).
    left. unfold awaiting_resend. cbn. repeat split; trivial.
    destruct (coordinator s) as [[| | | | |[| | |]]|]; trivial.
    destruct Ha; auto.
Qed.

Lemma awaiting_resend_first_start request ls : forall s t,
  invariant s -> awaiting_resend request s ->
  first_start ls s = Ok (Some t) ->
  restarted_with request t.
Proof.
  induction ls as [|l ls IH]; intros s t Hi Ha H;
    pose proof Ha as (Hw & _); cbn in H; rewrite Hw in H.
  - discriminate.
  - destruct (step l s) as [s1| |] eqn:E; try discriminate.
    pose proof (step_invariant _ _ _ Hi E) as Hi1.
    destruct (awaiting_resend_step _ _ _ _ Hi Ha E) as [Ha1|Hg].
    + eapply IH; eauto.
    + pose proof Hg as (Hw1 & _).
      destruct ls; cbn in H; rewrite Hw1 in H; now injection H as <-.
Qed.

(** C5: the backlog of a started client has capacity one and never holds
    more than one request.  After a successful redial made while a request
    sits in the backlog, whatever the schedule, in the first state in which
    the worker pair runs again the connection carries exactly one frame, that
    request, and the backlog is empty: the entry was written before the
    workers were started, first on the new connection.  While the context is
    live there is a schedule that gets there. *)
Theorem backlog_resent_first s e pc request id jitter s1 :
  reachable s ->
  coordinator s = Some (C_reconnect e pc) ->
  Chan.buffered (backlog (client s)) = [request] ->
  reconnectRoutine (CReconnect (RCTimer (Dialed id) jitter)) s = Ok s1 ->
  (forall t, reachable t ->
     Chan.cap (backlog (client t)) = 1%nat /\
     (length (Chan.buffered (backlog (client t))) <= 1)%nat) /\
  conn (client s1) = Some (new_conn id) /\
  Chan.buffered (backlog (client s1)) = [request] /\
  writer s1 = None /\ reader s1 = None /\
  (forall ls t,
     first_start ls s1 = Ok (Some t) -> restarted_with request t) /\
  (ctx_Done (ctx s) = false ->
   exists ls t, first_start ls s1 = Ok (Some t)).
Proof.
  intros Hr Hc Hb H.
  assert (Hr1 : reachable s1)
    by (apply (reachable_step s (LCoordinator _) s1 Hr H)).
  pose proof (reachable_invariant _ Hr) as Hi.
  pose proof (reachable_invariant _ Hr1) as Hi1.
  destruct (inv_recovering s Hi) as [Hw Hrd]; [now rewrite Hc|].
  split; [exact reachable_backlog|].
  unfold reconnectRoutine in H. rewrite Hc in H.
  unfold reconnect, reconnect_return, dial in H. destruct pc as [a b].
  destruct (is_jitter jitter); try discriminate.
  assert (Hs1 : conn (client s1) = Some (new_conn id) /\
                backlog (client s1) = backlog (client s) /\
                reconnectAfter (client s1) = reconnectAfter (client s) /\
                writer s1 = None /\ reader s1 = None /\
                ctx s1 = ctx s /\ coordinator s1 = Some C_drain).
  { destruct (onReconnect _); injection H as <-; cbn; auto 10. }
  clear H. destruct Hs1 as (Hk1 & Hb1 & Hra1 & Hw1 & Hrd1 & Hx1 & Hc1).
  assert (Ha : awaiting_resend request s1).
  { unfold awaiting_resend. rewrite Hc1, Hb1. repeat split; trivial.
    right. eexists. split; [exact Hk1|reflexivity]. }
  split; [exact Hk1|]. split; [now rewrite Hb1|].
  split; [exact Hw1|]. split; [exact Hrd1|]. split.
  - intros ls t Ht. eapply awaiting_resend_first_start; eauto.
  - intros Hlive. rewrite <- Hx1 in Hlive.
    destruct (inv_backlog s1 Hi1) as (bb & Hbb & _).
    assert (bb = [request])
      by (rewrite <- Hb1, Hbb in Hb; exact Hb).
    subst bb.
    destruct (inv_reconnectAfter s1 Hi1) as (rb & Hrb & Hrl).
    assert (Hgo : forall s2,
              writer s2 = None -> coordinator s2 = Some C_drain ->
              ctx_Done (ctx s2) = false ->
              conn (client s2) = Some (new_conn id) ->
              backlog (client s2) = Chan.Made 1 [request] false ->
              reconnectAfter (client s2) = Chan.Made 1 [] false ->
              exists t,
                first_start [LCoordinator CDrained;
                             LCoordinator (CBacklog BSelect);
                             LCoordinator (CBacklog (BWrite 0 None))] s2
                = Ok (Some t)).
    { intros s2 Hw2 Hc2 Hx2 Hk2 Hb2 Hr2.
      cbn [first_start step]. rewrite Hw2.
      assert (Hd : reconnectRoutine CDrained s2
                   = Ok (with_coordinator (Some (C_backlog B_select)) s2)).
      { unfold reconnectRoutine. now rewrite Hc2, Hx2, Hr2. }
      rewrite Hd. cbn [writer with_coordinator]. rewrite Hw2.
      erewrite reconnectRoutine_backlog by reflexivity.
      erewrite processBacklog_take by exact Hb2.
      cbn [writer with_coordinator with_client]. rewrite Hw2.
      erewrite reconnectRoutine_backlog by reflexivity.
      erewrite processBacklog_write by exact Hk2.
      cbn. eauto. }
    destruct rb as [|x [|y rb]]; simpl in Hrl; try lia.
    + destruct (Hgo s1) as (t & Ht); eauto.
    + exists (LCoordinator CDrainOne
              :: [LCoordinator CDrained;
                  LCoordinator (CBacklog BSelect);
                  LCoordinator (CBacklog (BWrite 0 None))]).
      cbn [first_start]. rewrite Hw1. cbn [step].
      assert (Hd : reconnectRoutine CDrainOne s1
                   = Ok (with_client
                           (set_reconnectAfter (Chan.Made 1 [] false)
                              (client s1)) s1)).
      { unfold reconnectRoutine. now rewrite Hc1, Hrb. }
      rewrite Hd. apply Hgo; cbn; trivial.
Qed.

Lemma backlog_resent_first_witness :
  exists t,
    first_start [LCoordinator CDrained;
                 LCoordinator (CBacklog BSelect);
                 LCoordinator (CBacklog (BWrite 200 None))]
      (after (failed_send ++ firstn 3 reconnected) example_started)
    = Ok (Some t) /\
    restarted_with example_request t.
Proof.
  assert (H1 : coordinator
                 (after (failed_send ++ firstn 2 reconnected) example_started)
               = Some (C_reconnect (Some broken_pipe)
                         (RC_backoff 0 (backoffDuration 0 0))))
    by (vm_compute; reflexivity).
  assert (H2 : Chan.buffered
                 (backlog
                    (client (after (failed_send ++ firstn 2 reconnected)
                               example_started)))
               = [example_request])
    by (vm_compute; reflexivity).
  assert (H3 : reconnectRoutine (CReconnect (RCTimer (Dialed 2) 0))
                 (after (failed_send ++ firstn 2 reconnected) example_started)
               = Ok (after (failed_send ++ firstn 3 reconnected)
                       example_started))
    by (vm_compute; reflexivity).
  destruct (backlog_resent_first _ _ _ _ _ _ _
              (after_reachable _ _ example_started_reachable) H1 H2 H3)
    as (_ & _ & _ & _ & _ & H & _).
  eexists. split; [vm_compute; reflexivity|].
  apply (H [LCoordinator CDrained;
            LCoordinator (CBacklog BSelect);
            LCoordinator (CBacklog (BWrite 200 None))]).
  vm_compute; reflexivity.
Defined.

(** * Further properties *)

(** ** The bookkeeping *)

Lemma constructed_fresh c :
  constructed c ->
  isRunning c = false /\ conn c = None /\ reconnecting c = false /\
  send c = Chan.Nil /\ backlog c = Chan.Nil /\
  reconnectAfter c = Chan.Nil /\ ResponsesCh c = Chan.Nil /\
  readRoutineQuit c = Chan.Nil /\
  (protocol c = protoWS \/ protocol c = protoWSS).
Proof.
  induction 1 as [parsed dialFn endpoint opts c H|c _ IH]; trivial.
  unfold NewWSWithOptions in H.
  destruct parsed as [u|]; try discriminate.
  destruct dialFn; try discriminate.
  injection H as <-. cbn.
  destruct (String.eqb (Scheme u) protoWSS); auto 10.
Qed.

Lemma deadline_ok_config c c' fd :
  writeWait c' = writeWait c -> deadline_ok c fd -> deadline_ok c' fd.
Proof. unfold deadline_ok. now intros ->. Qed.

Lemma wire_ok_config c c' k :
  configuration c' = configuration c -> wire_ok c k -> wire_ok c' k.
Proof.
  intros E [Hp Hc Hd Hw Hr].
  injection E as _ _ _ _ Ew Er Ep _ _.
  constructor; rewrite ?Ew, ?Er, ?Ep; trivial.
  eapply Forall_impl; [|exact Hd]. intros fd. now apply deadline_ok_config.
Qed.

Lemma wire_ok_new c id : wire_ok c (new_conn id).
Proof.
  constructor; cbn; auto.
  - intros code [].
Qed.

Lemma wire_ok_Close c k : wire_ok c k -> wire_ok c (conn_Close k).
Proof. intros []. constructor; trivial. Qed.

Lemma wire_ok_read now c k :
  wire_ok c k -> wire_ok c (with_read_deadline now c k).
Proof.
  intros H. unfold with_read_deadline.
  destruct (0 <? readWait c) eqn:E; trivial.
  destruct H. constructor; trivial. congruence.
Qed.

Lemma frames_write f res k :
  frames (conn_write f res k)
  = match res with None => frames k ++ [f] | Some _ => frames k end.
Proof.
  unfold frames, conn_write. destruct res; trivial.
  cbn. now rewrite map_app.
Qed.

(** a request or a ping written the way the workers do: after the deadline *)
Lemma wire_ok_write f now res c k :
  wire_ok c k ->
  match f with
  | JSONFrame _ => True
  | PingFrame => (0 <? pingPeriod c) = true
  | CloseFrame _ => False
  end ->
  wire_ok c (conn_write f res (with_write_deadline now c k)).
Proof.
  intros H Hf.
  assert (Hk : wire_ok c (with_write_deadline now c k)).
  { unfold with_write_deadline. destruct (0 <? writeWait c) eqn:E; trivial.
    destruct H. constructor; trivial; congruence. }
  destruct res as [err|]; [exact Hk|].
  destruct Hk as [Hp' Hc' Hd' Hw' Hr'].
  constructor; rewrite ?frames_write; cbn [conn_write written writeDeadline readDeadline]; trivial.
  - intros E Hin. apply in_app_or in Hin as [Hin|[->|[]]]; [now apply Hp'|].
    congruence.
  - intros code Hin. apply in_app_or in Hin as [Hin|[->|[]]]; [now apply Hc'|].
    contradiction.
  - apply Forall_app. split; trivial. constructor; [|constructor].
    unfold deadline_ok. cbn [fst snd].
    destruct (0 <? writeWait c) eqn:E; [|auto].
    unfold with_write_deadline. rewrite E.
    destruct f; trivial; discriminate.
Qed.

(** the close frame of line 429, written without setting a deadline *)
Lemma wire_ok_goodbye res c k :
  wire_ok c k -> wire_ok c (conn_write (CloseFrame CloseNormalClosure) res k).
Proof.
  intros [Hp Hc Hd Hw Hr]. destruct res as [err|]; [now constructor|].
  constructor; rewrite ?frames_write; cbn [conn_write written writeDeadline readDeadline]; trivial.
  - intros E Hin. apply in_app_or in Hin as [Hin|[?|[]]]; [now apply Hp|].
    discriminate.
  - intros code Hin. apply in_app_or in Hin as [Hin|[[= <-]|[]]]; auto.
  - apply Forall_app. split; trivial. constructor; [|constructor].
    unfold deadline_ok. cbn [fst snd].
    destruct (0 <? writeWait c) eqn:E; auto.
Qed.

Lemma send_buffered {A} (v : A) ch ch' :
  Chan.send v ch = Ok ch' -> Chan.buffered ch' = Chan.buffered ch ++ [v].
Proof. intros H. apply send_Ok in H as (n & b & -> & -> & _). reflexivity. Qed.

Lemma recv_buffered {A} (ch : chan A) r ch' :
  Chan.recv ch = Ok (r, ch') -> Chan.is_closed ch = false ->
  exists v, r = Some v /\ Chan.buffered ch = v :: Chan.buffered ch'.
Proof.
  intros H Hcl.
  apply recv_Ok in H as (n & b & cl & -> & [(v & -> & -> & ->)|(_ & -> & _)]).
  - eauto.
  - discriminate.
Qed.

Ltac simpl_fields :=
  cbn [client ctx writer reader coordinator delivered callbacks stopping
       with_client with_ctx with_writer with_reader with_coordinator
       with_delivered with_callbacks with_stopping
       isRunning conn Address Endpoint ResponsesCh onReconnect send backlog
       reconnectAfter readRoutineQuit maxReconnectAttempts protocol wg
       sentLastPingAt reconnecting nextReqID writeWait readWait pingPeriod
       skipMetrics
       set_isRunning set_conn set_ResponsesCh set_send set_backlog
       set_reconnectAfter set_readRoutineQuit set_wg set_sentLastPingAt
       set_reconnecting set_nextReqID set_onReconnect] in *.

Lemma Ok_inj {A} (a b : A) : Ok a = Ok b -> a = b.
Proof. now intros [= ->]. Qed.

Ltac buffered_facts :=
  repeat match goal with
         | H : Chan.send _ _ = Ok _ |- _ => apply send_buffered in H
         end.

Lemma Some_inj {A} (a b : A) : Some a = Some b -> a = b.
Proof. now intros [= ->]. Qed.

(* the connection after a transition, against the one before *)
Ltac wire_auto :=
  match goal with
  | Hw : forall k, _ = Some k -> wire_ok (client ?s) k
    |- forall k', _ = Some k' -> wire_ok _ k' =>
      let k' := fresh "k" in
      let E := fresh "E" in
      intros k' E;
      apply (wire_ok_config (client s)); [reflexivity|];
      first [ now apply Hw
            | apply Some_inj in E; subst k';
              repeat first [ now apply Hw
                           | apply wire_ok_new
                           | apply wire_ok_Close
                           | apply wire_ok_goodbye
                           | apply wire_ok_read
                           | apply wire_ok_write;
                             [|solve [exact I | assumption]] ] ]
  end.

(* the signals after a transition, against the bound before *)
Ltac signals_auto :=
  repeat match goal with
         | H : Chan.buffered _ = _ |- _ => rewrite H in *
         end;
  try match goal with
      | H : writer _ = _ |- _ => rewrite H in *
      end;
  try match goal with
      | H : reader _ = _ |- _ => rewrite H in *
      end;
  repeat rewrite length_app in *;
  try match goal with
      | |- match coordinator ?s with _ => _ end =>
          destruct (coordinator s) as [[| | | | |]|]
      end;
  cbn [may_signal live length] in *; trivial; try lia.

Ltac bk_auto :=
  trivial; try discriminate; try congruence;
  try (intros _; auto; fail);
  try (intros; exfalso; auto; fail);
  try match goal with
      | Hbl : _ <> None -> ?P |- _ -> ?P => intros _; apply Hbl; congruence
      end;
  try (apply Forall_app; split; auto; fail);
  try wire_auto;
  try signals_auto.

Lemma writeRoutine_bookkeeping l s s' :
  invariant s -> bookkeeping s -> writeRoutine l s = Ok s' -> bookkeeping s'.
Proof.
  intros Hi Hb H.
  assert (Hnr : recovering (coordinator s) = false).
  { apply working_not_recovering; trivial. left.
    unfold writeRoutine in H. destruct (writer s); discriminate. }
  destruct Hb as [Hp Hcb Hf Hbl Hsig Hdl Hdd Hwire].
  unfold signals in Hsig.
  unfold writeRoutine, writeRoutine_exit in H.
  destruct (writer s) as [[| | |]|] eqn:Hw; destruct l; try discriminate;
    simpl_fields; break_match H; apply Ok_inj in H; subst s';
    buffered_facts;
    constructor; unfold signals; simpl_fields; bk_auto.
Qed.

Lemma readRoutine_bookkeeping l s s' :
  invariant s -> bookkeeping s -> readRoutine l s = Ok s' -> bookkeeping s'.
Proof.
  intros Hi Hb H.
  assert (Hnr : recovering (coordinator s) = false).
  { apply working_not_recovering; trivial. right.
    unfold readRoutine in H. destruct (reader s); discriminate. }
  destruct Hb as [Hp Hcb Hf Hbl Hsig Hdl Hdd Hwire].
  unfold signals in Hsig.
  unfold readRoutine, readRoutine_exit in H.
  destruct (reader s) as [[| |]|] eqn:Hrd; destruct l; try discriminate;
    simpl_fields; break_match H; apply Ok_inj in H; subst s';
    buffered_facts;
    constructor; unfold signals; simpl_fields; bk_auto.
Qed.

Ltac recv_facts :=
  repeat match goal with
         | H : Chan.recv ?ch = Ok _ |- _ =>
             let v := fresh "v" in
             apply recv_buffered in H as (v & -> & H);
             [|match goal with
               | E : ch = _ |- _ => now rewrite E
               end]
         end.

Lemma reconnectRoutine_bookkeeping l s s' :
  invariant s -> bookkeeping s -> reconnectRoutine l s = Ok s' ->
  bookkeeping s'.
Proof.
  intros Hi Hb H.
  pose proof (inv_recovering s Hi) as Hrec.
  pose proof (inv_resend s Hi) as Hres.
  pose proof (inv_wg s Hi) as Hwg.
  destruct (inv_reconnectAfter s Hi) as (rb & Hrb & Hrbl).
  destruct (inv_backlog s Hi) as (bb & Hbb & Hbbl).
  destruct Hb as [Hp Hcb Hf Hbl Hsig Hdl Hdd Hwire].
  unfold signals in Hsig.
  unfold reconnectRoutine in H.
  destruct (coordinator s) as [[|e|e pc| | |pc]|] eqn:Hc;
    destruct l; try discriminate; cbn [recovering redialing resending] in *.
  - (* CQuit *)
    break_match H; apply Ok_inj in H; subst s'.
    constructor; unfold signals; simpl_fields; bk_auto.
  - (* CFailure *)
    destruct (Chan.recv _) as [[o ch]| |] eqn:E; try discriminate.
    apply Ok_inj in H; subst s'. recv_facts.
    constructor; unfold signals; simpl_fields; bk_auto.
  - (* CJoined *)
    destruct (wg (client s)) eqn:Ewg; try discriminate.
    destruct (is_jitter jitter); try discriminate.
    unfold reconnect_enter in H. apply Ok_inj in H; subst s'.
    constructor; unfold signals; simpl_fields; bk_auto.
  - (* CReconnect *)
    destruct (Hrec eq_refl) as [Hw0 Hr0].
    destruct (reconnect l pc s) as [[s1 [pc1|[err|]]]| |] eqn:E;
      try discriminate;
      unfold reconnect, reconnect_return, dial in E;
      destruct pc as [a b], l as [|[id|err'] j]; simpl_fields;
      break_match E; apply Ok_inj in E;
      apply pair_equal_spec in E as [<- E]; try discriminate E;
      unfold Stop_enter, RunState_Stop in H; simpl_fields;
      destruct (isRunning (client s)) eqn:Erun;
      break_match H; apply Ok_inj in H; subst s';
      constructor; unfold signals; simpl_fields; bk_auto.
  - (* CStopped *)
    destruct (Stop_finish (client s)) as [c1| |] eqn:E; try discriminate.
    unfold Stop_finish in E. break_match E. apply Ok_inj in E; subst c1.
    apply Ok_inj in H; subst s'.
    constructor; unfold signals; simpl_fields; bk_auto.
  - (* CDrainQuit *)
    break_match H; apply Ok_inj in H; subst s'.
    constructor; unfold signals; simpl_fields; bk_auto.
  - (* CDrainOne *)
    destruct (Chan.recv _) as [[o ch]| |] eqn:E; try discriminate.
    apply Ok_inj in H; subst s'. recv_facts.
    constructor; unfold signals; simpl_fields; rewrite ?Hc; bk_auto.
  - (* CDrained *)
    break_match H; apply Ok_inj in H; subst s'.
    constructor; unfold signals; simpl_fields; bk_auto.
  - (* CBacklog *)
    destruct (Hrec eq_refl) as [Hw0 Hr0].
    destruct (processBacklog l pc (client s)) as [[c1 [pc1|[err|]]]| |] eqn:E;
      try discriminate; apply Ok_inj in H; subst s';
      unfold processBacklog in E;
      destruct pc as [|r|e r|e r], l as [|now res| |]; try discriminate;
      try rewrite Hbb in Hres; try rewrite Hrb in Hres;
      try rewrite Hbb in E; try rewrite Hrb in E;
      cbn [Chan.buffered] in Hres;
      try match type of Hres with
          | _ /\ _ => destruct Hres as [Hres1 Hres2]
          end;
      subst;
      break_match E; apply Ok_inj in E;
      apply pair_equal_spec in E as [<- E]; try discriminate E;
      try match goal with
          | B : Chan.recv (Chan.Made _ ?b _) = Block |- _ =>
              destruct b; [|discriminate B]
          end;
      unfold startReadWriteRoutines;
      constructor; unfold signals; simpl_fields;
      rewrite ?Hbb, ?Hrb in *; cbn [Chan.buffered length] in *; bk_auto.
Qed.

Lemma Start_bookkeeping c x r s :
  constructed c -> Start x r (idle c) = (None, s) -> bookkeeping s.
Proof.
  intros Hc. apply constructed_fresh in Hc
    as (Hrun & Hk & Hrec & _ & _ & _ & _ & _ & Hp).
  unfold Start, RunState_Start, dial, startReadWriteRoutines.
  cbn [client idle]. rewrite Hrun. destruct r as [id|err]; try discriminate.
  intros [= <-].
  constructor; unfold signals; simpl_fields; cbn [idle]; bk_auto.
  intros k [= <-]. apply wire_ok_new.
Qed.

Lemma step_bookkeeping l s s' :
  invariant s -> bookkeeping s -> step l s = Ok s' -> bookkeeping s'.
Proof.
  intros Hi Hb H. destruct l as [l|l|l|method params|x request pick| | |how];
    cbn [step] in H.
  - eapply writeRoutine_bookkeeping; eauto.
  - eapply readRoutine_bookkeeping; eauto.
  - eapply reconnectRoutine_bookkeeping; eauto.
  - apply Ok_inj in H; subst s'. destruct Hb.
    unfold Call_request, nextRequestID.
    constructor; unfold signals in *; simpl_fields; bk_auto.
  - destruct (Send x request pick s) as [[e s1]| |] eqn:E; try discriminate.
    apply Ok_inj in H; subst s1.
    apply Send_Ok in E as [(_ & _ & Hw & _ & ->)|(_ & _ & _ & ->)]; trivial.
    destruct Hb as [Hp Hcb Hf Hbl Hsig Hdl Hdd Hwire].
    constructor; unfold signals in *; simpl_fields; bk_auto.
  - unfold Stop_enter, RunState_Stop in H.
    destruct (isRunning (client s)); apply Ok_inj in H; subst s'; trivial.
    destruct Hb.
    constructor; unfold signals in *; simpl_fields; bk_auto.
  - destruct (stopping s) as [|n]; try discriminate.
    destruct (Stop_finish (client s)) as [c| |] eqn:E; try discriminate.
    apply Ok_inj in H; subst s'. unfold Stop_finish in E.
    break_match E. apply Ok_inj in E; subst c.
    destruct Hb.
    constructor; unfold signals in *; simpl_fields; bk_auto.
  - break_match H. apply Ok_inj in H; subst s'. destruct Hb.
    constructor; unfold signals in *; simpl_fields; bk_auto.
Qed.

Lemma reachable_bookkeeping s : reachable s -> bookkeeping s.
Proof.
  induction 1 as [c x r s Hc HS|s l s' Hr IH Hstep].
  - eapply Start_bookkeeping; eauto.
  - eapply step_bookkeeping; eauto using reachable_invariant.
Qed.

(** ** What a transition leaves alone *)

Lemma readRoutine_frame l s s' :
  readRoutine l s = Ok s' ->
  configuration (client s') = configuration (client s) /\
  callbacks s' = callbacks s /\
  ResponsesCh (client s') = ResponsesCh (client s) /\
  exists more, delivered s' = delivered s ++ more.
Proof.
  unfold readRoutine, readRoutine_exit. intros H.
  destruct (reader s) as [[| |]|], l; try discriminate;
    simpl_fields; break_match H; apply Ok_inj in H; subst s';
    simpl_fields; repeat split; trivial;
    solve [exists []; now rewrite app_nil_r | eexists; reflexivity].
Qed.

Lemma writeRoutine_frame l s s' :
  writeRoutine l s = Ok s' ->
  configuration (client s') = configuration (client s) /\
  callbacks s' = callbacks s /\
  ResponsesCh (client s') = ResponsesCh (client s) /\
  delivered s' = delivered s.
Proof.
  unfold writeRoutine, writeRoutine_exit. intros H.
  destruct (writer s) as [[| | |]|], l; try discriminate;
    simpl_fields; break_match H; apply Ok_inj in H; subst s';
    simpl_fields; auto.
Qed.

Lemma reconnectRoutine_frame l s s' :
  reconnectRoutine l s = Ok s' ->
  configuration (client s') = configuration (client s) /\
  callbacks s' = (callbacks s + launched l s)%nat /\
  (ResponsesCh (client s') = ResponsesCh (client s) \/
   l = CStopped /\ closes_ResponsesCh (client s) (client s')) /\
  delivered s' = delivered s.
Proof.
  intros H. unfold reconnectRoutine in H.
  destruct (coordinator s) as [[|e|e pc| | |pc]|] eqn:Hc;
    destruct l; try discriminate; cbn [launched].
  - break_match H; apply Ok_inj in H; subst s'; simpl_fields; auto.
  - break_match H; apply Ok_inj in H; subst s'; simpl_fields; auto.
  - unfold reconnect_enter in H.
    break_match H; apply Ok_inj in H; subst s'; simpl_fields; auto.
  - destruct (reconnect l pc s) as [[s1 [pc1|[err|]]]| |] eqn:E;
      try discriminate;
      unfold reconnect, reconnect_return, dial in E;
      destruct pc as [a b], l as [|[id|err'] j]; simpl_fields;
      break_match E; apply Ok_inj in E;
      apply pair_equal_spec in E as [<- E]; try discriminate E;
      unfold Stop_enter, RunState_Stop in H; simpl_fields;
      destruct (isRunning (client s)) eqn:Erun;
      break_match H; apply Ok_inj in H; subst s';
      simpl_fields; repeat split; auto; lia.
  - destruct (Stop_finish (client s)) as [c1| |] eqn:E; try discriminate.
    unfold Stop_finish in E. break_match E. apply Ok_inj in E; subst c1.
    apply Ok_inj in H; subst s'. simpl_fields.
    repeat split; auto. right. unfold closes_ResponsesCh. auto.
  - break_match H; apply Ok_inj in H; subst s'; simpl_fields; auto.
  - break_match H; apply Ok_inj in H; subst s'; simpl_fields; auto.
  - break_match H; apply Ok_inj in H; subst s'; simpl_fields; auto.
  - destruct (processBacklog l pc (client s)) as [[c1 [pc1|[err|]]]| |] eqn:E;
      try discriminate; apply Ok_inj in H; subst s';
      unfold processBacklog in E;
      destruct pc as [|r|e r|e r], l as [|now res| |]; try discriminate;
      break_match E; apply Ok_inj in E;
      apply pair_equal_spec in E as [<- E]; try discriminate E;
      unfold startReadWriteRoutines; simpl_fields; auto.
Qed.

Lemma step_frame l s s' :
  step l s = Ok s' ->
  configuration (client s') = configuration (client s) /\
  callbacks s' = (callbacks s + launches l s)%nat /\
  (ResponsesCh (client s') = ResponsesCh (client s) \/
   (l = LStopped \/ l = LCoordinator CStopped) /\
   closes_ResponsesCh (client s) (client s')) /\
  exists more, delivered s' = delivered s ++ more.
Proof.
  intros H. destruct l as [l|l|l|method params|x request pick| | |how];
    cbn [step launches] in *.
  - apply writeRoutine_frame in H as (Hc & Hcb & Hr & Hd).
    rewrite Hcb, Hd, Nat.add_0_r. repeat split; auto.
    exists []. now rewrite app_nil_r.
  - apply readRoutine_frame in H as (Hc & Hcb & Hr & Hd).
    rewrite Hcb, Nat.add_0_r. auto.
  - apply reconnectRoutine_frame in H as (Hc & Hcb & Hr & Hd).
    rewrite Hd. repeat split; trivial.
    + destruct Hr as [Hr|[-> Hr]]; auto.
    + exists []. now rewrite app_nil_r.
  - apply Ok_inj in H; subst s'. unfold Call_request, nextRequestID.
    simpl_fields. rewrite Nat.add_0_r. repeat split; auto.
    exists []. now rewrite app_nil_r.
  - destruct (Send x request pick s) as [[e s1]| |] eqn:E; try discriminate.
    apply Ok_inj in H; subst s1.
    apply Send_Ok in E as [(_ & _ & _ & _ & ->)|(_ & _ & _ & ->)];
      simpl_fields; rewrite Nat.add_0_r; repeat split; auto;
      exists []; now rewrite app_nil_r.
  - unfold Stop_enter, RunState_Stop in H.
    destruct (isRunning (client s)); apply Ok_inj in H; subst s';
      simpl_fields; rewrite Nat.add_0_r; repeat split; auto;
      exists []; now rewrite app_nil_r.
  - destruct (stopping s) as [|n]; try discriminate.
    destruct (Stop_finish (client s)) as [c| |] eqn:E; try discriminate.
    apply Ok_inj in H; subst s'. unfold Stop_finish in E.
    break_match E. apply Ok_inj in E; subst c.
    simpl_fields; rewrite Nat.add_0_r; repeat split; auto.
    + right. unfold closes_ResponsesCh. auto.
    + exists []. now rewrite app_nil_r.
  - break_match H. apply Ok_inj in H; subst s'.
    simpl_fields; rewrite Nat.add_0_r; repeat split; auto.
    exists []. now rewrite app_nil_r.
Qed.

Lemma Start_configuration x r s e s' :
  Start x r s = (e, s') ->
  configuration (client s') = configuration (client s).
Proof.
  unfold Start, RunState_Start, dial, startReadWriteRoutines.
  destruct (isRunning (client s)), r; intros [= <- <-]; reflexivity.
Qed.

Lemma run_configuration ls : forall s s',
  run ls s = Ok s' ->
  configuration (client s') = configuration (client s).
Proof.
  induction ls as [|l ls IH]; intros s s' H; cbn in H.
  - now apply Ok_inj in H as ->.
  - destruct (step l s) as [s1| |] eqn:E; try discriminate.
    apply step_frame in E as (E & _). rewrite <- E. now apply IH.
Qed.

Lemma configuration_String c c' :
  configuration c' = configuration c ->
  WSClient_String c' = WSClient_String c /\ dial_url c' = dial_url c.
Proof.
  intros [= Ha He Hp _ _ _ _ _ _]. unfold WSClient_String, dial_url.
  now rewrite Ha, He, Hp.
Qed.

(** X1: what the constructor and [OnReconnect] set is never changed
    afterwards: neither [Start], whatever its outcome, nor any transition of
    a goroutine or a caller touches the address, the endpoint, the
    protocol, the maximum of reconnect attempts, the three durations or the
    callback; so [String()] always prints the same text. *)
Theorem configuration_is_fixed c x r e s ls s' :
  Start x r (idle c) = (e, s) ->
  run ls s = Ok s' ->
  configuration (client s') = configuration c /\
  WSClient_String (client s') = WSClient_String c.
Proof.
  intros HS Hrun.
  apply Start_configuration in HS. apply run_configuration in Hrun.
  cbn [client idle] in HS. rewrite HS in Hrun.
  split; trivial. now apply configuration_String.
Qed.

Lemma configuration_is_fixed_witness :
  WSClient_String (client (after (outage ++ [LCoordinator (CReconnect (RCTimer (Dialed 2) 0))]) example_started))
  = "WSClient{127.0.0.1:26657 (/websocket)}"%string.
Proof.
  apply (configuration_is_fixed example_client CtxLive (Dialed 1) None
           example_started
           (outage ++ [LCoordinator (CReconnect (RCTimer (Dialed 2) 0))])).
  - reflexivity.
  - vm_compute; reflexivity.
Defined.

(** X2: every dial of a client, the one of [Start] and each one of
    [reconnect], goes to the same address, and that address begins with
    [ws://] or with [wss://]: the constructor replaces every other scheme by
    [ws]. *)
Theorem dial_url_is_fixed c x r e s ls s' :
  constructed c ->
  Start x r (idle c) = (e, s) ->
  run ls s = Ok s' ->
  dial_url (client s') = dial_url c /\
  (dial_url c
   = String.append "ws://" (String.append (Address c) (Endpoint c)) \/
   dial_url c
   = String.append "wss://" (String.append (Address c) (Endpoint c))).
Proof.
  intros Hc HS Hrun. split.
  - apply Start_configuration in HS. apply run_configuration in Hrun.
    cbn [client idle] in HS. rewrite HS in Hrun.
    now apply configuration_String.
  - apply constructed_fresh in Hc as (_ & _ & _ & _ & _ & _ & _ & _ & Hp).
    unfold dial_url. destruct Hp as [-> | ->]; auto.
Qed.

Lemma dial_url_is_fixed_witness :
  dial_url (client (after outage example_started))
  = "ws://127.0.0.1:26657/websocket"%string.
Proof.
  apply (dial_url_is_fixed example_client CtxLive (Dialed 1) None
           example_started outage).
  - exact example_client_constructed.
  - reflexivity.
  - vm_compute; reflexivity.
Defined.

(** ** What never panics *)

Lemma writeRoutine_safe l s : invariant s -> writeRoutine l s <> Panic.
Proof.
  intros Hi H.
  destruct (inv_conn s Hi) as (k & Hk).
  destruct (inv_reconnectAfter s Hi) as (rb & Hrb & _).
  destruct (inv_backlog s Hi) as (bb & Hbb & _).
  pose proof (inv_wg s Hi) as Hwg.
  unfold writeRoutine, writeRoutine_exit in H.
  destruct (writer s) as [[| | |]|] eqn:Hw; destruct l; try discriminate;
    simpl_fields; rewrite ?Hk, ?Hrb, ?Hbb, ?Hwg in H;
    cbn [Chan.send live Nat.add] in H; break_match H;
    match goal with
    | E : (if _ then _ else _) = Panic |- _ => break_match E
    end.
Qed.

Lemma readRoutine_safe l s :
  invariant s -> readRoutine l s = Panic ->
  l = RDeliver /\ (exists r, reader s = Some (R_deliver r)) /\
  Chan.is_closed (ResponsesCh (client s)) = true.
Proof.
  intros Hi H.
  destruct (inv_conn s Hi) as (k & Hk).
  destruct (inv_reconnectAfter s Hi) as (rb & Hrb & _).
  pose proof (inv_wg s Hi) as Hwg.
  pose proof (inv_latch s Hi) as Hl.
  unfold readRoutine, readRoutine_exit in H.
  destruct (reader s) as [[| |]|] eqn:Hrd; destruct l; try discriminate;
    simpl_fields; cbn [reading] in Hl;
    rewrite ?Hk, ?Hrb, ?Hwg, ?(Hl eq_refl) in H;
    cbn [Chan.send Chan.close live Nat.add] in H;
    try rewrite Nat.add_comm in H; cbn [Nat.add] in H; break_match H;
    try match goal with
        | E : (if _ then _ else _) = Panic |- _ => break_match E
        end.
  repeat split; eauto.
Qed.

Lemma reconnectRoutine_safe l s : invariant s -> reconnectRoutine l s <> Panic.
Proof.
  intros Hi H.
  destruct (inv_conn s Hi) as (k & Hk).
  destruct (inv_reconnectAfter s Hi) as (rb & Hrb & Hrbl).
  destruct (inv_backlog s Hi) as (bb & Hbb & Hbbl).
  pose proof (inv_resend s Hi) as Hres.
  pose proof (inv_stoppers s Hi) as Hst.
  pose proof (inv_open s Hi) as Hop.
  destruct (inv_responses s Hi) as (cl & Hresp).
  unfold stoppers in Hst, Hop.
  unfold reconnectRoutine in H.
  destruct (coordinator s) as [[|e|e pc| | |pc]|] eqn:Hc;
    destruct l; try discriminate; cbn [resending] in Hres.
  - break_match H.
  - rewrite Hrb in H. destruct rb; cbn in H; discriminate.
  - break_match H.
  - unfold reconnect, reconnect_return, dial, Stop_enter, RunState_Stop in H.
    destruct pc as [a b], l as [|[id|err] j]; simpl_fields;
      repeat match type of H with
             | context [if ?x then _ else _] => destruct x
             end; discriminate.
  - unfold Stop_finish in H. rewrite Hresp in H, Hop.
    destruct (isRunning (client s)); [lia|].
    assert (Hcl : cl = false) by (apply Hop; right; lia).
    subst cl. destruct (wg (client s)); discriminate.
  - break_match H.
  - rewrite Hrb in H. destruct rb; cbn in H; discriminate.
  - break_match H.
  - unfold processBacklog in H.
    destruct pc as [|r|e r|e r], l as [|now res| |]; try discriminate;
      rewrite ?Hbb, ?Hrb, ?Hk in H; rewrite ?Hbb, ?Hrb in Hres;
      cbn [Chan.buffered] in Hres.
    + destruct bb as [|r [|]]; cbn in H; discriminate.
    + destruct res; discriminate.
    + destruct Hres as [-> _]. discriminate.
    + subst bb. discriminate.
Qed.

(** X3: a started client panics in one situation only: the Read Worker
    forwards a response on [ResponsesCh] after [Stop] has closed it (the
    coordinator restarts workers without looking at the run state).  No
    other transition panics: there is always a connection to write to and
    to close, the wait group never goes below zero, the latch is closed at
    most once, [ResponsesCh] is closed at most once, and nothing is sent on
    a closed internal channel. *)
Theorem step_panics_only_after_Stop l s :
  reachable s ->
  step l s = Panic ->
  l = LReader RDeliver /\
  (exists r, reader s = Some (R_deliver r)) /\
  Chan.is_closed (ResponsesCh (client s)) = true /\
  isRunning (client s) = false.
Proof.
  intros Hr H. apply reachable_invariant in Hr as Hi.
  assert (Hrun : Chan.is_closed (ResponsesCh (client s)) = true ->
                 isRunning (client s) = false).
  { intros Hcl. destruct (isRunning (client s)) eqn:E; trivial.
    rewrite (inv_open s Hi (or_introl E)) in Hcl. discriminate. }
  destruct l as [l|l|l|method params|x request pick| | |how];
    cbn [step] in H.
  - now apply writeRoutine_safe in H.
  - apply readRoutine_safe in H as (-> & Hrd & Hcl); auto.
  - now apply reconnectRoutine_safe in H.
  - discriminate.
  - destruct (Send x request pick s) as [[e s1]| |] eqn:E; try discriminate.
    unfold Send in E. rewrite (inv_send s Hi) in E.
    destruct pick; break_match E.
  - unfold Stop_enter, RunState_Stop in H.
    destruct (isRunning (client s)); discriminate.
  - destruct (stopping s) as [|n] eqn:En; try discriminate.
    pose proof (inv_stoppers s Hi) as Hst.
    pose proof (inv_open s Hi) as Hop.
    destruct (inv_responses s Hi) as (cl & Hresp).
    unfold stoppers in Hst, Hop. rewrite En in Hst, Hop.
    destruct (isRunning (client s)); [lia|].
    assert (Hcl : Chan.is_closed (ResponsesCh (client s)) = false)
      by (apply Hop; right; lia).
    rewrite Hresp in Hcl. cbn in Hcl. subst cl.
    unfold Stop_finish in H. rewrite Hresp in H.
    destruct (wg (client s)); discriminate.
  - break_match H.
Qed.

Lemma step_panics_only_after_Stop_witness :
  step (LReader RDeliver) (after stopped_then_reconnected example_started)
  = Panic /\
  isRunning (client (after stopped_then_reconnected example_started)) = false.
Proof.
  assert (H : step (LReader RDeliver)
                (after stopped_then_reconnected example_started) = Panic)
    by (vm_compute; reflexivity).
  split; [exact H|].
  apply (step_panics_only_after_Stop _ _
           (after_reachable _ _ example_started_reachable) H).
Defined.

(** ** Stop and the response channel *)



(** ** The reconnecting flag *)

(** X5: [IsReconnecting()] is true exactly while the coordinator is inside
    [reconnect], so [IsActive()] is the run state outside of it and false
    inside; and while it is true no worker is alive: a [Send] finds nobody
    to take its request. *)
Theorem IsReconnecting_inside_reconnect s :
  reachable s ->
  IsReconnecting (client s) = redialing (coordinator s) /\
  IsActive (client s)
  = isRunning (client s) && negb (redialing (coordinator s)) /\
  (IsReconnecting (client s) = true ->
   writer s = None /\ reader s = None /\
   forall x request, Send x request SendAccepted s = Block).
Proof.
  intros Hr.
  pose proof (reachable_invariant s Hr) as Hi.
  pose proof (bk_flag s (reachable_bookkeeping s Hr)) as Hf.
  unfold IsActive, IsReconnecting. rewrite Hf.
  repeat split; destruct (coordinator s) as [[]|] eqn:Hc; try discriminate;
    destruct (inv_recovering s Hi) as [Hw Hrd]; trivial;
    try (now rewrite Hc).
  intros x request. unfold Send. now rewrite Hw, (inv_send s Hi).
Qed.

Lemma IsReconnecting_inside_reconnect_witness :
  IsActive (client (after outage example_started)) = false.
Proof.
  destruct (IsReconnecting_inside_reconnect (after outage example_started)
              (after_reachable _ _ example_started_reachable))
    as (_ & H & _).
  rewrite H. vm_compute. reflexivity.
Defined.

(** ** The reconnect callback *)

Lemma launches_redials l ls s :
  (launches l s + (if onReconnect (client s) then redials ls else 0))%nat
  = if onReconnect (client s) then redials (l :: ls) else 0%nat.
Proof.
  destruct l as [| |[| | |[|[]]| | | | |]| | | | |]; cbn;
    destruct (onReconnect (client s)); trivial.
Qed.

Lemma run_callbacks ls : forall s s',
  run ls s = Ok s' ->
  callbacks s'
  = (callbacks s + if onReconnect (client s) then redials ls else 0)%nat.
Proof.
  induction ls as [|l ls IH]; intros s s' H; cbn [run] in H.
  - apply Ok_inj in H as ->. cbn. destruct (onReconnect _); lia.
  - destruct (step l s) as [s1| |] eqn:E; try discriminate.
    apply step_frame in E as (Hc & Hcb & _).
    rewrite (IH _ _ H), Hcb, <- launches_redials.
    replace (onReconnect (client s1)) with (onReconnect (client s));
      [lia|].
    change (cfg_onReconnect (configuration (client s))
            = cfg_onReconnect (configuration (client s1))).
    now rewrite Hc.
Qed.

(** X6: the callback given to [OnReconnect] is launched once for every
    successful dial of [reconnect] and at no other time: not by the dial of
    [Start], not by a failed dial, and never when none was set. *)
Theorem onReconnect_once_per_redial c x r e s ls s' :
  Start x r (idle c) = (e, s) ->
  run ls s = Ok s' ->
  callbacks s' = if onReconnect c then redials ls else 0%nat.
Proof.
  intros HS Hrun. apply run_callbacks in Hrun. rewrite Hrun.
  pose proof (Start_configuration _ _ _ _ _ HS) as Hc.
  replace (onReconnect (client s)) with (onReconnect c)
    by (change (cfg_onReconnect (configuration (client (idle c)))
                = cfg_onReconnect (configuration (client s)));
        now rewrite Hc).
  replace (callbacks s) with 0%nat; trivial.
  unfold Start, RunState_Start, dial, startReadWriteRoutines in HS.
  cbn [client idle] in HS.
  destruct (isRunning c), r; injection HS as _ <-; reflexivity.
Qed.

Lemma onReconnect_once_per_redial_witness :
  callbacks
    (after (outage ++ [LCoordinator (CReconnect (RCTimer (DialFailed refused) 0));
                       LCoordinator (CReconnect (RCTimer (Dialed 2) 0))])
           (snd (Start CtxLive (Dialed 1) (idle (OnReconnect example_client)))))
  = 1%nat.
Proof.
  apply (onReconnect_once_per_redial (OnReconnect example_client) CtxLive
           (Dialed 1) None
           (snd (Start CtxLive (Dialed 1) (idle (OnReconnect example_client))))
           (outage ++ [LCoordinator (CReconnect (RCTimer (DialFailed refused) 0));
                       LCoordinator (CReconnect (RCTimer (Dialed 2) 0))])).
  - reflexivity.
  - vm_compute; reflexivity.
Defined.

(** ** Failure signals and the backlog *)

(** X7: when the Write Worker arrives at [c.backlog <- request] (line 408)
    the send goes through at once: the backlog is empty, takes that request,
    and the worker returns, closing the connection and leaving the wait
    group.  A request whose write failed is neither lost nor does it push
    out another. *)
Theorem writeRoutine_backlog_takes_request s request :
  reachable s ->
  writer s = Some (W_backlog request) ->
  exists s' k,
    writeRoutine WBacklog s = Ok s' /\
    writer s' = None /\
    Chan.buffered (backlog (client s')) = [request] /\
    conn (client s) = Some k /\
    conn (client s') = Some (conn_Close k) /\
    wg (client s) = S (wg (client s')) /\
    reconnectAfter (client s') = reconnectAfter (client s).
Proof.
  intros Hr Hw.
  pose proof (reachable_invariant s Hr) as Hi.
  pose proof (bk_backlog s (reachable_bookkeeping s Hr)) as Hbl.
  destruct (inv_conn s Hi) as (k & Hk).
  destruct (inv_backlog s Hi) as (bb & Hbb & _).
  pose proof (inv_wg s Hi) as Hwg.
  rewrite Hw in Hbl, Hwg. rewrite Hbb in Hbl. cbn in Hbl, Hwg.
  rewrite Hbl in Hbb by discriminate.
  unfold writeRoutine, writeRoutine_exit. rewrite Hw, Hbb.
  cbn [Chan.send length Nat.ltb Nat.leb app].
  simpl_fields. rewrite Hk, Hwg.
  do 2 eexists. split; [reflexivity|]. simpl_fields. auto 10.
Qed.

Lemma writeRoutine_backlog_takes_request_witness :
  exists s',
    writeRoutine WBacklog (after (firstn 3 failed_send) example_started)
    = Ok s' /\
    Chan.buffered (backlog (client s')) = [example_request].
Proof.
  destruct (writeRoutine_backlog_takes_request
              (after (firstn 3 failed_send) example_started) example_request
              (after_reachable _ _ example_started_reachable) eq_refl)
    as (s' & k & H & _ & Hb & _).
  exists s'. split; assumption.
Defined.

Lemma writer_signal_room s err pending :
  invariant s -> writer s = Some (W_signal err pending) ->
  Chan.buffered (reconnectAfter (client s)) = [] ->
  exists s', writeRoutine WSignal s = Ok s'.
Proof.
  intros Hi Hw Hb.
  destruct (inv_conn s Hi) as (k & Hk).
  destruct (inv_reconnectAfter s Hi) as (rb & Hrb & _).
  pose proof (inv_wg s Hi) as Hwg. rewrite Hw in Hwg.
  rewrite Hrb in Hb. cbn in Hb, Hwg. subst rb.
  unfold writeRoutine, writeRoutine_exit. rewrite Hw, Hrb.
  cbn [Chan.send length Nat.ltb Nat.leb app]. simpl_fields.
  rewrite Hk, Hwg. destruct pending; eauto.
Qed.

Lemma reader_signal_room s err :
  invariant s -> reader s = Some (R_signal err) ->
  Chan.buffered (reconnectAfter (client s)) = [] ->
  exists s', readRoutine RSignal s = Ok s'.
Proof.
  intros Hi Hrd Hb.
  destruct (inv_conn s Hi) as (k & Hk).
  destruct (inv_reconnectAfter s Hi) as (rb & Hrb & _).
  pose proof (inv_wg s Hi) as Hwg. rewrite Hrd in Hwg.
  rewrite Hrb in Hb. cbn in Hb, Hwg. subst rb.
  rewrite Nat.add_comm in Hwg. cbn in Hwg.
  unfold readRoutine, readRoutine_exit. rewrite Hrd, Hrb.
  cbn [Chan.send length Nat.ltb Nat.leb app]. simpl_fields.
  rewrite Hk, Hwg. eauto.
Qed.

(** the coordinator, parked at its [select] with a signal waiting, takes
    it and leaves the channel empty *)
Lemma coordinator_takes_signal s :
  invariant s -> coordinator s = Some C_select ->
  Chan.buffered (reconnectAfter (client s)) <> [] ->
  exists s',
    reconnectRoutine CFailure s = Ok s' /\
    writer s' = writer s /\ reader s' = reader s /\
    Chan.buffered (reconnectAfter (client s')) = [].
Proof.
  intros Hi Hc Hb.
  destruct (inv_reconnectAfter s Hi) as (rb & Hrb & Hrbl).
  rewrite Hrb in Hb. cbn in Hb.
  destruct rb as [|e [|e' rb]]; [contradiction| |cbn in Hrbl; lia].
  unfold reconnectRoutine. rewrite Hc, Hrb. cbn [Chan.recv].
  eexists. split; [reflexivity|]. auto.
Qed.

(** X8: a worker that has a failure to signal is never stuck on
    [c.reconnectAfter <- err] while the coordinator runs: the send goes
    through at once, or it does as soon as the coordinator, parked at its
    [select], has taken the one signal that fills the channel.  (This is the
    one additional error the capacity of one is there for.) *)
Theorem failure_signal_gets_through s :
  reachable s ->
  coordinator s <> None ->
  (forall err pending, writer s = Some (W_signal err pending) ->
     exists ls s',
       (ls = [] \/ ls = [LCoordinator CFailure]) /\
       run (ls ++ [LWriter WSignal]) s = Ok s') /\
  (forall err, reader s = Some (R_signal err) ->
     exists ls s',
       (ls = [] \/ ls = [LCoordinator CFailure]) /\
       run (ls ++ [LReader RSignal]) s = Ok s').
Proof.
  intros Hr Hc.
  pose proof (reachable_invariant s Hr) as Hi.
  pose proof (bk_signals s (reachable_bookkeeping s Hr)) as Hsig.
  destruct (inv_reconnectAfter s Hi) as (rb & Hrb & Hrbl).
  unfold signals in Hsig. rewrite Hrb in Hsig. cbn [Chan.buffered] in Hsig.
  assert (Hcases :
            (1 <= may_signal (writer s) + live (reader s))%nat ->
            rb = [] \/
            (rb <> [] /\ coordinator s = Some C_select)).
  { intros Hlive.
    assert (Hnr : recovering (coordinator s) = false).
    { apply working_not_recovering; trivial.
      destruct (writer s), (reader s); cbn in Hlive;
        (lia || (left; discriminate) || (right; discriminate)). }
    destruct rb as [|e rb]; auto. right. split; [discriminate|].
    destruct (coordinator s) as [[]|]; try discriminate; trivial;
      try contradiction.
    cbn [length] in Hsig. lia. }
  split.
  - intros err pending Hw.
    destruct Hcases as [-> |[Hne Hsel]]; [rewrite Hw; cbn; lia| |].
    + destruct (writer_signal_room s err pending Hi Hw) as (s' & H);
        [now rewrite Hrb|].
      exists [], s'. split; auto. cbn. now rewrite H.
    + destruct (coordinator_takes_signal s Hi Hsel) as (s1 & H1 & Hw1 & _ & Hb1);
        [now rewrite Hrb|].
      assert (Hi1 : invariant s1)
        by (eapply reconnectRoutine_invariant; eauto).
      rewrite Hw in Hw1.
      destruct (writer_signal_room s1 err pending Hi1 Hw1 Hb1) as (s' & H).
      exists [LCoordinator CFailure], s'. split; auto.
      cbn. now rewrite H1, H.
  - intros err Hrd.
    destruct Hcases as [-> |[Hne Hsel]]; [rewrite Hrd; cbn; lia| |].
    + destruct (reader_signal_room s err Hi Hrd) as (s' & H);
        [now rewrite Hrb|].
      exists [], s'. split; auto. cbn. now rewrite H.
    + destruct (coordinator_takes_signal s Hi Hsel) as (s1 & H1 & _ & Hr1 & Hb1);
        [now rewrite Hrb|].
      assert (Hi1 : invariant s1)
        by (eapply reconnectRoutine_invariant; eauto).
      rewrite Hrd in Hr1.
      destruct (reader_signal_room s1 err Hi1 Hr1 Hb1) as (s' & H).
      exists [LCoordinator CFailure], s'. split; auto.
      cbn. now rewrite H1, H.
Qed.

Lemma failure_signal_gets_through_witness :
  exists ls s',
    run (ls ++ [LWriter WSignal]) (after both_fail example_started) = Ok s'.
Proof.
  destruct (failure_signal_gets_through (after both_fail example_started)
              (after_reachable _ _ example_started_reachable))
    as [H _].
  - vm_compute. discriminate.
  - destruct (H broken_pipe (Some example_request) eq_refl)
      as (ls & s' & _ & Hrun).
    exists ls, s'. exact Hrun.
Defined.

(** ** While the coordinator recovers *)

(** X9: from the moment the coordinator's [c.wg.Wait()] has returned until
    it restarts the workers (inside [reconnect], [Stop], the drain loop and
    [processBacklog]) no worker is alive and the wait group is at zero: the
    coordinator replaces [c.conn] and writes the backlog entry with no
    other goroutine on the connection. *)
Theorem recovery_is_exclusive s :
  reachable s ->
  recovering (coordinator s) = true ->
  writer s = None /\ reader s = None /\ wg (client s) = 0%nat /\
  forall lw lr, writeRoutine lw s = Block /\ readRoutine lr s = Block.
Proof.
  intros Hr Hc. apply reachable_invariant in Hr as Hi.
  destruct (inv_recovering s Hi Hc) as [Hw Hrd].
  pose proof (inv_wg s Hi) as Hwg. rewrite Hw, Hrd in Hwg.
  repeat split; trivial.
  - unfold writeRoutine. now rewrite Hw.
  - unfold readRoutine. now rewrite Hrd.
Qed.

Lemma recovery_is_exclusive_witness :
  wg (client (after (failed_send ++ reconnected) example_started)) = 0%nat.
Proof.
  apply (recovery_is_exclusive
           (after (failed_send ++ reconnected) example_started)
           (after_reachable _ _ example_started_reachable)).
  vm_compute. reflexivity.
Defined.

(** X10: when the context is cancelled while [reconnect] waits for its
    timer, [reconnect] returns nil without dialing and lowers the flag; in
    the drain loop the [default] case is then not available, and the
    coordinator returns from there: no worker is started, [Stop] is not
    called ([ResponsesCh] stays as it is, the client stays marked running
    if it was), and the backlog keeps what it holds. *)
Theorem reconnect_canceled s e pc :
  reachable s ->
  coordinator s = Some (C_reconnect e pc) ->
  ctx_Done (ctx s) = true ->
  exists s1 s2,
    reconnectRoutine (CReconnect RCCanceled) s = Ok s1 /\
    coordinator s1 = Some C_drain /\
    reconnectRoutine CDrained s1 = Block /\
    reconnectRoutine CDrainQuit s1 = Ok s2 /\
    coordinator s2 = None /\ writer s2 = None /\ reader s2 = None /\
    reconnecting (client s2) = false /\
    conn (client s2) = conn (client s) /\
    isRunning (client s2) = isRunning (client s) /\
    ResponsesCh (client s2) = ResponsesCh (client s) /\
    backlog (client s2) = backlog (client s).
Proof.
  intros Hr Hc Hx. apply reachable_invariant in Hr as Hi.
  destruct (inv_recovering s Hi) as [Hw Hrd]; [now rewrite Hc|].
  unfold reconnectRoutine at 1. rewrite Hc. unfold reconnect.
  destruct pc as [a b]. rewrite Hx. unfold reconnect_return.
  do 2 eexists. split; [reflexivity|]. split; [reflexivity|].
  unfold reconnectRoutine. simpl_fields. rewrite Hx. cbn [orb].
  split; [reflexivity|]. split; [reflexivity|].
  simpl_fields. auto 10.
Qed.

Lemma reconnect_canceled_witness :
  exists s2,
    run [LCoordinator (CReconnect RCCanceled); LCoordinator CDrainQuit]
        (after canceled_in_backoff example_started) = Ok s2 /\
    coordinator s2 = None /\
    isRunning (client s2) = true.
Proof.
  destruct (reconnect_canceled (after canceled_in_backoff example_started)
              (Some (CloseError CloseAbnormalClosure "unexpected EOF"))
              (RC_backoff 0 (backoffDuration 0 0))
              (after_reachable _ _ example_started_reachable)
              eq_refl eq_refl)
    as (s1 & s2 & H1 & _ & _ & H2 & Hc & _ & _ & _ & _ & Hrun & _).
  exists s2. split; [|split; [exact Hc|]].
  - cbn [run step]. rewrite H1. now rewrite H2.
  - rewrite Hrun. vm_compute. reflexivity.
Defined.

(** ** Shutdown of the Write Worker *)

(** X11: when the context is done the Write Worker, taking that case of
    its [select], writes a close frame with the normal-closure code and
    returns whether or not that write succeeds: the connection is closed,
    the wait group is left, and neither a failure signal nor a backlog entry
    is produced. *)
Theorem writeRoutine_says_goodbye s res :
  reachable s ->
  writer s = Some W_select ->
  ctx_Done (ctx s) = true ->
  exists s' k k',
    writeRoutine (WDone res) s = Ok s' /\
    writer s' = None /\
    conn (client s) = Some k /\ conn (client s') = Some k' /\
    conn_closed k' = true /\
    frames k'
    = frames k ++ match res with
                  | None => [CloseFrame CloseNormalClosure]
                  | Some _ => []
                  end /\
    wg (client s) = S (wg (client s')) /\
    reconnectAfter (client s') = reconnectAfter (client s) /\
    backlog (client s') = backlog (client s).
Proof.
  intros Hr Hw Hx. apply reachable_invariant in Hr as Hi.
  destruct (inv_conn s Hi) as (k & Hk).
  pose proof (inv_wg s Hi) as Hwg. rewrite Hw in Hwg. cbn in Hwg.
  unfold writeRoutine, writeRoutine_exit. rewrite Hw, Hx, Hk.
  simpl_fields. rewrite Hwg.
  do 3 eexists. split; [reflexivity|]. simpl_fields.
  repeat split; trivial.
  change (frames (conn_Close ?k)) with (frames k).
  rewrite frames_write. destruct res; trivial. now rewrite app_nil_r.
Qed.

Lemma writeRoutine_says_goodbye_witness :
  exists s' k',
    writeRoutine (WDone None) (after [LCancel CtxCanceled] example_started)
    = Ok s' /\
    conn (client s') = Some k' /\
    frames k' = [CloseFrame CloseNormalClosure].
Proof.
  destruct (writeRoutine_says_goodbye
              (after [LCancel CtxCanceled] example_started) None
              (after_reachable _ _ example_started_reachable)
              eq_refl eq_refl)
    as (s' & k & k' & H & _ & Hk & Hk' & _ & Hf & _).
  exists s', k'. split; [exact H|]. split; [exact Hk'|].
  rewrite Hf. injection Hk as <-. reflexivity.
Defined.

(** ** Responses *)

Lemma step_delivered l s s' :
  step l s = Ok s' -> delivered s' = delivered s ++ forwards l s.
Proof.
  intros H. unfold forwards.
  destruct l as [l|l|l|method params|x request pick| | |how].
  - cbn [step] in H. apply writeRoutine_frame in H as (_ & _ & _ & ->).
    now rewrite app_nil_r.
  - cbn [step] in H. unfold readRoutine, readRoutine_exit in H.
    destruct (reader s) as [[| |]|], l; try discriminate;
      simpl_fields; break_match H; apply Ok_inj in H; subst s';
      simpl_fields; rewrite ?app_nil_r; trivial.
  - cbn [step] in H. apply reconnectRoutine_frame in H as (_ & _ & _ & ->).
    now rewrite app_nil_r.
  - cbn [step] in H. rewrite app_nil_r.
    apply Ok_inj in H; now subst s'.
  - cbn [step] in H.
    destruct (Send x request pick s) as [[e s1]| |] eqn:E; try discriminate.
    apply Ok_inj in H; subst s1. rewrite app_nil_r.
    now apply Send_Ok in E as [(_ & _ & _ & _ & ->)|(_ & _ & _ & ->)].
  - cbn [step] in H. unfold Stop_enter, RunState_Stop in H.
    rewrite app_nil_r.
    destruct (isRunning (client s)); apply Ok_inj in H; now subst s'.
  - cbn [step] in H. destruct (stopping s) as [|n]; try discriminate.
    destruct (Stop_finish (client s)) as [c| |] eqn:E; try discriminate.
    rewrite app_nil_r. apply Ok_inj in H; now subst s'.
  - cbn [step] in H. rewrite app_nil_r.
    break_match H. apply Ok_inj in H; now subst s'.
Qed.

(** X12: every response the consumer of [ResponsesCh] has received passed
    [validateResponseID], and the list of responses received only grows at
    its end, by the response the Read Worker holds when it forwards one:
    nothing is forwarded twice, reordered or taken back. *)
Theorem responses_valid_and_in_order s :
  reachable s ->
  Forall valid_response (delivered s) /\
  forall l s', step l s = Ok s' ->
    delivered s' = delivered s ++ forwards l s /\
    Forall valid_response (forwards l s).
Proof.
  intros Hr. pose proof (reachable_bookkeeping s Hr) as Hb.
  split; [exact (bk_delivered s Hb)|].
  intros l s' H. split; [now apply step_delivered|].
  assert (Hr' : reachable s') by (eapply reachable_step; eauto).
  pose proof (bk_delivered s' (reachable_bookkeeping s' Hr')) as Hd.
  rewrite (step_delivered _ _ _ H) in Hd.
  now apply Forall_app in Hd.
Qed.

Lemma responses_valid_and_in_order_witness :
  delivered (after one_response example_started) = [example_response] /\
  valid_response example_response.
Proof.
  destruct (responses_valid_and_in_order (after one_response example_started)
              (after_reachable _ _ example_started_reachable))
    as [H _].
  split; [reflexivity|]. now inversion H.
Defined.

(** ** Frames and deadlines *)

(** X13: on the connection a client holds, no ping frame was ever written
    unless a ping period is configured ([pingPeriod] zero or negative means
    no keepalive), and every close frame written carries the
    normal-closure code. *)
Theorem frames_follow_configuration s k :
  reachable s ->
  conn (client s) = Some k ->
  (pingPeriod (client s) <= 0 -> ~ In PingFrame (frames k)) /\
  (forall code, In (CloseFrame code) (frames k) -> code = CloseNormalClosure).
Proof.
  intros Hr Hk.
  destruct (bk_wire s (reachable_bookkeeping s Hr) k Hk) as [Hp Hc _ _ _].
  split; trivial. intros Hle. apply Hp. apply Z.ltb_ge. exact Hle.
Qed.

Lemma frames_follow_configuration_witness :
  exists k,
    conn (client (after failed_send example_started)) = Some k /\
    ~ In PingFrame (frames k).
Proof.
  assert (Hk : conn (client (after failed_send example_started))
               = Some (conn_Close
                         (conn_Close
                            (SetWriteDeadline (time_add 100 (10 * Second))
                               (new_conn 1)))))
    by (vm_compute; reflexivity).
  destruct (frames_follow_configuration
              (after failed_send example_started) _
              (after_reachable _ _ example_started_reachable) Hk)
    as [H _].
  eexists. split; [exact Hk|]. apply H. vm_compute. discriminate.
Defined.

Lemma written_Close k : written (conn_Close k) = written k.
Proof. reflexivity. Qed.

Lemma written_write f res k :
  written (conn_write f res k)
  = written k ++ match res with
                 | None => [(f, writeDeadline k)]
                 | Some _ => []
                 end.
Proof. destruct res; cbn; trivial. now rewrite app_nil_r. Qed.

Lemma written_with_write_deadline now c k :
  written (with_write_deadline now c k) = written k.
Proof. unfold with_write_deadline. now destruct (0 <? writeWait c). Qed.

Lemma written_with_read_deadline now c k :
  written (with_read_deadline now c k) = written k.
Proof. unfold with_read_deadline. now destruct (0 <? readWait c). Qed.

Ltac written_auto :=
  right;
  repeat first [ rewrite written_Close
               | rewrite written_write
               | rewrite written_with_write_deadline
               | rewrite written_with_read_deadline ];
  try match goal with
      | |- context [match ?r with Some _ => _ | None => _ end] => destruct r
      end;
  first [ eexists; split; [reflexivity|]
        | exists []; split; [now rewrite app_nil_r|] ];
  repeat constructor; unfold stamped; cbn [fst snd write_clock];
  try reflexivity; try (eexists; split; reflexivity).

(** what a transition adds to the connection, frame and deadline *)
Lemma step_written l s s' k k' :
  step l s = Ok s' ->
  conn (client s) = Some k -> conn (client s') = Some k' ->
  (exists id, k' = new_conn id) \/
  exists new,
    written k' = written k ++ new /\ Forall (stamped l (client s) k) new.
Proof.
  intros H Hk Hk'.
  destruct l as [l|l|l|method params|x request pick| | |how];
    cbn [step] in H.
  - unfold writeRoutine, writeRoutine_exit in H.
    destruct (writer s) as [[| | |]|] eqn:Hw; destruct l; try discriminate;
      simpl_fields; rewrite ?Hk in H;
      break_match H; apply Ok_inj in H; subst s'; simpl_fields;
      rewrite ?Hk in Hk'; apply Some_inj in Hk'; subst k';
      written_auto.
  - unfold readRoutine, readRoutine_exit in H.
    destruct (reader s) as [[| |]|] eqn:Hrd; destruct l; try discriminate;
      simpl_fields; rewrite ?Hk in H;
      break_match H; apply Ok_inj in H; subst s'; simpl_fields;
      rewrite ?Hk in Hk'; apply Some_inj in Hk'; subst k';
      written_auto.
  - unfold reconnectRoutine in H.
    destruct (coordinator s) as [[|e|e pc| | |pc]|] eqn:Hc;
      destruct l; try discriminate.
    + break_match H; apply Ok_inj in H; subst s'; simpl_fields.
      rewrite Hk in Hk'. apply Some_inj in Hk'; subst k'. written_auto.
    + break_match H; apply Ok_inj in H; subst s'; simpl_fields.
      rewrite Hk in Hk'. apply Some_inj in Hk'; subst k'. written_auto.
    + unfold reconnect_enter in H.
      break_match H; apply Ok_inj in H; subst s'; simpl_fields.
      rewrite Hk in Hk'. apply Some_inj in Hk'; subst k'. written_auto.
    + destruct (reconnect l pc s) as [[s1 [pc1|[err|]]]| |] eqn:E;
        try discriminate;
        unfold reconnect, reconnect_return, dial in E;
        destruct pc as [a b], l as [|[id|err'] j]; simpl_fields;
        break_match E; apply Ok_inj in E;
        apply pair_equal_spec in E as [<- E]; try discriminate E;
        unfold Stop_enter, RunState_Stop in H; simpl_fields;
        destruct (isRunning (client s)) eqn:Erun;
        break_match H; apply Ok_inj in H; subst s';
        simpl_fields;
        try (left; apply Some_inj in Hk'; subst k'; eexists; reflexivity);
        rewrite Hk in Hk'; apply Some_inj in Hk'; subst k';
        written_auto.
    + destruct (Stop_finish (client s)) as [c1| |] eqn:E;
        try discriminate.
      unfold Stop_finish in E. break_match E. apply Ok_inj in E; subst c1.
      apply Ok_inj in H; subst s'. simpl_fields.
      rewrite Hk in Hk'. apply Some_inj in Hk'; subst k'. written_auto.
    + break_match H; apply Ok_inj in H; subst s'; simpl_fields.
      rewrite Hk in Hk'. apply Some_inj in Hk'; subst k'. written_auto.
    + break_match H; apply Ok_inj in H; subst s'; simpl_fields.
      rewrite Hk in Hk'. apply Some_inj in Hk'; subst k'. written_auto.
    + break_match H; apply Ok_inj in H; subst s'; simpl_fields.
      rewrite Hk in Hk'. apply Some_inj in Hk'; subst k'. written_auto.
    + destruct (processBacklog l pc (client s)) as [[c1 [pc1|[err|]]]| |] eqn:E;
        try discriminate; apply Ok_inj in H; subst s';
        unfold processBacklog in E;
        destruct pc as [|r|e r|e r], l as [|now res| |]; try discriminate;
        rewrite ?Hk in E;
        break_match E; apply Ok_inj in E;
        apply pair_equal_spec in E as [<- E]; try discriminate E;
        unfold startReadWriteRoutines in *; simpl_fields;
        rewrite ?Hk in Hk'; apply Some_inj in Hk'; subst k';
        written_auto.
  - apply Ok_inj in H; subst s'. unfold Call_request, nextRequestID in Hk'.
    cbn [snd] in Hk'. simpl_fields.
    rewrite Hk in Hk'. apply Some_inj in Hk'; subst k'. written_auto.
  - destruct (Send x request pick s) as [[e s1]| |] eqn:E; try discriminate.
    apply Ok_inj in H; subst s1.
    apply Send_Ok in E as [(_ & _ & _ & _ & ->)|(_ & _ & _ & ->)];
      simpl_fields; rewrite Hk in Hk'; apply Some_inj in Hk'; subst k';
      written_auto.
  - unfold Stop_enter, RunState_Stop in H.
    destruct (isRunning (client s)); apply Ok_inj in H; subst s';
      simpl_fields; rewrite Hk in Hk'; apply Some_inj in Hk'; subst k';
      written_auto.
  - destruct (stopping s) as [|n]; try discriminate.
    destruct (Stop_finish (client s)) as [c| |] eqn:E; try discriminate.
    apply Ok_inj in H; subst s'. unfold Stop_finish in E.
    break_match E. apply Ok_inj in E; subst c.
    simpl_fields; rewrite Hk in Hk'; apply Some_inj in Hk'; subst k';
      written_auto.
  - break_match H. apply Ok_inj in H; subst s'.
    simpl_fields; rewrite Hk in Hk'; apply Some_inj in Hk'; subst k';
      written_auto.
Qed.

(** X14: on the connection a client holds, when [writeWait] is positive
    every request and every ping was written under a write deadline, and
    each frame a transition adds is written under exactly now plus
    [writeWait], now being the time that transition read; the one frame
    written without setting a deadline is the close frame of the Write
    Worker's shutdown.  When [writeWait] is zero or negative no write
    deadline is ever set, and when [readWait] is zero or negative no read
    deadline is. *)
Theorem deadlines_follow_configuration s k :
  reachable s ->
  conn (client s) = Some k ->
  (writeWait (client s) <= 0 ->
   writeDeadline k = None /\ Forall (fun fd => snd fd = None) (written k)) /\
  (readWait (client s) <= 0 -> readDeadline k = None) /\
  (0 < writeWait (client s) ->
   Forall (fun fd =>
             match fst fd with
             | CloseFrame _ => True
             | _ => snd fd <> None
             end) (written k) /\
   forall l s' k',
     step l s = Ok s' -> conn (client s') = Some k' ->
     (exists id, k' = new_conn id) \/
     exists new,
       written k' = written k ++ new /\
       Forall (fun fd =>
                 match fst fd with
                 | CloseFrame _ => l = LWriter (WDone None)
                 | _ => exists now,
                          write_clock l = Some now /\
                          snd fd
                          = Some (time_add now (writeWait (client s)))
                 end) new).
Proof.
  intros Hr Hk.
  destruct (bk_wire s (reachable_bookkeeping s Hr) k Hk) as [_ _ Hd Hw Hrd].
  unfold deadline_ok in Hd. split; [|split].
  - intros H. apply Z.ltb_ge in H. split; [now apply Hw|].
    now rewrite H in Hd.
  - intros H. apply Hrd. now apply Z.ltb_ge.
  - intros H. apply Z.ltb_lt in H. split; [now rewrite H in Hd|].
    intros l s' k' Hstep Hk'.
    destruct (step_written l s s' k k' Hstep Hk Hk') as [Hnew|(new & E & Hst)];
      [now left|].
    right. exists new. split; [exact E|].
    eapply Forall_impl; [|exact Hst].
    intros [f d]. unfold stamped, with_write_deadline. rewrite H. cbn.
    now destruct f.
Qed.

Lemma deadlines_follow_configuration_witness :
  exists k,
    conn (client (after one_request example_started)) = Some k /\
    Forall (fun fd =>
              match fst fd with
              | CloseFrame _ => True
              | _ => snd fd <> None
              end) (written k).
Proof.
  assert (Hk : conn (client (after one_request example_started))
               = Some (conn_write (JSONFrame example_request) None
                         (SetWriteDeadline (time_add 100 (10 * Second))
                            (new_conn 1))))
    by (vm_compute; reflexivity).
  destruct (deadlines_follow_configuration
              (after one_request example_started) _
              (after_reachable _ _ example_started_reachable) Hk)
    as (_ & _ & H).
  eexists. split; [exact Hk|]. apply H. vm_compute. reflexivity.
Defined.

(** ** A new pair of workers *)

(** the one transition that brings a Write Worker to life *)
Lemma step_starts_writer l s s' :
  step l s = Ok s' ->
  writer s = None -> writer s' <> None ->
  (exists bl, l = LCoordinator (CBacklog bl)) /\
  writer s' = Some W_select /\ reader s' = Some R_read /\
  coordinator s' = Some C_select /\
  readRoutineQuit (client s') = Chan.make 0 /\
  wg (client s') = (wg (client s) + 2)%nat.
Proof.
  intros H Hw Hw'.
  destruct l as [l|l|l|method params|x request pick| | |how];
    cbn [step] in H.
  - unfold writeRoutine in H. rewrite Hw in H. discriminate.
  - exfalso. apply Hw'. rewrite <- Hw.
    unfold readRoutine, readRoutine_exit in H.
    destruct (reader s) as [[| |]|], l; try discriminate;
      simpl_fields; break_match H; apply Ok_inj in H; subst s'; reflexivity.
  - unfold reconnectRoutine in H.
    destruct (coordinator s) as [[|e|e pc| | |pc]|] eqn:Hc;
      destruct l; try discriminate.
    + break_match H; apply Ok_inj in H; subst s'; contradiction.
    + break_match H; apply Ok_inj in H; subst s'; contradiction.
    + unfold reconnect_enter in H.
      break_match H; apply Ok_inj in H; subst s'; contradiction.
    + exfalso. apply Hw'. rewrite <- Hw.
      destruct (reconnect l pc s) as [[s1 [pc1|[err|]]]| |] eqn:E;
        try discriminate;
        apply reconnect_frame in E as (E & _);
        unfold Stop_enter, RunState_Stop in H;
        break_match H; apply Ok_inj in H; subst s'; exact E.
    + break_match H; apply Ok_inj in H; subst s'; contradiction.
    + break_match H; apply Ok_inj in H; subst s'; contradiction.
    + break_match H; apply Ok_inj in H; subst s'; contradiction.
    + break_match H; apply Ok_inj in H; subst s'; contradiction.
    + destruct (processBacklog l pc (client s)) as [[c1 [pc1|[err|]]]| |] eqn:E;
        try discriminate; apply Ok_inj in H; subst s';
        try contradiction.
      unfold startReadWriteRoutines. simpl_fields.
      repeat split; eauto.
      unfold processBacklog in E.
      destruct pc as [|r|e r|e r], l as [|now res| |]; try discriminate;
        break_match E; apply Ok_inj in E;
        apply pair_equal_spec in E as [<- E]; try discriminate E;
        reflexivity.
  - apply Ok_inj in H; subst s'. contradiction.
  - destruct (Send x request pick s) as [[e s1]| |] eqn:E; try discriminate.
    apply Ok_inj in H; subst s1.
    apply Send_Ok in E as [(_ & _ & Hs & _)|(_ & _ & _ & ->)];
      [congruence|contradiction].
  - unfold Stop_enter, RunState_Stop in H.
    destruct (isRunning (client s)); apply Ok_inj in H; subst s';
      contradiction.
  - destruct (stopping s) as [|n]; try discriminate.
    destruct (Stop_finish (client s)) as [c| |] eqn:E; try discriminate.
    apply Ok_inj in H; subst s'. contradiction.
  - break_match H. apply Ok_inj in H; subst s'. contradiction.
Qed.

(** X15: in a started client a Write Worker comes to life by one
    transition only, the return of [processBacklog] without error, and then
    both workers start together, at the top of their loops, with a fresh
    open latch, an empty failure channel and an empty backlog: no signal of
    the previous pair and no request of before the reconnect is left
    over. *)
Theorem workers_start_clean l s s' :
  reachable s ->
  step l s = Ok s' ->
  writer s = None -> writer s' <> None ->
  (exists bl, l = LCoordinator (CBacklog bl)) /\
  writer s' = Some W_select /\ reader s' = Some R_read /\
  wg (client s') = 2%nat /\
  readRoutineQuit (client s') = Chan.make 0 /\
  Chan.buffered (reconnectAfter (client s')) = [] /\
  Chan.buffered (backlog (client s')) = [].
Proof.
  intros Hr H Hw Hw'.
  assert (Hr' : reachable s') by (eapply reachable_step; eauto).
  pose proof (reachable_bookkeeping s' Hr') as Hb.
  pose proof (reachable_invariant s' Hr') as Hi.
  destruct (step_starts_writer _ _ _ H Hw Hw')
    as (Hl & Hw1 & Hr1 & Hc1 & Hq & _).
  pose proof (bk_signals s' Hb) as Hsig.
  pose proof (inv_wg s' Hi) as Hwg.
  unfold signals in Hsig. rewrite Hc1, Hw1, Hr1 in Hsig.
  rewrite Hw1, Hr1 in Hwg. cbn in Hsig, Hwg.
  repeat split; trivial.
  - destruct (Chan.buffered (reconnectAfter (client s'))); trivial.
    cbn in Hsig. lia.
  - apply (bk_backlog s' Hb). exact Hw'.
Qed.

Lemma workers_start_clean_witness :
  wg (client (after (failed_send ++ reconnected
                     ++ [LCoordinator (CBacklog BSelect);
                         LCoordinator (CBacklog (BWrite 200 None))])
                    example_started)) = 2%nat.
Proof.
  assert (H : step (LCoordinator (CBacklog (BWrite 200 None)))
                (after (failed_send ++ reconnected
                        ++ [LCoordinator (CBacklog BSelect)]) example_started)
              = Ok (after (failed_send ++ reconnected
                           ++ [LCoordinator (CBacklog BSelect);
                               LCoordinator (CBacklog (BWrite 200 None))])
                          example_started))
    by (vm_compute; reflexivity).
  apply (workers_start_clean _ _ _
           (after_reachable _ _ example_started_reachable) H).
  - reflexivity.
  - vm_compute. discriminate.
Defined.

(** ** Callers *)

(** X16: every [Call] that returns has used up one identifier, also when
    it returns an error: the identifier is drawn before the request is
    built and before the [select] of [Send].  When [Call] returns nil the
    Write Worker holds the request built from that identifier; when it
    returns an error the Write Worker was handed nothing. *)
Theorem Call_uses_an_identifier x method params pick s e s' :
  Call x method params pick s = Ok (e, s') ->
  nextReqID (client s') = wrap_int (nextReqID (client s) + 1) /\
  match e with
  | None =>
      MapToRequest (nextReqID (client s)) method params
      = inl {| req_ID := nextReqID (client s); req_Method := method;
               req_Params := params |} /\
      writer s' = Some (W_request {| req_ID := nextReqID (client s);
                                     req_Method := method;
                                     req_Params := params |})
  | Some err =>
      writer s' = writer s /\
      (MapToRequest (nextReqID (client s)) method params = inr err \/
       ctx_Done x = true /\ ctx_Err x = Some err)
  end.
Proof.
  unfold Call, Call_request, nextRequestID, MapToRequest.
  destruct (forallb _ params) eqn:Hp.
  - intros H. apply Send_Ok in H
      as [(_ & -> & Hw & _ & ->)|(_ & Hx & -> & ->)]; simpl_fields.
    + auto.
    + split; trivial. destruct x; try discriminate; cbn; auto.
  - intros H. apply Ok_inj in H. injection H as <- <-. simpl_fields. auto.
Qed.

Lemma Call_uses_an_identifier_witness :
  nextReqID
    (client (snd (match Call CtxLive "status" [("height"%string, JUnsupported)]
                          SendAccepted example_started with
                  | Ok r => r
                  | _ => (None, example_started)
                  end))) = 1.
Proof.
  apply (Call_uses_an_identifier CtxLive "status"
           [("height"%string, JUnsupported)] SendAccepted example_started
           (Some ErrMarshal)).
  reflexivity.
Defined.

(** X17: [Subscribe] and [Unsubscribe] never fail to build their request.
    Either they return nil, and the Write Worker holds a request with the
    next identifier, the method [subscribe] or [unsubscribe] and the query
    as its one parameter; or they return the error of a done context, and
    the Write Worker was handed nothing. *)
Theorem Subscribe_hands_over_query x query pick s e s' :
  (Subscribe x query pick s = Ok (e, s') ->
   query_outcome "subscribe" query x s e s') /\
  (Unsubscribe x query pick s = Ok (e, s') ->
   query_outcome "unsubscribe" query x s e s').
Proof.
  unfold Subscribe, Unsubscribe, Call, Call_request, nextRequestID,
    MapToRequest, query_outcome.
  cbn [forallb snd encodable andb].
  split; intros H;
    apply Send_Ok in H as [(_ & -> & _ & _ & ->)|(_ & Hx & -> & ->)];
    try reflexivity;
    destruct x; try discriminate; cbn; auto.
Qed.

Lemma Subscribe_hands_over_query_witness :
  exists s',
    Subscribe CtxLive "tm.event='NewBlock'" SendAccepted example_started
    = Ok (None, s') /\
    writer s'
    = Some (W_request (query_request 0 "subscribe" "tm.event='NewBlock'")).
Proof.
  eexists. split; [vm_compute; reflexivity|].
  apply (Subscribe_hands_over_query CtxLive "tm.event='NewBlock'"
           SendAccepted example_started None).
  vm_compute. reflexivity.
Defined.

(** X18: when the dial of [Start] fails, [Start] returns that error and
    nothing has been started: no goroutine runs, no channel has been made
    and there is no connection, so a [Send] can only return through its
    context.  The run state has been switched on all the same: a second
    [Start] is refused without dialing. *)
Theorem Start_dial_failure c x err :
  constructed c ->
  exists s,
    Start x (DialFailed err) (idle c) = (Some err, s) /\
    writer s = None /\ reader s = None /\ coordinator s = None /\
    conn (client s) = None /\
    send (client s) = Chan.Nil /\ ResponsesCh (client s) = Chan.Nil /\
    (forall x' request, Send x' request SendAccepted s = Block) /\
    isRunning (client s) = true /\
    forall x' r, Start x' r s = (Some ErrClientRunning, s).
Proof.
  intros Hc. apply constructed_fresh in Hc
    as (Hrun & Hk & _ & Hs & _ & _ & Hresp & _).
  unfold Start, RunState_Start, dial. cbn [client idle]. rewrite Hrun.
  eexists. split; [reflexivity|]. simpl_fields. cbn [idle].
  repeat split; trivial.
  intros x' request. unfold Send. simpl_fields. now rewrite Hs.
Qed.

Lemma Start_dial_failure_witness :
  exists s,
    Start CtxLive (DialFailed refused) (idle example_client)
    = (Some refused, s) /\
    isRunning (client s) = true.
Proof.
  destruct (Start_dial_failure example_client CtxLive refused
              example_client_constructed)
    as (s & H & _ & _ & _ & _ & _ & _ & _ & Hrun & _).
  exists s. split; assumption.
Defined.

(** X19: on a client that was never started every channel is nil, so
    [Send] parks until its context is done and then returns the context's
    error; a [Call] made there behaves the same, and has used up an
    identifier when it returns. *)
Theorem Send_before_Start c x request pick :
  constructed c ->
  Send x request pick (idle c)
  = match pick with
    | SendAccepted => Block
    | SendCanceled =>
        if ctx_Done x then Ok (ctx_Err x, idle c) else Block
    end /\
  forall method params e s',
    Call x method params pick (idle c) = Ok (e, s') ->
    e <> None /\ writer s' = None /\ nextReqID (client s') = 1.
Proof.
  intros Hc. pose proof (constructed_zero c Hc) as [_ Hid].
  apply constructed_fresh in Hc as (_ & _ & _ & Hs & _).
  split.
  - unfold Send. cbn [client idle]. rewrite Hs. now destruct pick.
  - intros method params e s' H.
    unfold Call, Call_request, nextRequestID in H. cbn [client idle] in H.
    destruct (MapToRequest _ method params) as [r|err].
    + unfold Send in H. simpl_fields. rewrite Hs in H.
      destruct pick; try discriminate.
      destruct x; try discriminate;
        apply Ok_inj in H; injection H as <- <-; simpl_fields;
        rewrite Hid; repeat split; discriminate.
    + apply Ok_inj in H; injection H as <- <-. simpl_fields.
      rewrite Hid. repeat split; discriminate.
Qed.

Lemma Send_before_Start_witness :
  Send CtxLive example_request SendAccepted (idle example_client) = Block.
Proof.
  apply (Send_before_Start example_client CtxLive example_request
           SendAccepted example_client_constructed).
Defined.

(** ** The wait group and the run state *)

(** X20: the wait group always counts the live workers, so a
    [c.wg.Wait()] (the coordinator's before it reconnects, the one of
    [Stop]) returns exactly when both workers have returned. *)
Theorem wg_counts_live_workers s :
  reachable s ->
  wg (client s) = (live (writer s) + live (reader s))%nat /\
  (wg (client s) = 0%nat <-> writer s = None /\ reader s = None) /\
  (forall e jitter, coordinator s = Some (C_wait e) ->
     is_jitter jitter = true ->
     (exists s', reconnectRoutine (CJoined jitter) s = Ok s') <->
     writer s = None /\ reader s = None).
Proof.
  intros Hr. pose proof (inv_wg s (reachable_invariant s Hr)) as Hwg.
  assert (Hz : wg (client s) = 0%nat <-> writer s = None /\ reader s = None).
  { rewrite Hwg. destruct (writer s), (reader s); cbn; split;
      try lia; try tauto; intros [? ?]; discriminate. }
  split; [exact Hwg|]. split; [exact Hz|].
  intros e jitter Hc Hj. split.
  - intros [s' H]. apply Hz. unfold reconnectRoutine in H.
    rewrite Hc in H. destruct (wg (client s)); trivial; discriminate.
  - intros Hn. apply Hz in Hn. unfold reconnectRoutine.
    rewrite Hc, Hn, Hj. cbn. eauto.
Qed.

Lemma wg_counts_live_workers_witness :
  wg (client (after (firstn 2 outage) example_started)) = 1%nat.
Proof.
  apply (wg_counts_live_workers (after (firstn 2 outage) example_started)
           (after_reachable _ _ example_started_reachable)).
Defined.

Lemma step_isRunning l s s' :
  step l s = Ok s' ->
  isRunning (client s') = isRunning (client s) \/
  isRunning (client s) = true /\ isRunning (client s') = false /\
  (l = LStop \/
   exists e attempt b err jitter,
     coordinator s = Some (C_reconnect e (RC_backoff attempt b)) /\
     l = LCoordinator (CReconnect (RCTimer (DialFailed err) jitter)) /\
     maxReconnectAttempts (client s) < wrap_uint (attempt + 1)).
Proof.
  intros H. destruct l as [l|l|l|method params|x request pick| | |how];
    cbn [step] in H.
  - left. unfold writeRoutine, writeRoutine_exit in H.
    destruct (writer s) as [[| | |]|], l; try discriminate;
      simpl_fields; break_match H; apply Ok_inj in H; subst s'; reflexivity.
  - left. unfold readRoutine, readRoutine_exit in H.
    destruct (reader s) as [[| |]|], l; try discriminate;
      simpl_fields; break_match H; apply Ok_inj in H; subst s'; reflexivity.
  - unfold reconnectRoutine in H.
    destruct (coordinator s) as [[|e|e pc| | |pc]|] eqn:Hc;
      destruct l; try discriminate.
    + left. break_match H; apply Ok_inj in H; subst s'; reflexivity.
    + left. break_match H; apply Ok_inj in H; subst s'; reflexivity.
    + left. unfold reconnect_enter in H.
      break_match H; apply Ok_inj in H; subst s'; reflexivity.
    + destruct (reconnect l pc s) as [[s1 [pc1|[err|]]]| |] eqn:E;
        try discriminate;
        unfold reconnect, reconnect_return, dial in E;
        destruct pc as [a b], l as [|[id|err'] j]; simpl_fields;
        break_match E; apply Ok_inj in E;
        apply pair_equal_spec in E as [<- E]; try discriminate E;
        unfold Stop_enter, RunState_Stop in H; simpl_fields;
        destruct (isRunning (client s)) eqn:Erun;
        break_match H; apply Ok_inj in H; subst s';
        simpl_fields; auto.
      right. repeat split; trivial. right.
      exists e, a, b, err', j. repeat split; trivial.
      now apply Z.ltb_lt.
    + left. destruct (Stop_finish (client s)) as [c1| |] eqn:E;
        try discriminate.
      unfold Stop_finish in E. break_match E. apply Ok_inj in E; subst c1.
      apply Ok_inj in H; subst s'. reflexivity.
    + left. break_match H; apply Ok_inj in H; subst s'; reflexivity.
    + left. break_match H; apply Ok_inj in H; subst s'; reflexivity.
    + left. break_match H; apply Ok_inj in H; subst s'; reflexivity.
    + left.
      destruct (processBacklog l pc (client s)) as [[c1 [pc1|[err|]]]| |] eqn:E;
        try discriminate; apply Ok_inj in H; subst s';
        unfold processBacklog in E;
        destruct pc as [|r|e r|e r], l as [|now res| |]; try discriminate;
        break_match E; apply Ok_inj in E;
        apply pair_equal_spec in E as [<- E]; try discriminate E;
        reflexivity.
  - left. apply Ok_inj in H; subst s'. reflexivity.
  - left.
    destruct (Send x request pick s) as [[e s1]| |] eqn:E; try discriminate.
    apply Ok_inj in H; subst s1.
    now apply Send_Ok in E as [(_ & _ & _ & _ & ->)|(_ & _ & _ & ->)].
  - unfold Stop_enter, RunState_Stop in H.
    destruct (isRunning (client s)) eqn:Erun; apply Ok_inj in H; subst s';
      simpl_fields; auto.
  - left. destruct (stopping s) as [|n]; try discriminate.
    destruct (Stop_finish (client s)) as [c| |] eqn:E; try discriminate.
    apply Ok_inj in H; subst s'. unfold Stop_finish in E.
    break_match E. apply Ok_inj in E; subst c. reflexivity.
  - left. break_match H. apply Ok_inj in H; subst s'. reflexivity.
Qed.

(** X21: the run state of a started client is switched off by [Stop] and
    by nothing else, be it the [Stop] of a caller or the one the
    coordinator calls when a failed dial has taken the attempt counter past
    the maximum; and once it is off no transition switches it on again. *)
Theorem run_state_only_goes_off l s s' :
  step l s = Ok s' ->
  isRunning (client s') <> isRunning (client s) ->
  isRunning (client s) = true /\ isRunning (client s') = false /\
  (l = LStop \/
   exists e attempt b err jitter,
     coordinator s = Some (C_reconnect e (RC_backoff attempt b)) /\
     l = LCoordinator (CReconnect (RCTimer (DialFailed err) jitter)) /\
     maxReconnectAttempts (client s) < wrap_uint (attempt + 1)).
Proof.
  intros H Hne. apply step_isRunning in H as [H|H]; [contradiction|exact H].
Qed.

Lemma run_state_only_goes_off_witness :
  isRunning (client example_started) = true /\
  isRunning (client (after [LStop] example_started)) = false.
Proof.
  assert (H : step LStop example_started = Ok (after [LStop] example_started))
    by (vm_compute; reflexivity).
  destruct (run_state_only_goes_off _ _ _ H) as (H1 & H2 & _).
  - vm_compute. discriminate.
  - split; assumption.
Defined.

(** ** From [Send] to the wire *)

Ltac rewrite_buffered :=
  repeat match goal with
         | H : Chan.buffered _ = _ |- _ => rewrite H in *; clear H
         end.

Lemma step_in_hand l s s' :
  invariant s -> bookkeeping s ->
  step l s = Ok s' ->
  in_hand s ++ accepts l s = writes l s ++ in_hand s'.
Proof.
  intros Hi Hb H.
  pose proof (inv_recovering s Hi) as Hrec.
  pose proof (inv_resend s Hi) as Hres.
  destruct (inv_backlog s Hi) as (bb & Hbb & Hbbl).
  pose proof (bk_backlog s Hb) as Hbl. rewrite Hbb in Hbl. cbn in Hbl.
  unfold in_hand. rewrite Hbb. cbn [Chan.buffered].
  destruct l as [l|l|l|method params|x request pick| | |how];
    cbn [step] in *.
  - assert (Hnr : recovering (coordinator s) = false).
    { apply working_not_recovering; trivial. left.
      unfold writeRoutine in H. destruct (writer s); discriminate. }
    assert (Hch : coordinator_holds (coordinator s) = []).
    { destruct (coordinator s) as [[| | | | |[]]|]; trivial; discriminate. }
    rewrite Hch.
    unfold writeRoutine, writeRoutine_exit in H.
    destruct (writer s) as [[| | |]|] eqn:Hw; destruct l; try discriminate;
      rewrite Hbl in * by discriminate;
      simpl_fields; try rewrite Hbb in H;
      break_match H; apply Ok_inj in H; subst s';
      buffered_facts; simpl_fields; rewrite ?Hbb, ?Hch, ?Hw;
      cbn [Chan.buffered] in *; rewrite_buffered;
      cbn [accepts writes]; rewrite ?Hw;
      cbn [writer_holds app]; rewrite ?app_nil_r;
      reflexivity.
  - assert (Hnr : recovering (coordinator s) = false).
    { apply working_not_recovering; trivial. right.
      unfold readRoutine in H. destruct (reader s); discriminate. }
    unfold readRoutine, readRoutine_exit in H.
    destruct (reader s) as [[| |]|] eqn:Hrd; destruct l; try discriminate;
      simpl_fields;
      break_match H; apply Ok_inj in H; subst s';
      simpl_fields; rewrite ?Hbb;
      cbn [accepts writes app]; rewrite ?app_nil_r;
      reflexivity.
  - unfold reconnectRoutine in H.
    destruct (coordinator s) as [[|e|e pc| | |pc]|] eqn:Hc;
      destruct l; try discriminate;
      cbn [recovering resending coordinator_holds accepts writes] in *.
    + break_match H; apply Ok_inj in H; subst s'; simpl_fields;
        rewrite ?Hbb; cbn [Chan.buffered coordinator_holds app];
        now rewrite ?app_nil_r.
    + break_match H; apply Ok_inj in H; subst s'; simpl_fields;
        rewrite ?Hbb; cbn [Chan.buffered coordinator_holds app];
        now rewrite ?app_nil_r.
    + unfold reconnect_enter in H.
      break_match H; apply Ok_inj in H; subst s'; simpl_fields;
        rewrite ?Hbb; cbn [Chan.buffered coordinator_holds app];
        now rewrite ?app_nil_r.
    + destruct (reconnect l pc s) as [[s1 [pc1|[err|]]]| |] eqn:E;
        try discriminate;
        unfold reconnect, reconnect_return, dial in E;
        destruct pc as [a b], l as [|[id|err'] j]; simpl_fields;
        break_match E; apply Ok_inj in E;
        apply pair_equal_spec in E as [<- E]; try discriminate E;
        unfold Stop_enter, RunState_Stop in H; simpl_fields;
        destruct (isRunning (client s)) eqn:Erun;
        break_match H; apply Ok_inj in H; subst s';
        simpl_fields; rewrite ?Hbb;
        cbn [Chan.buffered coordinator_holds app];
        now rewrite ?app_nil_r.
    + destruct (Stop_finish (client s)) as [c1| |] eqn:E; try discriminate.
      unfold Stop_finish in E. break_match E. apply Ok_inj in E; subst c1.
      apply Ok_inj in H; subst s'. simpl_fields.
      rewrite ?Hbb; cbn [Chan.buffered coordinator_holds app];
        now rewrite ?app_nil_r.
    + break_match H; apply Ok_inj in H; subst s'; simpl_fields;
        rewrite ?Hbb; cbn [Chan.buffered coordinator_holds app];
        now rewrite ?app_nil_r.
    + break_match H; apply Ok_inj in H; subst s'; simpl_fields;
        rewrite ?Hbb, ?Hc; cbn [Chan.buffered coordinator_holds app];
        now rewrite ?app_nil_r.
    + break_match H; apply Ok_inj in H; subst s'; simpl_fields;
        rewrite ?Hbb; cbn [Chan.buffered coordinator_holds app];
        now rewrite ?app_nil_r.
    + destruct (Hrec eq_refl) as [Hw0 Hr0]. rewrite Hw0.
      destruct (inv_conn s Hi) as (k & Hk).
      destruct (inv_reconnectAfter s Hi) as (rb & Hrb & _).
      unfold processBacklog in H.
      destruct pc as [|r|e r|e r], l as [|now res| |]; try discriminate;
        try rewrite Hbb in H; try rewrite Hrb in H; try rewrite Hk in H;
        try rewrite Hbb in Hres; try rewrite Hrb in Hres;
        cbn [Chan.buffered] in Hres;
        cbn [writes coordinator_holds] in *.
      * destruct bb as [|r0 [|r1 bb]]; [| |cbn in Hbbl; lia];
          cbn [Chan.recv] in H; apply Ok_inj in H; subst s';
          unfold startReadWriteRoutines; simpl_fields;
          rewrite ?Hbb, ?Hw0; reflexivity.
      * destruct Hres as [_ ->].
        destruct res as [err|]; apply Ok_inj in H; subst s';
          unfold startReadWriteRoutines; simpl_fields;
          rewrite ?Hbb, ?Hw0, ?Hc; reflexivity.
      * destruct Hres as [-> ->]. cbn in H. apply Ok_inj in H; subst s'.
        simpl_fields. rewrite ?Hbb, ?Hw0. reflexivity.
      * subst bb. cbn in H. apply Ok_inj in H; subst s'.
        simpl_fields. rewrite ?Hw0. reflexivity.
  - apply Ok_inj in H; subst s'. unfold Call_request, nextRequestID.
    cbn [snd]. simpl_fields. rewrite Hbb. cbn [accepts writes app].
    now rewrite app_nil_r.
  - destruct (Send x request pick s) as [[e s1]| |] eqn:E; try discriminate.
    apply Ok_inj in H; subst s1.
    apply Send_Ok in E as [(-> & _ & Hw & _ & ->)|(-> & _ & _ & ->)];
      simpl_fields; rewrite ?Hbb; cbn [Chan.buffered accepts writes app];
      [|now rewrite app_nil_r].
    assert (Hnr : recovering (coordinator s) = false).
    { apply working_not_recovering; trivial. left; congruence. }
    assert (Hch : coordinator_holds (coordinator s) = []).
    { destruct (coordinator s) as [[| | | | |[]]|]; trivial; discriminate. }
    rewrite Hw, Hch, Hbl by congruence. reflexivity.
  - unfold Stop_enter, RunState_Stop in H.
    destruct (isRunning (client s)); apply Ok_inj in H; subst s';
      simpl_fields; rewrite ?Hbb; cbn [accepts writes app];
      now rewrite app_nil_r.
  - destruct (stopping s) as [|n]; try discriminate.
    destruct (Stop_finish (client s)) as [c| |] eqn:E; try discriminate.
    apply Ok_inj in H; subst s'. unfold Stop_finish in E.
    break_match E. apply Ok_inj in E; subst c.
    simpl_fields; rewrite ?Hbb; cbn [accepts writes app];
      now rewrite app_nil_r.
  - break_match H. apply Ok_inj in H; subst s'.
    simpl_fields; rewrite ?Hbb; cbn [accepts writes app];
      now rewrite app_nil_r.
Qed.

Lemma frames_with_write_deadline now c k :
  frames (with_write_deadline now c k) = frames k.
Proof. unfold with_write_deadline. now destruct (0 <? writeWait c). Qed.

Lemma frames_with_read_deadline now c k :
  frames (with_read_deadline now c k) = frames k.
Proof. unfold with_read_deadline. now destruct (0 <? readWait c). Qed.

Lemma frames_Close k : frames (conn_Close k) = frames k.
Proof. reflexivity. Qed.

Lemma requests_of_app fs1 fs2 :
  requests_of (fs1 ++ fs2) = requests_of fs1 ++ requests_of fs2.
Proof.
  induction fs1 as [|[r| |code] fs1 IH]; cbn; trivial. now rewrite IH.
Qed.

Ltac frames_auto :=
  repeat first [ rewrite frames_Close
               | rewrite frames_write
               | rewrite frames_with_write_deadline
               | rewrite frames_with_read_deadline
               | rewrite requests_of_app ];
  try match goal with
      | |- context [match ?r with Some _ => _ | None => _ end] => destruct r
      end;
  rewrite ?requests_of_app; cbn [requests_of]; rewrite ?app_nil_r.

(** what a transition does to the requests on the connection: a dial
    brings a new connection, anything else adds what it writes *)
Lemma step_wire l s s' k k' :
  step l s = Ok s' ->
  conn (client s) = Some k -> conn (client s') = Some k' ->
  (exists id, k' = new_conn id) \/
  requests_of (frames k') = requests_of (frames k) ++ writes l s.
Proof.
  intros H Hk Hk'.
  destruct l as [l|l|l|method params|x request pick| | |how];
    cbn [step] in H.
  - right. unfold writeRoutine, writeRoutine_exit in H.
    destruct (writer s) as [[| | |]|] eqn:Hw; destruct l; try discriminate;
      simpl_fields; rewrite ?Hk in H;
      break_match H; apply Ok_inj in H; subst s'; simpl_fields;
      rewrite ?Hk in Hk'; apply Some_inj in Hk'; subst k';
      cbn [writes]; rewrite ?Hw; cbn [writer_holds];
      frames_auto; reflexivity.
  - right. unfold readRoutine, readRoutine_exit in H.
    destruct (reader s) as [[| |]|] eqn:Hrd; destruct l; try discriminate;
      simpl_fields; rewrite ?Hk in H;
      break_match H; apply Ok_inj in H; subst s'; simpl_fields;
      rewrite ?Hk in Hk'; apply Some_inj in Hk'; subst k';
      cbn [writes]; frames_auto; reflexivity.
  - unfold reconnectRoutine in H.
    destruct (coordinator s) as [[|e|e pc| | |pc]|] eqn:Hc;
      destruct l; try discriminate; cbn [writes coordinator_holds].
    + right. break_match H; apply Ok_inj in H; subst s'; simpl_fields.
      rewrite Hk in Hk'. apply Some_inj in Hk'; subst k'. frames_auto.
      reflexivity.
    + right. break_match H; apply Ok_inj in H; subst s'; simpl_fields.
      rewrite Hk in Hk'. apply Some_inj in Hk'; subst k'. frames_auto.
      reflexivity.
    + right. unfold reconnect_enter in H.
      break_match H; apply Ok_inj in H; subst s'; simpl_fields.
      rewrite Hk in Hk'. apply Some_inj in Hk'; subst k'. frames_auto.
      reflexivity.
    + destruct (reconnect l pc s) as [[s1 [pc1|[err|]]]| |] eqn:E;
        try discriminate;
        unfold reconnect, reconnect_return, dial in E;
        destruct pc as [a b], l as [|[id|err'] j]; simpl_fields;
        break_match E; apply Ok_inj in E;
        apply pair_equal_spec in E as [<- E]; try discriminate E;
        unfold Stop_enter, RunState_Stop in H; simpl_fields;
        destruct (isRunning (client s)) eqn:Erun;
        break_match H; apply Ok_inj in H; subst s';
        simpl_fields;
        try (left; apply Some_inj in Hk'; subst k'; eexists; reflexivity);
        right; rewrite Hk in Hk'; apply Some_inj in Hk'; subst k';
        frames_auto; reflexivity.
    + right. destruct (Stop_finish (client s)) as [c1| |] eqn:E;
        try discriminate.
      unfold Stop_finish in E. break_match E. apply Ok_inj in E; subst c1.
      apply Ok_inj in H; subst s'. simpl_fields.
      rewrite Hk in Hk'. apply Some_inj in Hk'; subst k'. frames_auto.
      reflexivity.
    + right. break_match H; apply Ok_inj in H; subst s'; simpl_fields.
      rewrite Hk in Hk'. apply Some_inj in Hk'; subst k'. frames_auto.
      reflexivity.
    + right. break_match H; apply Ok_inj in H; subst s'; simpl_fields.
      rewrite Hk in Hk'. apply Some_inj in Hk'; subst k'. frames_auto.
      reflexivity.
    + right. break_match H; apply Ok_inj in H; subst s'; simpl_fields.
      rewrite Hk in Hk'. apply Some_inj in Hk'; subst k'. frames_auto.
      reflexivity.
    + right.
      destruct (processBacklog l pc (client s)) as [[c1 [pc1|[err|]]]| |] eqn:E;
        try discriminate; apply Ok_inj in H; subst s';
        unfold processBacklog in E;
        destruct pc as [|r|e r|e r], l as [|now res| |]; try discriminate;
        rewrite ?Hk in E;
        break_match E; apply Ok_inj in E;
        apply pair_equal_spec in E as [<- E]; try discriminate E;
        unfold startReadWriteRoutines in *; simpl_fields;
        rewrite ?Hk in Hk'; apply Some_inj in Hk'; subst k';
        cbn [writes]; rewrite ?Hc; cbn [coordinator_holds];
        frames_auto; reflexivity.
  - right. apply Ok_inj in H; subst s'. unfold Call_request, nextRequestID in Hk'.
    cbn [snd] in Hk'. simpl_fields.
    rewrite Hk in Hk'. apply Some_inj in Hk'; subst k'. cbn [writes].
    now rewrite app_nil_r.
  - right.
    destruct (Send x request pick s) as [[e s1]| |] eqn:E; try discriminate.
    apply Ok_inj in H; subst s1.
    apply Send_Ok in E as [(_ & _ & _ & _ & ->)|(_ & _ & _ & ->)];
      simpl_fields; rewrite Hk in Hk'; apply Some_inj in Hk'; subst k';
      cbn [writes]; now rewrite app_nil_r.
  - right. unfold Stop_enter, RunState_Stop in H.
    destruct (isRunning (client s)); apply Ok_inj in H; subst s';
      simpl_fields; rewrite Hk in Hk'; apply Some_inj in Hk'; subst k';
      cbn [writes]; now rewrite app_nil_r.
  - right. destruct (stopping s) as [|n]; try discriminate.
    destruct (Stop_finish (client s)) as [c| |] eqn:E; try discriminate.
    apply Ok_inj in H; subst s'. unfold Stop_finish in E.
    break_match E. apply Ok_inj in E; subst c.
    simpl_fields; rewrite Hk in Hk'; apply Some_inj in Hk'; subst k';
      cbn [writes]; now rewrite app_nil_r.
  - right. break_match H. apply Ok_inj in H; subst s'.
    simpl_fields; rewrite Hk in Hk'; apply Some_inj in Hk'; subst k';
      cbn [writes]; now rewrite app_nil_r.
Qed.

Lemma in_hand_bound s :
  invariant s -> bookkeeping s -> (length (in_hand s) <= 1)%nat.
Proof.
  intros Hi Hb.
  pose proof (inv_recovering s Hi) as Hrec.
  pose proof (inv_resend s Hi) as Hres.
  destruct (inv_backlog s Hi) as (bb & Hbb & Hbbl).
  pose proof (bk_backlog s Hb) as Hbl.
  unfold in_hand. rewrite Hbb in *. cbn [Chan.buffered] in *.
  destruct (writer s) as [w|] eqn:Hw.
  - rewrite Hbl by discriminate.
    assert (Hch : coordinator_holds (coordinator s) = []).
    { destruct (coordinator s) as [[| | | | |[]]|]; trivial;
        destruct Hrec; trivial; discriminate. }
    rewrite Hch. destruct w as [| |e [r|]|]; cbn; lia.
  - cbn [writer_holds app].
    destruct (coordinator s) as [[| | | | |[|r|e r|e r]]|];
      cbn [coordinator_holds resending] in *;
      try rewrite Hbb in Hres; cbn [Chan.buffered] in Hres;
      rewrite ?app_nil_r; trivial.
    + destruct Hres as [_ ->]. cbn. lia.
    + destruct Hres as [_ ->]. cbn. lia.
    + rewrite Hres. cbn. lia.
Qed.

Lemma run_in_hand ls : forall s s',
  reachable s -> run ls s = Ok s' ->
  in_hand s ++ along accepts ls s = along writes ls s ++ in_hand s'.
Proof.
  induction ls as [|l ls IH]; intros s s' Hr H; cbn [run along] in *.
  - apply Ok_inj in H as ->. now rewrite app_nil_r.
  - destruct (step l s) as [s1| |] eqn:E; try discriminate.
    assert (Hr1 : reachable s1) by (eapply reachable_step; eauto).
    pose proof (step_in_hand l s s1 (reachable_invariant s Hr)
                  (reachable_bookkeeping s Hr) E) as Hstep.
    rewrite app_assoc, Hstep, <- !app_assoc. f_equal. now apply IH.
Qed.

(** X22: the requests written, by the Write Worker or by
    [processBacklog], on whatever connection, are the requests [Send]
    accepted, in the same order and each one once; only the last one
    accepted may still be on its way: held by the Write Worker, by
    [processBacklog], or in the backlog.  A request counts as written when
    [WriteJSON] returns nil, which adds it to the frames of the
    connection. *)
Theorem requests_reach_the_wire_in_order s ls s' :
  reachable s ->
  run ls s = Ok s' ->
  in_hand s ++ along accepts ls s = along writes ls s ++ in_hand s' /\
  (length (in_hand s') <= 1)%nat /\
  forall l s1 k k1,
    step l s' = Ok s1 ->
    conn (client s') = Some k -> conn (client s1) = Some k1 ->
    (exists id, k1 = new_conn id) \/
    requests_of (frames k1) = requests_of (frames k) ++ writes l s'.
Proof.
  intros Hr H.
  assert (Hr' : reachable s') by (eapply run_reachable; eauto).
  split; [now apply run_in_hand|]. split.
  - apply in_hand_bound;
      [now apply reachable_invariant|now apply reachable_bookkeeping].
  - intros l s1 k k1. apply step_wire.
Qed.

Lemma requests_reach_the_wire_in_order_witness :
  along accepts resent example_started
  = along writes resent example_started
    ++ in_hand (after resent example_started) /\
  along writes resent example_started = [example_request].
Proof.
  assert (Hrun : run resent example_started
                 = Ok (after resent example_started))
    by (vm_compute; reflexivity).
  destruct (requests_reach_the_wire_in_order example_started resent
              (after resent example_started)
              example_started_reachable Hrun) as (H & _ & _).
  split; [exact H|]. vm_compute. reflexivity.
Defined.

(** * Failure signals of the workers *)

(** ** With and without the coordinator *)





(** With the coordinator gone nobody receives from the failure channel: a
    channel that holds a signal keeps it, and a worker parked at its own
    signal stays parked. *)
Lemma step_without_coordinator l s s' :
  invariant s -> coordinator s = None ->
  Chan.buffered (reconnectAfter (client s)) <> [] ->
  step l s = Ok s' ->
  coordinator s' = None /\
  reconnectAfter (client s') = reconnectAfter (client s) /\
  (forall err p, writer s = Some (W_signal err p) -> writer s' = writer s) /\
  (forall err, reader s = Some (R_signal err) -> reader s' = reader s).
Proof.
  intros Hi Hc Hb H.
  destruct (inv_reconnectAfter s Hi) as (rb & Hrb & Hrbl).
  rewrite Hrb in Hb. cbn in Hb.
  destruct rb as [|e0 [|e1 rb]]; [contradiction| |cbn in Hrbl; lia].
  destruct l as [l|l|l|method params|x request pick| | |how];
    cbn [step] in H.
  - unfold writeRoutine, writeRoutine_exit in H.
    destruct (writer s) as [[| | |]|] eqn:Hw; destruct l; try discriminate;
      simpl_fields; try rewrite Hrb in H; cbn [Chan.send length Nat.ltb Nat.leb] in H;
      break_match H; apply Ok_inj in H; subst s'; simpl_fields;
      repeat split; trivial; intros; discriminate.
  - unfold readRoutine, readRoutine_exit in H.
    destruct (reader s) as [[| |]|] eqn:Hrd; destruct l; try discriminate;
      simpl_fields; try rewrite Hrb in H; cbn [Chan.send length Nat.ltb Nat.leb] in H;
      break_match H; apply Ok_inj in H; subst s'; simpl_fields;
      repeat split; trivial; intros; discriminate.
  - unfold reconnectRoutine in H. rewrite Hc in H. discriminate.
  - apply Ok_inj in H; subst s'. unfold Call_request, nextRequestID.
    cbn [snd]. simpl_fields. auto.
  - destruct (Send x request pick s) as [[e s1]| |] eqn:E; try discriminate.
    apply Ok_inj in H; subst s1.
    apply Send_Ok in E as [(_ & _ & Hw & _ & ->)|(_ & _ & _ & ->)];
      simpl_fields; repeat split; trivial.
    intros err p Hw'. congruence.
  - unfold Stop_enter, RunState_Stop in H.
    destruct (isRunning (client s)); apply Ok_inj in H; subst s';
      simpl_fields; auto.
  - destruct (stopping s) as [|n]; try discriminate.
    destruct (Stop_finish (client s)) as [c| |] eqn:E; try discriminate.
    apply Ok_inj in H; subst s'. unfold Stop_finish in E.
    break_match E. apply Ok_inj in E; subst c. simpl_fields. auto.
  - break_match H. apply Ok_inj in H; subst s'. simpl_fields. auto.
Qed.

Lemma run_without_coordinator ls : forall s s',
  invariant s -> coordinator s = None ->
  Chan.buffered (reconnectAfter (client s)) <> [] ->
  run ls s = Ok s' ->
  coordinator s' = None /\
  reconnectAfter (client s') = reconnectAfter (client s) /\
  (forall err p, writer s = Some (W_signal err p) -> writer s' = writer s) /\
  (forall err, reader s = Some (R_signal err) -> reader s' = reader s).
Proof.
  induction ls as [|l ls IH]; intros s s' Hi Hc Hb H; cbn [run] in H.
  - apply Ok_inj in H; subst s'. auto.
  - destruct (step l s) as [s1| |] eqn:E; try discriminate.
    pose proof (step_invariant _ _ _ Hi E) as Hi1.
    apply step_without_coordinator in E as (Hc1 & Hr1 & Hw1 & Hrd1); trivial.
    destruct (IH s1 s' Hi1 Hc1) as (Hc' & Hr' & Hw' & Hrd'); trivial.
    { now rewrite Hr1. }
    split; [trivial|]. split; [congruence|]. split.
    + intros err p Hw. rewrite <- (Hw1 err p Hw).
      apply (Hw' err p). rewrite (Hw1 err p Hw). exact Hw.
    + intros err Hrd. rewrite <- (Hrd1 err Hrd).
      apply (Hrd' err). rewrite (Hrd1 err Hrd). exact Hrd.
Qed.

(** ** The keepalive ping (C8) *)




(** ** Read failures (C2) *)



(** The last case of the theorem is met: in [pinging_started], once the
    context is cancelled, the coordinator has returned and a failed ping
    has left the Write Worker's signal in the channel, a read that fails
    with an abnormal closure takes the Read Worker to its signal, where it
    stays whatever happens afterwards. *)
Lemma readRoutine_parks_for_ever :
  reachable (after coordinator_gone_ping_failed pinging_started) /\
  reader (after coordinator_gone_ping_failed pinging_started) = Some R_read /\
  exists s1,
    readRoutine
      (RRead 0 (ReadFailed (CloseError CloseAbnormalClosure "unexpected EOF")))
      (after coordinator_gone_ping_failed pinging_started) = Ok s1 /\
    Chan.is_closed (readRoutineQuit (client s1)) = true /\
    readRoutine RSignal s1 = Block /\
    forall ls s2, run ls s1 = Ok s2 ->
      reader s2
      = Some (R_signal (CloseError CloseAbnormalClosure "unexpected EOF")) /\
      Chan.buffered (reconnectAfter (client s2)) = [broken_pipe].
Proof.
  assert (Hr : reachable (after coordinator_gone_ping_failed pinging_started))
    by (apply after_reachable, pinging_started_reachable).
  split; [exact Hr|]. split; [reflexivity|].
  eexists. split; [vm_compute; reflexivity|].
  split; [reflexivity|]. split; [reflexivity|].
  intros ls s2 H.
  match type of H with
  | run ls ?s1 = _ =>
      assert (Hi : invariant s1);
      [apply (step_invariant
                (LReader (RRead 0 (ReadFailed
                                     (CloseError CloseAbnormalClosure
                                        "unexpected EOF"))))
                (after coordinator_gone_ping_failed pinging_started));
       [now apply reachable_invariant|vm_compute; reflexivity]|];
      destruct (run_without_coordinator ls s1 s2 Hi) as (_ & Hb & _ & Hrd);
      [reflexivity|discriminate|exact H|]
  end.
  split.
  - apply (Hrd (CloseError CloseAbnormalClosure "unexpected EOF")).
    reflexivity.
  - rewrite Hb. reflexivity.
Qed.
